(** * Verification of the Argo Tunnel client ([argo_tunnel.go])

    The five methods of [argo_tunnel.go] build a URI, hand one request to
    the shared helper [makeRequestContext], decode the JSON envelope with
    [json.Unmarshal] and return the typed payload or a wrapped error.

    The development has three layers:
    - models of the Go library functions the file calls ([utf8], [fmt],
      [errors], [json]);
    - the data types and the five methods of the file, as programs that
      issue requests to an external transport;
    - the properties of the methods. *)

From Stdlib Require Import String Ascii List ZArith NArith Bool Lia.
Import ListNotations.
Local Open Scope list_scope.
Local Open Scope string_scope.

(** ** Bytes and strings

    A Go [string] and a Go [[]byte] are both sequences of bytes; they are
    embedded as [string], whose characters are the 256 byte values. *)

Definition byte_of (c : ascii) : Z := Z.of_N (N_of_ascii c).
Definition ascii_of_byte (b : Z) : ascii := ascii_of_N (Z.to_N b).
Definition between (lo hi x : Z) : bool := ((lo <=? x) && (x <=? hi))%Z.

(** The double quote character, byte 34. *)
Definition dquote : ascii := "034"%char.
Definition backslash : ascii := "092"%char.

Fixpoint concat_strings (l : list string) : string :=
  match l with
  | [] => ""
  | s :: l' => s ++ concat_strings l'
  end.

Fixpoint stripPrefix (p s : string) : option string :=
  match p, s with
  | EmptyString, _ => Some s
  | String a p', String b s' => if Ascii.eqb a b then stripPrefix p' s' else None
  | String _ _, EmptyString => None
  end.

(** ** Package [unicode/utf8] *)
Module utf8.
Local Open Scope Z_scope.

Definition RuneError : Z := 65533.

(** A continuation byte, 0x80..0xBF. *)
Definition cont (b : Z) : bool := between 128 191 b.

(** [utf8.DecodeRuneInString]: the first rune of [s] and its width in bytes;
    [(RuneError, 1)] on an encoding that is not valid UTF-8 (over-long forms,
    surrogate halves and values above U+10FFFF included), [(RuneError, 0)] on
    the empty string. *)
Definition DecodeRuneInString (s : string) : Z * nat :=
  match s with
  | EmptyString => (RuneError, 0%nat)
  | String c0 r0 =>
    let b0 := byte_of c0 in
    if b0 <? 128 then (b0, 1%nat)
    else if between 194 223 b0 then
      match r0 with
      | String c1 _ =>
        let b1 := byte_of c1 in
        if cont b1
        then (Z.lor (Z.shiftl (Z.land b0 31) 6) (Z.land b1 63), 2%nat)
        else (RuneError, 1%nat)
      | _ => (RuneError, 1%nat)
      end
    else if between 224 239 b0 then
      match r0 with
      | String c1 (String c2 _) =>
        let b1 := byte_of c1 in
        let b2 := byte_of c2 in
        let lo := if b0 =? 224 then 160 else 128 in
        let hi := if b0 =? 237 then 159 else 191 in
        if between lo hi b1 && cont b2
        then (Z.lor (Z.shiftl (Z.land b0 15) 12)
                (Z.lor (Z.shiftl (Z.land b1 63) 6) (Z.land b2 63)), 3%nat)
        else (RuneError, 1%nat)
      | _ => (RuneError, 1%nat)
      end
    else if between 240 244 b0 then
      match r0 with
      | String c1 (String c2 (String c3 _)) =>
        let b1 := byte_of c1 in
        let b2 := byte_of c2 in
        let b3 := byte_of c3 in
        let lo := if b0 =? 240 then 144 else 128 in
        let hi := if b0 =? 244 then 143 else 191 in
        if between lo hi b1 && cont b2 && cont b3
        then (Z.lor (Z.shiftl (Z.land b0 7) 18)
                (Z.lor (Z.shiftl (Z.land b1 63) 12)
                   (Z.lor (Z.shiftl (Z.land b2 63) 6) (Z.land b3 63))), 4%nat)
        else (RuneError, 1%nat)
      | _ => (RuneError, 1%nat)
      end
    else (RuneError, 1%nat)
  end.

Definition isSurrogate (r : Z) : bool := between 55296 57343 r.

(** [utf8.EncodeRune] (through [utf8.AppendRune]): the UTF-8 bytes of a
    rune; a value that is no Unicode scalar is written as U+FFFD. *)
Definition EncodeRune (r : Z) : string :=
  let r := if (r <? 0) || (1114111 <? r) || isSurrogate r then RuneError else r in
  let b x := ascii_of_byte x in
  let tail k := Z.lor 128 (Z.land (Z.shiftr r k) 63) in
  if r <? 128 then String (b r) ""
  else if r <? 2048 then
    String (b (Z.lor 192 (Z.shiftr r 6))) (String (b (tail 0)) "")
  else if r <? 65536 then
    String (b (Z.lor 224 (Z.shiftr r 12)))
      (String (b (tail 6)) (String (b (tail 0)) ""))
  else
    String (b (Z.lor 240 (Z.shiftr r 18)))
      (String (b (tail 12)) (String (b (tail 6)) (String (b (tail 0)) ""))).

End utf8.

(** ** Package [fmt] *)
Module fmt.

(** What [Sprintf] appends for operands no verb consumed. *)
Definition extra (a : list string) : string :=
  match a with
  | [] => ""
  | x :: a' =>
    "%!(EXTRA string=" ++ x
      ++ concat_strings (map (fun y => ", string=" ++ y) a') ++ ")"
  end.

(** [fmt.Sprintf] on string operands, for the directives the client uses:
    [%s] writes the next operand byte for byte (an operand is never scanned
    for directives), [%%] writes a percent sign, every other byte of the
    format is copied. *)
Fixpoint Sprintf (format : string) (a : list string) : string :=
  match format with
  | EmptyString => extra a
  | String "%" (String "s" rest) =>
    match a with
    | x :: a' => x ++ Sprintf rest a'
    | [] => "%!s(MISSING)" ++ Sprintf rest []
    end
  | String "%" (String "%" rest) => String "%" (Sprintf rest a)
  | String "%" EmptyString => "%!(NOVERB)" ++ extra a
  | String c rest => String c (Sprintf rest a)
  end.

End fmt.

(** ** Errors

    Go's [error] values that reach the client: whatever the transport
    reports, the errors of [json.Unmarshal], and the wrapper that
    [errors.Wrap] (package [github.com/pkg/errors]) builds around a cause. *)
Inductive error : Type :=
| errorString (s : string)
| SyntaxError
| UnmarshalTypeError (Value Type_ : string)
| TimeParseError (value : string)
| withMessage (cause : error) (msg : string).

Module errors.

(** [errors.Wrap(err, message)]: [nil] when [err] is [nil], otherwise [err]
    annotated with [message] (the stack trace it also records is not
    modelled). *)
Definition Wrap (err : option error) (message : string) : option error :=
  match err with
  | None => None
  | Some e => Some (withMessage e message)
  end.

(** [errors.Cause]: the innermost error of a chain of wrappers. *)
Fixpoint Cause (e : error) : error :=
  match e with
  | withMessage c _ => Cause c
  | _ => e
  end.

End errors.

(** ** Package [encoding/json] *)
Module json.

#[local] Set Warnings "-register-all".

(** A JSON text after scanning. A string keeps both the bytes between its
    quotes ([raw], which [UnmarshalJSON] methods receive) and the text they
    denote; a number keeps its literal; the keys of an object are unquoted,
    its members in document order. *)
Inductive JSON : Type :=
| JNull
| JBool (b : bool)
| JNumber (lit : string)
| JString (raw s : string)
| JArray (elems : list JSON)
| JObject (members : list (string * JSON)).

(** *** Scanning *)

Definition isSpace (c : ascii) : bool :=
  match c with
  | " "%char | "009"%char | "010"%char | "013"%char => true
  | _ => false
  end.

Definition isDigit (c : ascii) : bool := between 48 57 (byte_of c).

Fixpoint skipSpace (s : string) : string :=
  match s with
  | String c r => if isSpace c then skipSpace r else s
  | EmptyString => s
  end.

Fixpoint drop (n : nat) (s : string) : string :=
  match n, s with
  | S n', String _ r => drop n' r
  | _, _ => s
  end.

Fixpoint take (n : nat) (s : string) : string :=
  match n, s with
  | S n', String c r => String c (take n' r)
  | _, _ => ""
  end.

Definition hexval (c : ascii) : option Z :=
  let b := byte_of c in
  if between 48 57 b then Some (b - 48)%Z
  else if between 97 102 b then Some (b - 87)%Z
  else if between 65 70 b then Some (b - 55)%Z
  else None.

(** [getu4]: the value of the four hexadecimal digits of a [\uXXXX] escape
    whose [\u] was just read. *)
Definition getu4 (s : string) : option Z :=
  match s with
  | String a (String b (String c (String d _))) =>
    match hexval a, hexval b, hexval c, hexval d with
    | Some x, Some y, Some z, Some w => Some (x * 4096 + y * 256 + z * 16 + w)%Z
    | _, _, _, _ => None
    end
  | _ => None
  end.

(** [unquote]: the text a string literal denotes, given the bytes between
    its quotes; [None] when they are no valid literal (a control character,
    an unknown or truncated escape). Escapes are resolved, a surrogate pair
    becomes one rune, a lone surrogate and every byte that is not valid UTF-8
    become U+FFFD. *)
Fixpoint unquote_fuel (fuel : nat) (s : string) : option string :=
  match fuel with
  | O => match s with EmptyString => Some "" | _ => None end
  | S n =>
    match s with
    | EmptyString => Some ""
    | String c r =>
      if Ascii.eqb c backslash then
        match r with
        | EmptyString => None
        | String e r' =>
          let simple x := option_map (String x) (unquote_fuel n r') in
          match e with
          | "034"%char => simple dquote
          | "092"%char => simple backslash
          | "/"%char => simple "/"%char
          | "b"%char => simple "008"%char
          | "f"%char => simple "012"%char
          | "n"%char => simple "010"%char
          | "r"%char => simple "013"%char
          | "t"%char => simple "009"%char
          | "u"%char =>
            match getu4 r' with
            | None => None
            | Some rr =>
              let r4 := drop 4 r' in
              if utf8.isSurrogate rr then
                let low :=
                  match r4 with
                  | String "092" (String "u" r5) => getu4 r5
                  | _ => None
                  end in
                match low with
                | Some rr1 =>
                  if between 55296 56319 rr && between 56320 57343 rr1 then
                    option_map
                      (append (utf8.EncodeRune
                         (Z.shiftl (rr - 55296) 10 + (rr1 - 56320) + 65536)%Z))
                      (unquote_fuel n (drop 6 r4))
                  else
                    option_map (append (utf8.EncodeRune utf8.RuneError))
                      (unquote_fuel n r4)
                | None =>
                  option_map (append (utf8.EncodeRune utf8.RuneError))
                    (unquote_fuel n r4)
                end
              else option_map (append (utf8.EncodeRune rr)) (unquote_fuel n r4)
            end
          | _ => None
          end
        end
      else if Ascii.eqb c dquote then None
      else if (byte_of c <? 32)%Z then None
      else if (byte_of c <? 128)%Z then option_map (String c) (unquote_fuel n r)
      else
        match utf8.DecodeRuneInString s with
        | (_, 1%nat) =>
          option_map (append (utf8.EncodeRune utf8.RuneError)) (unquote_fuel n r)
        | (_, size) =>
          option_map (append (take size s)) (unquote_fuel n (drop size s))
        end
    end
  end.

Definition unquote (raw : string) : option string :=
  unquote_fuel (String.length raw) raw.

(** The bytes of a string literal up to its closing quote, and what
    follows the quote; [None] when the literal is not closed. *)
Fixpoint scanString (s : string) : option (string * string) :=
  match s with
  | EmptyString => None
  | String c r =>
    if Ascii.eqb c dquote then Some ("", r)
    else if Ascii.eqb c backslash then
      match r with
      | String e r' =>
        match scanString r' with
        | Some (raw, rest) => Some (String c (String e raw), rest)
        | None => None
        end
      | EmptyString => None
      end
    else
      match scanString r with
      | Some (raw, rest) => Some (String c raw, rest)
      | None => None
      end
  end.

Fixpoint spanDigits (s : string) : string * string :=
  match s with
  | String c r =>
    if isDigit c then let (d, r') := spanDigits r in (String c d, r') else ("", s)
  | EmptyString => ("", s)
  end.

(** One or more digits. *)
Definition digits1 (s : string) : option (string * string) :=
  match spanDigits s with
  | (EmptyString, _) => None
  | (d, r) => Some (d, r)
  end.

(** The text after the byte [c] when [s] starts with it. *)
Definition startsWith (c : ascii) (s : string) : option string :=
  match s with
  | String c' r => if Ascii.eqb c c' then Some r else None
  | EmptyString => None
  end.

(** A number literal: an optional minus sign; a zero, or a digit from 1 to
    9 and any digits; optionally a point and one or more digits; optionally
    an exponent mark, a sign and one or more digits. *)
Definition scanNumber (s : string) : option (string * string) :=
  let (sign, s1) :=
    match startsWith "-" s with Some r => ("-", r) | None => ("", s) end in
  let int_part :=
    match startsWith "0" s1 with
    | Some r => Some ("0", r)
    | None => digits1 s1
    end in
  match int_part with
  | None => None
  | Some (i, s2) =>
    let frac_part :=
      match startsWith "." s2 with
      | Some r =>
        match digits1 r with
        | Some (d, r') => Some ("." ++ d, r')
        | None => None
        end
      | None => Some ("", s2)
      end in
    match frac_part with
    | None => None
    | Some (f, s3) =>
      let mark :=
        match startsWith "e" s3, startsWith "E" s3 with
        | Some r, _ => Some ("e", r)
        | None, Some r => Some ("E", r)
        | None, None => None
        end in
      match mark with
      | None => Some (sign ++ i ++ f, s3)
      | Some (e, r) =>
        let (esign, r1) :=
          match startsWith "+" r, startsWith "-" r with
          | Some r', _ => ("+", r')
          | None, Some r' => ("-", r')
          | None, None => ("", r)
          end in
        match digits1 r1 with
        | Some (d, r2) => Some (sign ++ i ++ f ++ e ++ esign ++ d, r2)
        | None => None
        end
      end
    end
  end.

(** One of the literals [true], [false] and [null]. *)
Definition scanLiteral (s : string) : option (JSON * string) :=
  match stripPrefix "true" s with
  | Some rest => Some (JBool true, rest)
  | None =>
    match stripPrefix "false" s with
    | Some rest => Some (JBool false, rest)
    | None =>
      match stripPrefix "null" s with
      | Some rest => Some (JNull, rest)
      | None => None
      end
    end
  end.

(** One value at the head of [s] (after white space) and the text that
    follows it. [fuel] bounds the depth to which values, elements and
    members are read one inside or after the other; [parse] supplies enough
    for any text. *)
Fixpoint value (fuel : nat) (s : string) : option (JSON * string) :=
  match fuel with
  | O => None
  | S n =>
    match skipSpace s with
    | EmptyString => None
    | String c r =>
      if Ascii.eqb c "{" then
        match startsWith "}" (skipSpace r) with
        | Some r' => Some (JObject [], r')
        | None => members n r []
        end
      else if Ascii.eqb c "[" then
        match startsWith "]" (skipSpace r) with
        | Some r' => Some (JArray [], r')
        | None => elements n r []
        end
      else if Ascii.eqb c dquote then
        match scanString r with
        | Some (raw, rest) =>
          match unquote raw with
          | Some text => Some (JString raw text, rest)
          | None => None
          end
        | None => None
        end
      else if Ascii.eqb c "-" || isDigit c then
        match scanNumber (String c r) with
        | Some (lit, rest) => Some (JNumber lit, rest)
        | None => None
        end
      else scanLiteral (String c r)
    end
  end

with elements (fuel : nat) (s : string) (acc : list JSON)
  : option (JSON * string) :=
  match fuel with
  | O => None
  | S n =>
    match value n s with
    | None => None
    | Some (v, rest) =>
      match skipSpace rest with
      | EmptyString => None
      | String c r =>
        if Ascii.eqb c "," then elements n r (v :: acc)
        else if Ascii.eqb c "]" then Some (JArray (rev (v :: acc)), r)
        else None
      end
    end
  end

with members (fuel : nat) (s : string) (acc : list (string * JSON))
  : option (JSON * string) :=
  match fuel with
  | O => None
  | S n =>
    match startsWith dquote (skipSpace s) with
    | None => None
    | Some r =>
      match scanString r with
      | None => None
      | Some (raw, rest) =>
        match unquote raw, startsWith ":" (skipSpace rest) with
        | Some key, Some r1 =>
          match value n r1 with
          | None => None
          | Some (v, rest1) =>
            match skipSpace rest1 with
            | EmptyString => None
            | String c r2 =>
              if Ascii.eqb c "," then members n r2 ((key, v) :: acc)
              else if Ascii.eqb c "}" then
                Some (JObject (rev ((key, v) :: acc)), r2)
              else None
            end
          end
        | _, _ => None
        end
      end
    end
  end.

(** The depth to which arrays and objects are nested in a value: the
    greatest number of brackets and braces open at once in its text. *)
Fixpoint nesting (j : JSON) : N :=
  match j with
  | JArray l => N.succ (fold_right (fun x m => N.max (nesting x) m) 0%N l)
  | JObject ms =>
    N.succ (fold_right (fun m acc => N.max (nesting (snd m)) acc) 0%N ms)
  | _ => 0%N
  end.

(** The scanner's [maxNestingDepth]: it refuses, as a syntax error, a text
    in which more arrays and objects are open at once. *)
Definition maxNestingDepth : N := 10000.

(** The scan [json.Unmarshal] starts with ([checkValid]): one value, white
    space around it, nothing else, nested no deeper than
    [maxNestingDepth]. *)
Definition parse (data : string) : option JSON :=
  match value (2 * String.length data + 2) data with
  | Some (v, rest) =>
    match skipSpace rest with
    | EmptyString =>
      if (nesting v <=? maxNestingDepth)%N then Some v else None
    | _ => None
    end
  | None => None
  end.

(** *** Decoding

    [json.Unmarshal] walks the scanned value along the Go type it decodes
    into. A value of the wrong kind for its target is skipped: the first
    such error is kept ([savedError]) and decoding goes on. An error
    returned by an [UnmarshalJSON] method stops decoding at once
    ([abort]). Either way the target keeps what was stored so far. *)

Record decodeState : Type := {
  savedError : option error;
  abort : option error
}.

Definition start : decodeState := {| savedError := None; abort := None |}.

Definition saveError (e : error) (d : decodeState) : decodeState :=
  match savedError d with
  | Some _ => d
  | None => {| savedError := Some e; abort := abort d |}
  end.

Definition abortWith (e : error) (d : decodeState) : decodeState :=
  {| savedError := savedError d; abort := Some e |}.

(** The error [Unmarshal] returns when decoding ends in state [d]. *)
Definition outcome (d : decodeState) : option error :=
  match abort d with
  | Some e => Some e
  | None => savedError d
  end.

(** The [Value] an [UnmarshalTypeError] reports for a JSON value. *)
Definition describe (j : JSON) : string :=
  match j with
  | JNull => "null"
  | JBool _ => "bool"
  | JNumber _ => "number"
  | JString _ _ => "string"
  | JArray _ => "array"
  | JObject _ => "object"
  end.

(** Decoding a JSON value into a Go variable of type [T] that holds [v]. *)
Definition Decoder (T : Type) : Type :=
  JSON -> T -> decodeState -> T * decodeState.

Definition typeError {T : Type} (j : JSON) (tyname : string) (v : T)
  (d : decodeState) : T * decodeState :=
  (v, saveError (UnmarshalTypeError (describe j) tyname) d).

Definition decodeString : Decoder string := fun j v d =>
  match j with
  | JNull => (v, d)
  | JString _ s => (s, d)
  | _ => typeError j "string" v d
  end.

Definition decodeBool : Decoder bool := fun j v d =>
  match j with
  | JNull => (v, d)
  | JBool b => (b, d)
  | _ => typeError j "bool" v d
  end.

Fixpoint digitsValue (s : string) (acc : Z) : option Z :=
  match s with
  | EmptyString => Some acc
  | String c r =>
    if isDigit c then digitsValue r (acc * 10 + (byte_of c - 48))%Z else None
  end.

(** [strconv.ParseInt(lit, 10, 64)] on a number literal: its value when it
    is an optional minus sign and digits, within the range of [int64]. *)
Definition parseInt (lit : string) : option Z :=
  let magnitude :=
    match lit with
    | EmptyString => None
    | String "-" EmptyString => None
    | String "-" r => option_map Z.opp (digitsValue r 0)
    | _ => digitsValue lit 0
    end in
  match magnitude with
  | Some n =>
    if between (- 2 ^ 63) (2 ^ 63 - 1) n then Some n else None
  | None => None
  end.

Definition decodeInt : Decoder Z := fun j v d =>
  match j with
  | JNull => (v, d)
  | JNumber lit =>
    match parseInt lit with
    | Some n => (n, d)
    | None => (v, saveError (UnmarshalTypeError ("number " ++ lit) "int") d)
    end
  | _ => typeError j "int" v d
  end.

(** A pointer to a type with an [UnmarshalJSON] method: [null] makes the
    pointer [nil]; any other value is handed to the method, after a zero
    value was allocated for a [nil] pointer. *)
Definition decodePtrUnmarshaler {T : Type} (zero : T)
  (UnmarshalJSON : JSON -> T + error) : Decoder (option T) := fun j v d =>
  match j with
  | JNull => (None, d)
  | _ =>
    match UnmarshalJSON j with
    | inl t => (Some t, d)
    | inr e => (Some (match v with Some t => t | None => zero end), abortWith e d)
    end
  end.

(** A Go slice: [None] is the [nil] slice, [Some []] an empty slice that is
    not [nil]. *)
Definition slice (T : Type) : Type := option (list T).

(** The elements of a JSON array, in order: element [i] is decoded into
    element [i] of the slice when it has one, into a zero value otherwise. *)
Fixpoint array {T : Type} (zero : T) (elem : Decoder T) (elems : list JSON)
  (old : list T) (d : decodeState) : list T * decodeState :=
  match elems with
  | [] => ([], d)
  | j :: elems' =>
    let (x, d1) := elem j (hd zero old) d in
    match abort d1 with
    | Some _ => (x :: tl old, d1)
    | None =>
      let (xs, d2) := array zero elem elems' (tl old) d1 in (x :: xs, d2)
    end
  end.

Definition decodeSlice {T : Type} (zero : T) (elem : Decoder T)
  (tyname : string) : Decoder (slice T) := fun j v d =>
  match j with
  | JNull => (None, d)
  | JArray elems =>
    let (l, d') :=
      array zero elem elems (match v with Some l => l | None => [] end) d in
    (Some l, d')
  | _ => typeError j tyname v d
  end.

Definition upper (c : ascii) : ascii :=
  if between 97 122 (byte_of c) then ascii_of_byte (byte_of c - 32) else c.

(** The folding under which a key matches a field name when no name is
    equal to it: ASCII letters in upper case, U+017F (long s) as [S] and
    U+212A (Kelvin sign) as [K]. *)
Fixpoint foldName (s : string) : string :=
  match s with
  | EmptyString => ""
  | String "197" (String "191" r) => String "S" (foldName r)
  | String "226" (String "132" (String "170" r)) => String "K" (foldName r)
  | String c r => String (upper c) (foldName r)
  end.

(** The field a key selects: the one named exactly so, else the first one
    whose name folds to the same text, else none. *)
Definition findField (fields : list string) (key : string) : option string :=
  if existsb (String.eqb key) fields then Some key
  else find (fun f => String.eqb (foldName f) (foldName key)) fields.

(** The members of a JSON object, in document order, stored into the
    fields they select; a member that selects no field is skipped. *)
Fixpoint object {T : Type} (fields : list string)
  (store : string -> Decoder T) (members : list (string * JSON)) (v : T)
  (d : decodeState) : T * decodeState :=
  match members with
  | [] => (v, d)
  | (key, j) :: rest =>
    let (v1, d1) :=
      match findField fields key with
      | Some f => store f j v d
      | None => (v, d)
      end in
    match abort d1 with
    | Some _ => (v1, d1)
    | None => object fields store rest v1 d1
    end
  end.

Definition decodeStruct {T : Type} (fields : list string)
  (store : string -> Decoder T) (tyname : string) : Decoder T := fun j v d =>
  match j with
  | JNull => (v, d)
  | JObject members => object fields store members v d
  | _ => typeError j tyname v d
  end.

(** [json.Unmarshal(data, &v)]: the new content of [v] and the error. *)
Definition Unmarshal {T : Type} (decode : Decoder T) (data : string) (v : T)
  : T * option error :=
  match parse data with
  | None => (v, Some SyntaxError)
  | Some j => let (v', d) := decode j v start in (v', outcome d)
  end.

(** *** Encoding *)

Definition hexdigit (n : Z) : ascii :=
  if (n <? 10)%Z then ascii_of_byte (48 + n) else ascii_of_byte (87 + n).

(** The bytes [json.Marshal] writes between the quotes of a string: the
    quote and the backslash behind a backslash, line feed, carriage return
    and tab as [\n], [\r], [\t], every other control byte and [<], [>], [&]
    as [\u00XX], an invalid UTF-8 byte as [\ufffd], U+2028 and U+2029 as
    escapes, everything else as it is. *)
Fixpoint escape_fuel (fuel : nat) (s : string) : string :=
  match fuel, s with
  | O, _ => ""
  | _, EmptyString => ""
  | S n, String c r =>
    let b := byte_of c in
    if (b <? 128)%Z then
      if Ascii.eqb c dquote || Ascii.eqb c backslash then
        String backslash (String c (escape_fuel n r))
      else if (b =? 10)%Z then String backslash (String "n" (escape_fuel n r))
      else if (b =? 13)%Z then String backslash (String "r" (escape_fuel n r))
      else if (b =? 9)%Z then String backslash (String "t" (escape_fuel n r))
      else if (b <? 32)%Z || Ascii.eqb c "<" || Ascii.eqb c ">" || Ascii.eqb c "&"
      then
        String backslash
          (String "u" (String "0" (String "0"
             (String (hexdigit (Z.shiftr b 4))
                (String (hexdigit (Z.land b 15)) (escape_fuel n r))))))
      else String c (escape_fuel n r)
    else
      match utf8.DecodeRuneInString s with
      | (_, 1%nat) => String backslash ("ufffd" ++ escape_fuel n r)
      | (rune, size) =>
        if (rune =? 8232)%Z || (rune =? 8233)%Z then
          String backslash ("u202" ++ String (hexdigit (Z.land rune 15))
                              (escape_fuel n (drop size s)))
        else take size s ++ escape_fuel n (drop size s)
      end
  end.

Definition quote (s : string) : string :=
  String dquote (escape_fuel (String.length s) s ++ String dquote "").

Fixpoint join (sep : string) (l : list string) : string :=
  match l with
  | [] => ""
  | [x] => x
  | x :: l' => x ++ sep ++ join sep l'
  end.

(** A JSON object from its members, given as name and encoded value. *)
Definition encodeObject (members : list (string * string)) : string :=
  "{" ++ join "," (map (fun m => quote (fst m) ++ ":" ++ snd m) members) ++ "}".

(** A struct field in [Marshal]'s output: nothing when the field is tagged
    [omitempty] and holds an empty value. *)
Definition field (name : string) (omitempty empty : bool) (text : string)
  : list (string * string) :=
  if omitempty && empty then [] else [(name, text)].

End json.

(** ** The fuel of the scanner

    The scanner reads with a bound on the depth of its recursion. The bound
    [parse] supplies is enough for every text: more fuel never changes the
    result. *)
Module json_fuel.
Import json.

Lemma skipSpace_length (s : string) :
  String.length (skipSpace s) <= String.length s.
Proof.
  induction s as [|c s IH]; simpl; [lia|].
  destruct (isSpace c); simpl; lia.
Qed.

Lemma startsWith_length (c : ascii) (s r : string) :
  startsWith c s = Some r -> String.length s = S (String.length r).
Proof.
  destruct s as [|c' s]; simpl; [discriminate|].
  destruct (Ascii.eqb c c'); [|discriminate].
  now intros [= ->].
Qed.

Lemma stripPrefix_length (p : string) :
  forall s r : string,
  stripPrefix p s = Some r ->
  String.length s = String.length p + String.length r.
Proof.
  induction p as [|a p IH]; intros s r; simpl.
  - now intros [= ->].
  - destruct s as [|b s]; [discriminate|].
    destruct (Ascii.eqb a b); [|discriminate].
    intros H. apply IH in H. simpl. lia.
Qed.

Lemma scanString_length (n : nat) :
  forall s raw rest : string,
  String.length s <= n ->
  scanString s = Some (raw, rest) ->
  String.length rest < String.length s.
Proof.
  induction n as [|n IH]; intros s raw rest Hn; destruct s as [|c s];
    simpl in *; try discriminate; try lia.
  destruct (Ascii.eqb c dquote).
  - intros [= <- <-]. lia.
  - destruct (Ascii.eqb c backslash).
    + destruct s as [|e s]; [discriminate|].
      destruct (scanString s) as [[raw' rest']|] eqn:E; [|discriminate].
      intros [= <- <-]. apply IH in E; simpl in *; lia.
    + destruct (scanString s) as [[raw' rest']|] eqn:E; [|discriminate].
      intros [= <- <-]. apply IH in E; simpl in *; lia.
Qed.

Lemma spanDigits_length (s : string) :
  forall d r : string,
  spanDigits s = (d, r) ->
  String.length s = String.length d + String.length r.
Proof.
  induction s as [|c s IH]; intros d r; simpl.
  - now intros [= <- <-].
  - destruct (isDigit c).
    + destruct (spanDigits s) as [d' r']. intros [= <- <-].
      simpl. now rewrite (IH d' r' eq_refl).
    + intros [= <- <-]. reflexivity.
Qed.

Lemma digits1_length (s d r : string) :
  digits1 s = Some (d, r) -> String.length r < String.length s.
Proof.
  unfold digits1. destruct (spanDigits s) as [d' r'] eqn:E.
  apply spanDigits_length in E.
  destruct d' as [|c d']; [discriminate|].
  intros [= <- <-]. simpl in E. lia.
Qed.

Ltac lengths :=
  repeat match goal with
  | H : startsWith _ _ = Some _ |- _ => apply startsWith_length in H
  | H : digits1 _ = Some _ |- _ => apply digits1_length in H
  | H : stripPrefix _ _ = Some _ |- _ => apply stripPrefix_length in H
  end.

Ltac split_matches :=
  repeat match goal with
  | H : context [match ?x with _ => _ end] |- _ => destruct x eqn:?
  end.

Lemma scanNumber_length (s lit rest : string) :
  scanNumber s = Some (lit, rest) -> String.length rest < String.length s.
Proof.
  unfold scanNumber. intros H. split_matches;
    try discriminate;
    repeat match goal with
    | E : (_, _) = (_, _) |- _ => injection E as <- <-
    | E : Some (_, _) = Some (_, _) |- _ => injection E as <- <-
    end;
    lengths; simpl in *; lia.
Qed.

Lemma scanLiteral_length (s : string) (v : JSON) (rest : string) :
  scanLiteral s = Some (v, rest) -> String.length rest < String.length s.
Proof.
  unfold scanLiteral. intros H. split_matches; try discriminate;
    injection H as <- <-; lengths; simpl in *; lia.
Qed.

(** A value, a run of elements and a run of members each take at least one
    byte of the text. *)
Lemma value_consumes (n : nat) :
  (forall s v rest, value n s = Some (v, rest) ->
     String.length rest < String.length s)
  /\ (forall s acc v rest, elements n s acc = Some (v, rest) ->
        String.length rest < String.length s)
  /\ (forall s acc v rest, members n s acc = Some (v, rest) ->
        String.length rest < String.length s).
Proof.
  induction n as [|n (IHv & IHe & IHm)];
    [repeat split; intros; discriminate|].
  repeat split.
  - intros s v rest. cbn [value].
    pose proof (skipSpace_length s) as Hs.
    destruct (skipSpace s) as [|c r]; [discriminate|]. simpl in Hs.
    pose proof (skipSpace_length r) as Hr.
    destruct (Ascii.eqb c "{").
    { destruct (startsWith "}" (skipSpace r)) eqn:E.
      - intros [= <- <-]. apply startsWith_length in E. lia.
      - intros H. apply IHm in H. lia. }
    destruct (Ascii.eqb c "[").
    { destruct (startsWith "]" (skipSpace r)) eqn:E.
      - intros [= <- <-]. apply startsWith_length in E. lia.
      - intros H. apply IHe in H. lia. }
    destruct (Ascii.eqb c dquote).
    { destruct (scanString r) as [[raw rest']|] eqn:E; [|discriminate].
      destruct (unquote raw); [|discriminate].
      intros [= <- <-].
      apply (scanString_length _ _ _ _ (le_n _)) in E. lia. }
    destruct (Ascii.eqb c "-" || isDigit c).
    { destruct (scanNumber (String c r)) as [[lit rest']|] eqn:E; [|discriminate].
      intros [= <- <-]. apply scanNumber_length in E. simpl in E. lia. }
    intros H. apply scanLiteral_length in H. simpl in H. lia.
  - intros s acc v rest. cbn [elements].
    destruct (value n s) as [[v0 rest0]|] eqn:Ev; [|discriminate].
    apply IHv in Ev.
    pose proof (skipSpace_length rest0) as Hs.
    destruct (skipSpace rest0) as [|c r]; [discriminate|]. simpl in Hs.
    destruct (Ascii.eqb c ",").
    { intros H. apply IHe in H. lia. }
    destruct (Ascii.eqb c "]"); [|discriminate].
    intros [= <- <-]. lia.
  - intros s acc v rest. cbn [members].
    pose proof (skipSpace_length s) as Hs.
    destruct (startsWith dquote (skipSpace s)) as [r|] eqn:Eq; [|discriminate].
    apply startsWith_length in Eq.
    destruct (scanString r) as [[raw rest0]|] eqn:E; [|discriminate].
    apply (scanString_length _ _ _ _ (le_n _)) in E.
    destruct (unquote raw); [|discriminate].
    pose proof (skipSpace_length rest0) as Hs0.
    destruct (startsWith ":" (skipSpace rest0)) as [r1|] eqn:Ec; [|discriminate].
    apply startsWith_length in Ec.
    destruct (value n r1) as [[v1 rest1]|] eqn:Ev; [|discriminate].
    apply IHv in Ev.
    pose proof (skipSpace_length rest1) as Hs1.
    destruct (skipSpace rest1) as [|c r2]; [discriminate|]. simpl in Hs1.
    destruct (Ascii.eqb c ",").
    { intros H. apply IHm in H. lia. }
    destruct (Ascii.eqb c "}"); [|discriminate].
    intros [= <- <-]. lia.
Qed.

(** Fuel above twice the length of the text is never missed. *)
Lemma fuel_enough (n : nat) :
  (forall s m, 2 * String.length s + 1 <= n -> n <= m ->
     value m s = value n s)
  /\ (forall s acc m, 2 * String.length s + 2 <= n -> n <= m ->
        elements m s acc = elements n s acc)
  /\ (forall s acc m, 2 * String.length s + 2 <= n -> n <= m ->
        members m s acc = members n s acc).
Proof.
  induction n as [|n (IHv & IHe & IHm)]; [repeat split; intros; lia|].
  repeat split.
  - intros s m Hn Hm. destruct m as [|m]; [lia|]. cbn [value].
    pose proof (skipSpace_length s) as Hs.
    destruct (skipSpace s) as [|c r]; [reflexivity|]. simpl in Hs.
    rewrite (IHm r [] m) by lia. rewrite (IHe r [] m) by lia.
    reflexivity.
  - intros s acc m Hn Hm. destruct m as [|m]; [lia|]. cbn [elements].
    rewrite (IHv s m) by lia.
    destruct (value n s) as [[v rest]|] eqn:Ev; [|reflexivity].
    apply (proj1 (value_consumes n)) in Ev.
    pose proof (skipSpace_length rest) as Hs.
    destruct (skipSpace rest) as [|c r]; [reflexivity|]. simpl in Hs.
    rewrite (IHe r (v :: acc) m) by lia. reflexivity.
  - intros s acc m Hn Hm. destruct m as [|m]; [lia|]. cbn [members].
    pose proof (skipSpace_length s) as Hs.
    destruct (startsWith dquote (skipSpace s)) as [r|] eqn:Eq; [|reflexivity].
    apply startsWith_length in Eq.
    destruct (scanString r) as [[raw rest0]|] eqn:E; [|reflexivity].
    apply (scanString_length _ _ _ _ (le_n _)) in E.
    destruct (unquote raw) as [key|]; [|reflexivity].
    pose proof (skipSpace_length rest0) as Hs0.
    destruct (startsWith ":" (skipSpace rest0)) as [r1|] eqn:Ec; [|reflexivity].
    apply startsWith_length in Ec.
    rewrite (IHv r1 m) by lia.
    destruct (value n r1) as [[v1 rest1]|] eqn:Ev; [|reflexivity].
    apply (proj1 (value_consumes n)) in Ev.
    pose proof (skipSpace_length rest1) as Hs1.
    destruct (skipSpace rest1) as [|c r2]; [reflexivity|]. simpl in Hs1.
    rewrite (IHm r2 ((key, v1) :: acc) m) by lia. reflexivity.
Qed.

(** The scan of [parse] is the scan with any larger fuel. *)
Theorem parse_fuel_enough (data : string) (m : nat) :
  2 * String.length data + 2 <= m ->
  value m data = value (2 * String.length data + 2) data.
Proof.
  intros Hm. apply (proj1 (fuel_enough _)); lia.
Qed.

Lemma drop_length (k : nat) :
  forall s : string, String.length (drop k s) <= String.length s.
Proof.
  induction k as [|k IH]; intros [|c s]; simpl; try lia.
  specialize (IH s). lia.
Qed.

Lemma DecodeRuneInString_size (c : ascii) (r : string) :
  1 <= snd (utf8.DecodeRuneInString (String c r)).
Proof.
  unfold utf8.DecodeRuneInString.
  repeat match goal with
  | |- context [match ?x with _ => _ end] => destruct x
  end; simpl; lia.
Qed.

(** The fuel [unquote] supplies, the length of the literal, is enough. *)
Lemma unquote_fuel_enough (n : nat) :
  forall (s : string) (m : nat),
  String.length s <= n -> n <= m -> unquote_fuel m s = unquote_fuel n s.
Proof.
  induction n as [|n IH]; intros s m Hn Hm.
  - destruct s; [|simpl in Hn; lia]. now destruct m.
  - destruct m as [|m]; [lia|]. cbn [unquote_fuel].
    destruct s as [|c r]; [reflexivity|]. simpl in Hn.
    destruct (Ascii.eqb c backslash).
    + destruct r as [|e r']; [reflexivity|]. simpl in Hn.
      pose proof (drop_length 4 r').
      pose proof (drop_length 6 (drop 4 r')).
      rewrite (IH r' m), (IH (drop 4 r') m), (IH (drop 6 (drop 4 r')) m) by lia.
      reflexivity.
    + destruct (Ascii.eqb c dquote); [reflexivity|].
      destruct (byte_of c <? 32)%Z; [reflexivity|].
      rewrite (IH r m) by lia.
      destruct (byte_of c <? 128)%Z; [reflexivity|].
      pose proof (DecodeRuneInString_size c r) as Hsize.
      destruct (utf8.DecodeRuneInString (String c r)) as [rune size].
      simpl in Hsize. destruct size as [|size]; [lia|].
      pose proof (drop_length size r).
      cbn [drop]. rewrite (IH (drop size r) m) by lia. reflexivity.
Qed.

(** So is the fuel [quote] supplies. *)
Lemma escape_fuel_enough (n : nat) :
  forall (s : string) (m : nat),
  String.length s <= n -> n <= m -> escape_fuel m s = escape_fuel n s.
Proof.
  induction n as [|n IH]; intros s m Hn Hm.
  - destruct s; [|simpl in Hn; lia]. now destruct m.
  - destruct m as [|m]; [lia|]. cbn [escape_fuel].
    destruct s as [|c r]; [reflexivity|]. simpl in Hn.
    rewrite (IH r m) by lia.
    destruct (byte_of c <? 128)%Z; [reflexivity|].
    pose proof (DecodeRuneInString_size c r) as Hsize.
    destruct (utf8.DecodeRuneInString (String c r)) as [rune size].
    simpl in Hsize. destruct size as [|size]; [lia|].
    pose proof (drop_length size r).
    cbn [drop]. rewrite (IH (drop size r) m) by lia. reflexivity.
Qed.

End json_fuel.

(** ** Scanning what [Marshal] writes

    The texts [json.Marshal] writes scan back to the values they encode.
    This is the part of the round trip of a struct that does not depend on
    the struct. *)
Module json_roundtrip.
Import json json_fuel.

(** *** Fuel: a scan that succeeds is the scan of [parse] *)

Lemma fuel_monotone (n : nat) :
  (forall s r, value n s = Some r -> value (S n) s = Some r)
  /\ (forall s acc r, elements n s acc = Some r -> elements (S n) s acc = Some r)
  /\ (forall s acc r, members n s acc = Some r -> members (S n) s acc = Some r).
Proof.
  induction n as [|n (IHv & IHe & IHm)];
    [repeat split; intros; discriminate|].
  repeat split.
  - intros s r. cbn [value].
    destruct (skipSpace s) as [|c t]; [discriminate|].
    destruct (Ascii.eqb c "{").
    { destruct (startsWith "}" (skipSpace t)); [trivial|]. apply IHm. }
    destruct (Ascii.eqb c "[").
    { destruct (startsWith "]" (skipSpace t)); [trivial|]. apply IHe. }
    trivial.
  - intros s acc r. cbn [elements].
    destruct (value n s) as [[v rest]|] eqn:Ev; [|discriminate].
    rewrite (IHv _ _ Ev).
    destruct (skipSpace rest) as [|c t]; [discriminate|].
    destruct (Ascii.eqb c ","); [apply IHe | trivial].
  - intros s acc r. cbn [members].
    destruct (startsWith dquote (skipSpace s)) as [t|]; [|discriminate].
    destruct (scanString t) as [[raw rest]|]; [|discriminate].
    destruct (unquote raw) as [key|]; [|discriminate].
    destruct (startsWith ":" (skipSpace rest)) as [r1|]; [|discriminate].
    destruct (value n r1) as [[v rest1]|] eqn:Ev; [|discriminate].
    rewrite (IHv _ _ Ev).
    destruct (skipSpace rest1) as [|c t2]; [discriminate|].
    destruct (Ascii.eqb c ","); [apply IHm | trivial].
Qed.

Lemma value_more_fuel (n m : nat) (s : string) (r : JSON * string) :
  n <= m -> value n s = Some r -> value m s = Some r.
Proof.
  intros Hle H. induction Hle as [|m Hle IH]; [exact H|].
  now apply (proj1 (fuel_monotone m)).
Qed.

(** A scan that succeeds with some fuel succeeds with the fuel of [parse]. *)
Lemma value_parse_fuel (n : nat) (s : string) (r : JSON * string) :
  value n s = Some r -> value (2 * String.length s + 2) s = Some r.
Proof.
  intros H.
  destruct (Nat.le_gt_cases n (2 * String.length s + 2)) as [Hle|Hgt].
  - exact (value_more_fuel _ _ _ _ Hle H).
  - rewrite <- (parse_fuel_enough s n) by lia. exact H.
Qed.

(** *** Strings *)

(** [utf8.ValidString]: the text is a sequence of UTF-8 encodings. *)
Fixpoint valid_fuel (fuel : nat) (s : string) : bool :=
  match fuel, s with
  | _, EmptyString => true
  | O, String _ _ => false
  | S n, String c r =>
    if (byte_of c <? 128)%Z then valid_fuel n r
    else
      match utf8.DecodeRuneInString s with
      | (_, O) | (_, 1) => false
      | (_, size) => valid_fuel n (drop size s)
      end
  end.

Definition ValidString (s : string) : bool := valid_fuel (String.length s) s.

Lemma append_assoc (x y z : string) : (x ++ y) ++ z = x ++ (y ++ z).
Proof. induction x as [|c x IH]; simpl; [reflexivity | now rewrite IH]. Qed.

Lemma append_length (x y : string) :
  String.length (x ++ y) = String.length x + String.length y.
Proof. induction x as [|c x IH]; simpl; [reflexivity | now rewrite IH]. Qed.

Ltac every_byte c := destruct c as [[] [] [] [] [] [] [] []].

(** One ASCII byte: what is written for it skips back to it. *)
Lemma escape_ascii_step (n : nat) (c : ascii) (r : string) :
  (byte_of c <? 128)%Z = true ->
  (forall t, scanString (escape_fuel n r ++ String dquote t)
             = Some (escape_fuel n r, t)) ->
  (forall m, String.length (escape_fuel n r) <= m ->
             unquote_fuel m (escape_fuel n r) = Some r) ->
  (forall t, scanString (escape_fuel (S n) (String c r) ++ String dquote t)
             = Some (escape_fuel (S n) (String c r), t))
  /\ (forall m, String.length (escape_fuel (S n) (String c r)) <= m ->
                unquote_fuel m (escape_fuel (S n) (String c r))
                = Some (String c r)).
Proof.
  intros Hc Hscan Hunq.
  every_byte c; try discriminate Hc; clear Hc; split.
  all: try (intros t; cbn; rewrite Hscan; reflexivity).
  all: intros m Hm; cbn in Hm |- *;
       (destruct m as [|m]; [lia|]); cbn;
       rewrite Hunq by lia; reflexivity.
Qed.

(** *** Bytes above 127: the encodings of two to four bytes *)

Lemma byte_of_range (c : ascii) : (0 <= byte_of c < 256)%Z.
Proof.
  unfold byte_of. pose proof (N_ascii_bounded c). lia.
Qed.

Lemma byte_of_eq (c : ascii) (z : Z) : byte_of c = z -> c = ascii_of_byte z.
Proof.
  intros <-. unfold ascii_of_byte, byte_of.
  now rewrite N2Z.id, ascii_N_embedding.
Qed.

(** The decoder joins the bits of a rune with [lor] and [shiftl]; below,
    they are sums and products. *)
Lemma lor_shiftl (x y k : Z) :
  (0 <= k)%Z -> (0 <= y < 2 ^ k)%Z ->
  Z.lor (Z.shiftl x k) y = (x * 2 ^ k + y)%Z.
Proof.
  intros Hk Hy. rewrite Z.shiftl_mul_pow2 by exact Hk.
  rewrite <- Z.add_lor_land.
  assert (E : Z.land (x * 2 ^ k) y = 0%Z).
  { apply Z.bits_inj'. intros n Hn. rewrite Z.land_spec, Z.bits_0.
    destruct (Z.lt_ge_cases n k) as [Hlt|Hge].
    - now rewrite Z.mul_pow2_bits_low.
    - assert (Z.testbit y n = false) as ->; [|apply andb_false_r].
      destruct (Z.eq_dec y 0) as [->|Hy0]; [apply Z.bits_0|].
      apply Z.bits_above_log2; [lia|].
      assert (Z.log2 y < k)%Z by (apply Z.log2_lt_pow2; lia). lia. }
  rewrite E. lia.
Qed.

(** Every byte of the text is above 127. *)
Fixpoint allHigh (s : string) : bool :=
  match s with
  | EmptyString => true
  | String c r => negb (byte_of c <? 128)%Z && allHigh r
  end.

Ltac decode_cases H :=
  unfold utf8.DecodeRuneInString in H; cbv zeta in H;
  repeat match type of H with
  | context [if ?b then _ else _] => destruct b eqn:?
  | context [match ?x with _ => _ end] => destruct x
  end;
  injection H as <- <-; try lia.

Ltac zbool :=
  repeat match goal with
  | H : _ && _ = true |- _ => apply andb_true_iff in H; destruct H
  | H : between _ _ _ = true |- _ => unfold between in H
  | H : utf8.cont _ = true |- _ => unfold utf8.cont, between in H
  | H : (_ <=? _)%Z = true |- _ => apply Z.leb_le in H
  | H : (_ <? _)%Z = false |- _ => apply Z.ltb_ge in H
  | H : (_ =? _)%Z = true |- _ => apply Z.eqb_eq in H
  | H : (_ =? _)%Z = false |- _ => apply Z.eqb_neq in H
  end.

Lemma high_byte (c : ascii) : (128 <= byte_of c)%Z -> (byte_of c <? 128)%Z = false.
Proof. intros H. apply Z.ltb_ge. exact H. Qed.

(** A sequence that decodes to a rune of two bytes or more: its bytes are
    all above 127, and they decode alike whatever follows. *)
Lemma decode_inv (c : ascii) (r : string) (rune : Z) (size : nat) :
  utf8.DecodeRuneInString (String c r) = (rune, size) ->
  2 <= size ->
  exists w,
    take size (String c r) = w
    /\ String c r = w ++ drop size (String c r)
    /\ String.length w = size
    /\ allHigh w = true
    /\ (forall t, utf8.DecodeRuneInString (w ++ t) = (rune, size)).
Proof.
  intros H Hs. decode_cases H.
  all: eexists; split; [cbn [take]; reflexivity|]; split; [reflexivity|];
       split; [reflexivity|]; split;
       [ cbn [allHigh]; zbool;
         rewrite ?high_byte by lia; reflexivity
       | intros t; cbn [append]; unfold utf8.DecodeRuneInString; cbv zeta;
         repeat match goal with
         | E : ?b = _ |- context [?b] => rewrite E
         end; reflexivity ].
Qed.

Lemma land_63 (b : Z) : Z.land b 63 = (b mod 64)%Z.
Proof. apply (Z.land_ones b 6). lia. Qed.
Lemma land_31 (b : Z) : Z.land b 31 = (b mod 32)%Z.
Proof. apply (Z.land_ones b 5). lia. Qed.
Lemma land_15 (b : Z) : Z.land b 15 = (b mod 16)%Z.
Proof. apply (Z.land_ones b 4). lia. Qed.
Lemma land_7 (b : Z) : Z.land b 7 = (b mod 8)%Z.
Proof. apply (Z.land_ones b 3). lia. Qed.

Ltac lor_to_add :=
  rewrite ?land_63, ?land_31, ?land_15, ?land_7 in *;
  repeat match goal with
  | H : context [Z.lor (Z.shiftl ?x ?k) ?y] |- _ =>
    lazymatch y with
    | context [Z.lor] => fail
    | _ => rewrite (lor_shiftl x y k) in H by (Z.div_mod_to_equations; lia)
    end
  end.

(** The bytes that decode to U+2028 or U+2029 are the bytes [EncodeRune]
    writes for it. *)
Lemma decode_separator (c : ascii) (r : string) (rune : Z) (size : nat) :
  utf8.DecodeRuneInString (String c r) = (rune, size) ->
  2 <= size ->
  rune = 8232%Z \/ rune = 8233%Z ->
  take size (String c r) = utf8.EncodeRune rune.
Proof.
  intros H Hs Hrune.
  unfold utf8.DecodeRuneInString in H; cbv zeta in H;
  repeat match type of H with
  | context [if ?b then _ else _] => destruct b eqn:?
  | context [match ?x with _ => _ end] => destruct x
  end;
  apply pair_equal_spec in H; destruct H as [Hr Hsz]; subst size; try lia.
  all: zbool;
    repeat match goal with
    | x : ascii |- _ =>
      lazymatch goal with
      | _ : (0 <= byte_of x < 256)%Z |- _ => fail
      | _ => pose proof (byte_of_range x)
      end
    end.
  all: lor_to_add.
  all: try (exfalso; destruct Hrune as [Hrune|Hrune]; Z.div_mod_to_equations; lia).
  destruct Hrune as [-> | ->].
  - assert (Ec : byte_of c = 226%Z) by (Z.div_mod_to_equations; lia).
    assert (Ea : byte_of a = 128%Z) by (Z.div_mod_to_equations; lia).
    assert (Ea0 : byte_of a0 = 168%Z) by (Z.div_mod_to_equations; lia).
    apply byte_of_eq in Ec, Ea, Ea0. subst. reflexivity.
  - assert (Ec : byte_of c = 226%Z) by (Z.div_mod_to_equations; lia).
    assert (Ea : byte_of a = 128%Z) by (Z.div_mod_to_equations; lia).
    assert (Ea0 : byte_of a0 = 169%Z) by (Z.div_mod_to_equations; lia).
    apply byte_of_eq in Ec, Ea, Ea0. subst. reflexivity.
Qed.

Lemma high_tests (c : ascii) :
  (byte_of c <? 128)%Z = false ->
  Ascii.eqb c backslash = false /\ Ascii.eqb c dquote = false
  /\ (byte_of c <? 32)%Z = false.
Proof. every_byte c; intros H; try discriminate H; repeat split. Qed.

Lemma scanString_high (w : string) :
  forall t : string,
  allHigh w = true ->
  scanString (w ++ t)
  = match scanString t with
    | Some (raw, rest) => Some (w ++ raw, rest)
    | None => None
    end.
Proof.
  induction w as [|c w IH]; intros t Hw.
  - cbn. now destruct (scanString t) as [[raw rest]|].
  - cbn [allHigh] in Hw. apply andb_true_iff in Hw. destruct Hw as [Hc Hw].
    apply negb_true_iff in Hc.
    destruct (high_tests c Hc) as (Hb & Hq & _).
    cbn [append scanString]. rewrite Hq, Hb, (IH t Hw).
    now destruct (scanString t) as [[raw rest]|].
Qed.

Lemma take_app (w x : string) : take (String.length w) (w ++ x) = w.
Proof. induction w as [|c w IH]; cbn; [now destruct x | now rewrite IH]. Qed.

Lemma drop_app (w x : string) : drop (String.length w) (w ++ x) = x.
Proof. induction w as [|c w IH]; cbn; [reflexivity | exact IH]. Qed.

(** What is written for a text skips back and unquotes to the text. *)
Definition Faithful (n : nat) (s : string) : Prop :=
  (forall t, scanString (escape_fuel n s ++ String dquote t)
             = Some (escape_fuel n s, t))
  /\ (forall m, String.length (escape_fuel n s) <= m ->
                unquote_fuel m (escape_fuel n s) = Some s).

Lemma escape_high_step (n : nat) (c : ascii) (r : string) :
  (byte_of c <? 128)%Z = false ->
  valid_fuel (S n) (String c r) = true ->
  String.length r <= n ->
  (forall s', String.length s' <= n -> valid_fuel n s' = true -> Faithful n s') ->
  Faithful (S n) (String c r).
Proof.
  intros Hc Hvalid Hlen IH.
  cbn [valid_fuel] in Hvalid. rewrite Hc in Hvalid.
  destruct (utf8.DecodeRuneInString (String c r)) as [rune size] eqn:Hdec.
  destruct size as [|[|k]]; try discriminate Hvalid.
  destruct (decode_inv c r rune _ Hdec ltac:(lia))
    as (w & Htake & Hsplit & Hw & Hhigh & Hsame).
  pose proof (drop_length (S k) r) as Hdrop.
  assert (Hshort : String.length (drop (S (S k)) (String c r)) <= n).
  { change (drop (S (S k)) (String c r)) with (drop (S k) r). lia. }
  destruct (IH _ Hshort Hvalid) as [IHscan IHunq].
  unfold Faithful. cbn [escape_fuel]. rewrite Hc, Hdec.
  destruct ((rune =? 8232)%Z || (rune =? 8233)%Z) eqn:Hsep.
  - assert (Hrune : rune = 8232%Z \/ rune = 8233%Z).
    { apply orb_true_iff in Hsep. destruct Hsep as [H|H];
        apply Z.eqb_eq in H; auto. }
    pose proof (decode_separator c r rune _ Hdec ltac:(lia) Hrune) as Henc.
    rewrite Htake in Henc.
    set (rest := escape_fuel n (drop (S (S k)) (String c r))) in *.
    split.
    + intros t. destruct Hrune as [-> | ->]; cbn; rewrite IHscan; reflexivity.
    + intros m Hm. rewrite Hsplit. rewrite Henc.
      destruct Hrune as [-> | ->]; cbn in Hm |- *;
        (destruct m as [|m]; [lia|]); cbn;
        rewrite IHunq by lia; reflexivity.
  - rewrite Htake.
    set (rest := escape_fuel n (drop (S (S k)) (String c r))) in *.
    split.
    + intros t. rewrite append_assoc, (scanString_high w _ Hhigh), IHscan.
      reflexivity.
    + intros m Hm. rewrite append_length in Hm.
      destruct m as [|m]; [lia|].
      destruct w as [|c0 w']; [cbn in Hw; lia|].
      cbn [allHigh] in Hhigh. apply andb_true_iff in Hhigh.
      destruct Hhigh as [Hc0 _]. apply negb_true_iff in Hc0.
      destruct (high_tests c0 Hc0) as (Hb & Hq & Hlow).
      cbn [append unquote_fuel]. rewrite Hb, Hq, Hlow, Hc0.
      change (String c0 (w' ++ rest)) with (String c0 w' ++ rest).
      rewrite (Hsame rest), <- Hw.
      cbn [String.length]. 
      change (S (String.length w')) with (String.length (String c0 w')).
      rewrite take_app, drop_app, IHunq by (cbn in Hm; lia).
      cbn [option_map]. now rewrite <- Hsplit.
Qed.

(** Every valid text is written faithfully. *)
Lemma escape_faithful (n : nat) :
  forall s : string,
  String.length s <= n -> valid_fuel n s = true -> Faithful n s.
Proof.
  induction n as [|n IH]; intros s Hlen Hvalid.
  - destruct s as [|c r]; [|cbn in Hlen; lia].
    split; [reflexivity | intros m _; now destruct m].
  - destruct s as [|c r].
    + split; [reflexivity | intros m _; now destruct m].
    + cbn [String.length] in Hlen.
      destruct (byte_of c <? 128)%Z eqn:Hc.
      * cbn [valid_fuel] in Hvalid. rewrite Hc in Hvalid.
        destruct (IH r ltac:(lia) Hvalid) as [H1 H2].
        exact (escape_ascii_step n c r Hc H1 H2).
      * apply escape_high_step; auto. lia.
Qed.

(** The bytes [Marshal] writes between the quotes for [s]. *)
Definition escaped (s : string) : string := escape_fuel (String.length s) s.
Arguments escaped : simpl never.

Lemma escaped_scans (s t : string) :
  ValidString s = true ->
  scanString (escaped s ++ String dquote t) = Some (escaped s, t).
Proof.
  intros H. apply (escape_faithful (String.length s) s (le_n _) H).
Qed.

Lemma escaped_unquotes (s : string) :
  ValidString s = true -> unquote (escaped s) = Some s.
Proof.
  intros H. apply (escape_faithful (String.length s) s (le_n _) H), le_n.
Qed.

(** *** Values *)

(** The text scans to the value [j], whatever follows it, with any fuel
    from [d] on. *)
Definition Scans (d : nat) (text : string) (j : JSON) : Prop :=
  forall (n : nat) (rest : string),
  d <= n -> value n (text ++ rest) = Some (j, rest).

Lemma Scans_more (d d' : nat) (text : string) (j : JSON) :
  d <= d' -> Scans d text j -> Scans d' text j.
Proof. intros Hle H n rest Hn. apply H. lia. Qed.

Lemma quote_scans (s : string) :
  ValidString s = true -> Scans 1 (quote s) (JString (escaped s) s).
Proof.
  intros H [|n] rest Hn; [lia|].
  unfold quote. cbn [append value skipSpace isSpace dquote].
  change "034"%char with dquote.
  rewrite append_assoc. cbn [append Ascii.eqb Bool.eqb].
  fold (escaped s). rewrite (escaped_scans s rest H), (escaped_unquotes s H).
  reflexivity.
Qed.

Lemma flag_scans (b : bool) :
  Scans 1 (if b then "true" else "false") (JBool b).
Proof. intros [|n] rest Hn; [lia|]. now destruct b. Qed.

Lemma null_scans : Scans 1 "null" JNull.
Proof. intros [|n] rest Hn; [lia|]. reflexivity. Qed.

(** *** Objects *)

(** A member as [encodeObject] takes it, a name and the text of a value,
    against the member it scans to. *)
Definition MemberScans (d : nat) (m : string * string) (mj : string * JSON)
  : Prop :=
  ValidString (fst m) = true /\ fst mj = fst m /\ Scans d (snd m) (snd mj).

Definition memberText (m : string * string) : string :=
  quote (fst m) ++ ":" ++ snd m.

Lemma member_head (d n : nat) (m : string * string) (mj : string * JSON)
  (tail : string) (acc : list (string * JSON)) :
  MemberScans d m mj -> d <= n ->
  members (S n) (memberText m ++ tail) acc
  = match skipSpace tail with
    | EmptyString => None
    | String c r =>
      if Ascii.eqb c "," then members n r (mj :: acc)
      else if Ascii.eqb c "}" then Some (JObject (rev (mj :: acc)), r)
      else None
    end.
Proof.
  intros (Hkey & Hname & Hval) Hn.
  destruct m as [k text], mj as [k' j]. cbn [fst snd] in *. subst k'.
  unfold memberText, quote. cbn [fst snd members append skipSpace isSpace dquote].
  change "034"%char with dquote.
  cbn [startsWith Ascii.eqb Bool.eqb dquote].
  rewrite !append_assoc. cbn [append]. fold (escaped k).
  rewrite (escaped_scans k _ Hkey), (escaped_unquotes k Hkey).
  cbn [skipSpace isSpace startsWith Ascii.eqb Bool.eqb].
  rewrite (Hval n tail Hn). reflexivity.
Qed.

Lemma join_cons (sep x y : string) (l : list string) :
  join sep (x :: y :: l) = x ++ sep ++ join sep (y :: l).
Proof. reflexivity. Qed.

Lemma members_scan (d : nat) (ms : list (string * string))
  (js : list (string * JSON)) :
  Forall2 (MemberScans d) ms js ->
  ms <> [] ->
  forall (n : nat) (acc : list (string * JSON)) (rest : string),
  d + length ms <= n ->
  members n (join "," (map memberText ms) ++ String "}" rest) acc
  = Some (JObject (rev acc ++ js)%list, rest).
Proof.
  induction 1 as [|m mj ms js Hm Hrest IH]; intros Hne n acc rest Hn;
    [contradiction|].
  destruct n as [|n]; [cbn in Hn; lia|]. cbn [length] in Hn.
  destruct ms as [|m' ms].
  - inversion Hrest; subst. cbn [map join].
    rewrite (member_head d n m mj _ acc Hm) by lia.
    reflexivity.
  - cbn [map]. rewrite join_cons, !append_assoc.
    rewrite (member_head d n m mj _ acc Hm) by lia.
    cbn [append skipSpace isSpace Ascii.eqb Bool.eqb].
    change (memberText m' :: map memberText ms)
      with (map memberText (m' :: ms)).
    rewrite IH by (try discriminate; cbn [length] in *; lia).
    cbn [rev]. now rewrite <- app_assoc.
Qed.

Lemma encodeObject_scans (d : nat) (ms : list (string * string))
  (js : list (string * JSON)) :
  Forall2 (MemberScans d) ms js ->
  Scans (S (d + length ms)) (encodeObject ms) (JObject js).
Proof.
  intros H [|n] rest Hn; [lia|].
  unfold encodeObject.
  change (fun m : string * string => quote (fst m) ++ ":" ++ snd m)
    with memberText.
  destruct ms as [|m ms].
  - inversion H; subst. reflexivity.
  - rewrite !append_assoc.
    cbn [append value skipSpace isSpace Ascii.eqb Bool.eqb].
    assert (Hopen : startsWith "}"
              (skipSpace (join "," (map memberText (m :: ms))
                          ++ String "}" rest)) = None).
    { destruct ms as [|m' ms]; cbn [map]; [cbn [join] | rewrite join_cons];
        reflexivity. }
    rewrite Hopen.
    apply (members_scan d (m :: ms) js H ltac:(discriminate) n [] rest).
    cbn [length] in *. lia.
Qed.

(** *** Arrays *)

(** A text that scans to a value does not start with a closing bracket. *)
Lemma Scans_not_closing (d : nat) (text : string) (j : JSON) (tail : string) :
  Scans d text j -> startsWith "]" (skipSpace (text ++ tail)) = None.
Proof.
  intros H. specialize (H (S d) tail ltac:(lia)). cbn [value] in H.
  destruct (skipSpace (text ++ tail)) as [|c r]; [reflexivity|].
  cbn [startsWith]. destruct (Ascii.eqb "]" c) eqn:E; [|reflexivity].
  apply Ascii.eqb_eq in E. subst c. discriminate H.
Qed.

Lemma elements_scan (d : nat) (texts : list string) (js : list JSON) :
  Forall2 (Scans d) texts js ->
  texts <> [] ->
  forall (n : nat) (acc : list JSON) (rest : string),
  d + length texts <= n ->
  elements n (join "," texts ++ String "]" rest) acc
  = Some (JArray (rev acc ++ js)%list, rest).
Proof.
  induction 1 as [|text j texts js Hj Hrest IH]; intros Hne n acc rest Hn;
    [contradiction|].
  destruct n as [|n]; [cbn in Hn; lia|]. cbn [length] in Hn.
  destruct texts as [|text' texts].
  - inversion Hrest; subst. cbn [join elements].
    rewrite (Hj n _ ltac:(lia)). reflexivity.
  - rewrite join_cons, !append_assoc. cbn [elements].
    rewrite (Hj n _ ltac:(lia)).
    cbn [append skipSpace isSpace Ascii.eqb Bool.eqb].
    rewrite IH by (try discriminate; cbn [length] in *; lia).
    cbn [rev]. now rewrite <- app_assoc.
Qed.

Lemma array_scans (d : nat) (texts : list string) (js : list JSON) :
  Forall2 (Scans d) texts js ->
  Scans (S (d + length texts)) ("[" ++ join "," texts ++ "]") (JArray js).
Proof.
  intros H [|n] rest Hn; [lia|].
  destruct texts as [|text texts].
  - inversion H; subst. reflexivity.
  - rewrite !append_assoc.
    cbn [append value skipSpace isSpace Ascii.eqb Bool.eqb].
    assert (Hopen : startsWith "]"
              (skipSpace (join "," (text :: texts) ++ String "]" rest)) = None).
    { inversion H as [|? j ? js' Hj Hrest]; subst.
      destruct texts as [|text' texts].
      - apply (Scans_not_closing d text j _ Hj).
      - rewrite join_cons, append_assoc.
        apply (Scans_not_closing d text j _ Hj). }
    cbn [append] in Hopen. rewrite Hopen.
    apply (elements_scan d (text :: texts) js H ltac:(discriminate) n [] rest).
    cbn [length] in *. lia.
Qed.

(** *** Whole texts *)

Lemma Scans_parse (d : nat) (text : string) (j : JSON) :
  Scans d text j ->
  (nesting j <=? maxNestingDepth)%N = true ->
  parse text = Some j.
Proof.
  intros H Hdepth. unfold parse.
  assert (E : text = text ++ "").
  { clear. induction text as [|c t IH]; cbn; [reflexivity | now rewrite <- IH]. }
  pose proof (H d "" (le_n d)) as Hv. rewrite <- E in Hv.
  rewrite (value_parse_fuel _ _ _ Hv). cbn [skipSpace]. now rewrite Hdepth.
Qed.

(** *** Plain texts: written as they are *)

(** A byte [Marshal] copies: printable ASCII other than the quote, the
    backslash and [<], [>], [&]. *)
Definition plainByte (c : ascii) : bool :=
  between 32 126 (byte_of c)
  && negb (Ascii.eqb c dquote || Ascii.eqb c backslash || Ascii.eqb c "<"
           || Ascii.eqb c ">" || Ascii.eqb c "&").

Fixpoint plain (s : string) : bool :=
  match s with
  | EmptyString => true
  | String c r => plainByte c && plain r
  end.

Lemma plain_escape (n : nat) :
  forall s : string,
  String.length s <= n -> plain s = true ->
  valid_fuel n s = true /\ escape_fuel n s = s.
Proof.
  induction n as [|n IH]; intros [|c r] Hlen Hplain; try (split; reflexivity).
  - cbn in Hlen. lia.
  - cbn [String.length] in Hlen. cbn [plain] in Hplain.
    apply andb_true_iff in Hplain. destruct Hplain as [Hc Hr].
    destruct (IH r ltac:(lia) Hr) as [Hv He].
    every_byte c; try discriminate Hc; clear Hc;
      (split; [exact Hv | cbn; now rewrite He]).
Qed.

Lemma plain_valid (s : string) : plain s = true -> ValidString s = true.
Proof. intros H. apply (plain_escape _ s (le_n _) H). Qed.

Lemma plain_escaped (s : string) : plain s = true -> escaped s = s.
Proof. intros H. apply (plain_escape _ s (le_n _) H). Qed.

End json_roundtrip.


(** ** JSON texts, by the grammar of RFC 8259

    What a JSON text is and which value it denotes, stated without the
    scanner: a text is the rendering of a document, a tree that records
    every choice the grammar leaves to the writer (white space, the form
    of a number, how each character of a string is written). The scanner
    and [unquote] are then shown to read every JSON text as the value it
    denotes. *)
Module json_text.
Import json json_fuel json_roundtrip.

#[local] Set Warnings "-register-all".

(** *** White space: space, horizontal tab, line feed, carriage return *)

Definition blank (c : ascii) : bool :=
  existsb (Ascii.eqb c) [" "; "009"; "010"; "013"]%char.

Fixpoint blanks (s : string) : bool :=
  match s with
  | EmptyString => true
  | String c r => blank c && blanks r
  end.

(** *** Numbers: [ minus ] int [ frac ] [ exp ] *)

Definition digit (c : ascii) : bool :=
  existsb (Ascii.eqb c) ["0"; "1"; "2"; "3"; "4"; "5"; "6"; "7"; "8"; "9"]%char.

Fixpoint digits (s : string) : bool :=
  match s with
  | EmptyString => true
  | String c r => digit c && digits r
  end.

(** One digit or more. *)
Definition someDigits (s : string) : bool :=
  match s with
  | EmptyString => false
  | _ => digits s
  end.

(** The exponent of a number: the letter [e] or [E], a sign or none, the
    digits. *)
Record Exponent : Type := {
  mark : ascii;
  sign : string;
  power : string
}.

Record Number : Type := {
  minus : bool;
  int : string;
  frac : option string;
  exp : option Exponent
}.

Definition wellFormedExponent (e : Exponent) : bool :=
  existsb (Ascii.eqb (mark e)) ["e"; "E"]%char
  && existsb (String.eqb (sign e)) [""; "+"; "-"]
  && someDigits (power e).

(** The integer part is a zero, or digits that do not start with a zero. *)
Definition wellFormedNumber (n : Number) : bool :=
  match int n with
  | EmptyString => false
  | String "0" EmptyString => true
  | String "0" _ => false
  | i => digits i
  end
  && match frac n with
     | Some d => someDigits d
     | None => true
     end
  && match exp n with
     | Some e => wellFormedExponent e
     | None => true
     end.

Definition renderExponent (e : Exponent) : string :=
  String (mark e) (sign e ++ power e).

Definition renderNumber (n : Number) : string :=
  (if minus n then "-" else "")
  ++ int n
  ++ match frac n with
     | Some d => "." ++ d
     | None => ""
     end
  ++ match exp n with
     | Some e => renderExponent e
     | None => ""
     end.

(** *** Strings *)

(** A character of a string literal, as it is written: one unescaped byte
    of ASCII, the UTF-8 bytes of a character beyond ASCII, a two-character
    escape, or [\u] and four hexadecimal digits. *)
Inductive Char : Type :=
| Plain (c : ascii)
| Wide (w : string)
| Escape (e : ascii)
| Unicode (a b c d : ascii).

Definition inRange (lo hi : Z) (c : ascii) : bool :=
  ((lo <=? byte_of c) && (byte_of c <=? hi))%Z.

(** The well-formed UTF-8 byte sequences of two to four bytes (the
    Unicode Standard, table 3-7). *)
Definition wellFormedUTF8 (w : string) : bool :=
  match w with
  | String a (String b EmptyString) =>
    inRange 194 223 a && inRange 128 191 b
  | String a (String b (String c EmptyString)) =>
    (inRange 224 224 a && inRange 160 191 b
     || inRange 225 236 a && inRange 128 191 b
     || inRange 237 237 a && inRange 128 159 b
     || inRange 238 239 a && inRange 128 191 b)
    && inRange 128 191 c
  | String a (String b (String c (String d EmptyString))) =>
    (inRange 240 240 a && inRange 144 191 b
     || inRange 241 243 a && inRange 128 191 b
     || inRange 244 244 a && inRange 128 143 b)
    && inRange 128 191 c && inRange 128 191 d
  | _ => false
  end.

(** The character a two-character escape stands for. *)
Definition escapes : list (ascii * ascii) :=
  [(dquote, dquote); (backslash, backslash); ("/", "/"); ("b", "008");
   ("f", "012"); ("n", "010"); ("r", "013"); ("t", "009")]%char.

Fixpoint assoc {A : Type} (c : ascii) (l : list (ascii * A)) : option A :=
  match l with
  | [] => None
  | (k, v) :: r => if Ascii.eqb c k then Some v else assoc c r
  end.

Definition hexDigits : list (ascii * Z) :=
  [("0", 0); ("1", 1); ("2", 2); ("3", 3); ("4", 4); ("5", 5); ("6", 6);
   ("7", 7); ("8", 8); ("9", 9); ("a", 10); ("b", 11); ("c", 12); ("d", 13);
   ("e", 14); ("f", 15); ("A", 10); ("B", 11); ("C", 12); ("D", 13);
   ("E", 14); ("F", 15)]%char%Z.

Definition present {A : Type} (o : option A) : bool :=
  match o with
  | Some _ => true
  | None => false
  end.

Definition wellFormedChar (c : Char) : bool :=
  match c with
  | Plain c =>
    inRange 32 127 c && negb (Ascii.eqb c dquote) && negb (Ascii.eqb c backslash)
  | Wide w => wellFormedUTF8 w
  | Escape e => present (assoc e escapes)
  | Unicode a b c d =>
    present (assoc a hexDigits) && present (assoc b hexDigits)
    && present (assoc c hexDigits) && present (assoc d hexDigits)
  end.

Definition renderChar (c : Char) : string :=
  match c with
  | Plain c => String c ""
  | Wide w => w
  | Escape e => String backslash (String e "")
  | Unicode a b c d =>
    String backslash (String "u" (String a (String b (String c (String d "")))))
  end.

Fixpoint renderChars (cs : list Char) : string :=
  match cs with
  | [] => ""
  | c :: r => renderChar c ++ renderChars r
  end.

(** The UTF-8 bytes of a code point (RFC 3629). *)
Definition utf8Bytes (r : Z) : string :=
  let b x := ascii_of_byte x in
  (if r <? 128 then String (b r) ""
   else if r <? 2048 then
     String (b (192 + r / 64)) (String (b (128 + r mod 64)) "")
   else if r <? 65536 then
     String (b (224 + r / 4096))
       (String (b (128 + (r / 64) mod 64)) (String (b (128 + r mod 64)) ""))
   else
     String (b (240 + r / 262144))
       (String (b (128 + (r / 4096) mod 64))
          (String (b (128 + (r / 64) mod 64))
             (String (b (128 + r mod 64)) ""))))%Z.

Definition hexValue (c : ascii) : Z :=
  match assoc c hexDigits with
  | Some v => v
  | None => 0
  end.

(** The number four hexadecimal digits write. *)
Definition codeUnit (a b c d : ascii) : Z :=
  (4096 * hexValue a + 256 * hexValue b + 16 * hexValue c + hexValue d)%Z.

Definition highSurrogate (u : Z) : bool := ((55296 <=? u) && (u <=? 56319))%Z.
Definition lowSurrogate (u : Z) : bool := ((56320 <=? u) && (u <=? 57343))%Z.

(** U+FFFD, the replacement character. *)
Definition replacement : string := utf8Bytes 65533.

(** The text a sequence of characters denotes. A [\u] escape stands for
    the character of that number; a high surrogate and the low surrogate
    that follows it stand for one character beyond U+FFFF; a surrogate on
    its own stands for the replacement character. *)
Fixpoint denote (cs : list Char) : string :=
  match cs with
  | [] => ""
  | Plain c :: r => String c (denote r)
  | Wide w :: r => w ++ denote r
  | Escape e :: r =>
    match assoc e escapes with
    | Some x => String x (denote r)
    | None => denote r
    end
  | Unicode a b c d :: r =>
    let u := codeUnit a b c d in
    let alone :=
      (if highSurrogate u || lowSurrogate u then replacement else utf8Bytes u)
      ++ denote r in
    match r with
    | Unicode a' b' c' d' :: r' =>
      let u' := codeUnit a' b' c' d' in
      if highSurrogate u && lowSurrogate u'
      then utf8Bytes (65536 + (u - 55296) * 1024 + (u' - 56320)) ++ denote r'
      else alone
    | _ => alone
    end
  end.

(** *** Values *)

(** The name of a member of an object, with the white space before it and
    between it and the colon. *)
Record Key : Type := {
  lead : string;
  name : list Char;
  trail : string
}.

(** A document: a value as it is written. [gap] is the white space after
    the opening bracket or brace; [DPad] puts white space around a
    value. *)
Inductive Doc : Type :=
| DNull
| DBool (b : bool)
| DNumber (n : Number)
| DString (cs : list Char)
| DArray (gap : string) (elems : list Doc)
| DObject (gap : string) (members : list (Key * Doc))
| DPad (before : string) (d : Doc) (after : string).

Definition renderString (cs : list Char) : string :=
  String dquote (renderChars cs ++ String dquote "").

Definition renderKey (k : Key) : string :=
  lead k ++ renderString (name k) ++ trail k ++ ":".

Fixpoint render (d : Doc) : string :=
  match d with
  | DNull => "null"
  | DBool b => if b then "true" else "false"
  | DNumber n => renderNumber n
  | DString cs => renderString cs
  | DArray gap elems => "[" ++ gap ++ join "," (map render elems) ++ "]"
  | DObject gap members =>
    "{" ++ gap
    ++ join "," (map (fun m => renderKey (fst m) ++ render (snd m)) members)
    ++ "}"
  | DPad before d after => before ++ render d ++ after
  end.

Definition wellFormedKey (k : Key) : bool :=
  blanks (lead k) && forallb wellFormedChar (name k) && blanks (trail k).

Fixpoint wellFormed (d : Doc) : bool :=
  match d with
  | DNull | DBool _ => true
  | DNumber n => wellFormedNumber n
  | DString cs => forallb wellFormedChar cs
  | DArray gap elems => blanks gap && forallb wellFormed elems
  | DObject gap members =>
    blanks gap
    && forallb (fun m => wellFormedKey (fst m) && wellFormed (snd m)) members
  | DPad before d after => blanks before && wellFormed d && blanks after
  end.

(** The value a document denotes: a string keeps the bytes between its
    quotes beside the text they denote, a number its literal, an object
    its members in the order of the text. *)
Fixpoint valueOf (d : Doc) : JSON :=
  match d with
  | DNull => JNull
  | DBool b => JBool b
  | DNumber n => JNumber (renderNumber n)
  | DString cs => JString (renderChars cs) (denote cs)
  | DArray _ elems => JArray (map valueOf elems)
  | DObject _ members =>
    JObject (map (fun m => (denote (name (fst m)), valueOf (snd m))) members)
  | DPad _ d _ => valueOf d
  end.

(** [text] is a JSON text and denotes the value [j]. *)
Definition Denotes (text : string) (j : JSON) : Prop :=
  exists doc : Doc,
    wellFormed doc = true /\ render doc = text /\ valueOf doc = j.

(** A string of unescaped ASCII, character by character. *)
Fixpoint plainChars (s : string) : list Char :=
  match s with
  | EmptyString => []
  | String c r => Plain c :: plainChars r
  end.

(** *** The scanner reads white space and numbers as the grammar has them *)

Lemma blank_isSpace (c : ascii) : isSpace c = blank c.
Proof. every_byte c; reflexivity. Qed.

Lemma digit_isDigit (c : ascii) : isDigit c = digit c.
Proof. every_byte c; reflexivity. Qed.

Lemma skipSpace_blanks (w s : string) :
  blanks w = true -> skipSpace (w ++ s) = skipSpace s.
Proof.
  induction w as [|c w IH]; intros H; [reflexivity|].
  cbn [blanks] in H. apply andb_true_iff in H. destruct H as [Hc Hw].
  cbn [append skipSpace]. now rewrite blank_isSpace, Hc, IH.
Qed.

(** What may follow a value: nothing, white space, a comma, a closing
    bracket or brace. *)
Definition follow (s : string) : bool :=
  match s with
  | EmptyString => true
  | String c _ => blank c || existsb (Ascii.eqb c) [","; "]"; "}"]%char
  end.

Lemma follow_blanks (w s : string) :
  blanks w = true -> follow s = true -> follow (w ++ s) = true.
Proof.
  destruct w as [|c w]; intros Hw Hs; [exact Hs|].
  cbn [blanks] in Hw. apply andb_true_iff in Hw. destruct Hw as [Hc _].
  cbn [append follow]. now rewrite Hc.
Qed.

(** The text stops a run of digits. *)
Definition stops (s : string) : bool :=
  match s with
  | EmptyString => true
  | String c _ => negb (digit c)
  end.

Lemma spanDigits_app (d rest : string) :
  digits d = true -> stops rest = true -> spanDigits (d ++ rest) = (d, rest).
Proof.
  intros Hd Hrest. induction d as [|c d IH].
  - destruct rest as [|c r]; [reflexivity|].
    cbn [stops] in Hrest. apply negb_true_iff in Hrest.
    cbn [append spanDigits]. now rewrite digit_isDigit, Hrest.
  - cbn [digits] in Hd. apply andb_true_iff in Hd. destruct Hd as [Hc Hd].
    cbn [append spanDigits]. now rewrite digit_isDigit, Hc, (IH Hd).
Qed.

Lemma digits1_app (d rest : string) :
  someDigits d = true -> stops rest = true ->
  digits1 (d ++ rest) = Some (d, rest).
Proof.
  intros Hd Hrest. destruct d as [|c d]; [discriminate Hd|].
  unfold digits1. now rewrite (spanDigits_app _ _ Hd Hrest).
Qed.

Lemma follow_cases (s : string) :
  follow s = true ->
  s = ""
  \/ exists c r, s = String c r
       /\ In c [" "; "009"; "010"; "013"; ","; "]"; "}"]%char.
Proof.
  destruct s as [|c r]; [now left|]. intros H. right. exists c, r.
  split; [reflexivity|]. revert H. cbn [follow].
  every_byte c; cbn; intros H; try discriminate H; auto 10.
Qed.

(** The heads that a value's follower never is. *)
Ltac follower rest H :=
  destruct (follow_cases rest H)
    as [-> | (? & ? & -> & [<-|[<-|[<-|[<-|[<-|[<-|[<-|[]]]]]]]])].

Lemma digit_head (c : ascii) :
  digit c = true ->
  Ascii.eqb "-" c = false /\ Ascii.eqb "." c = false
  /\ Ascii.eqb "e" c = false /\ Ascii.eqb "E" c = false
  /\ Ascii.eqb "+" c = false /\ isSpace c = false
  /\ Ascii.eqb c "{" = false /\ Ascii.eqb c "[" = false
  /\ Ascii.eqb c dquote = false.
Proof. every_byte c; intros H; try discriminate H; repeat split. Qed.

(** Tests of one given byte against another, decided. *)
Ltac eqb_concrete :=
  repeat match goal with
  | |- context [Ascii.eqb (Ascii ?a0 ?a1 ?a2 ?a3 ?a4 ?a5 ?a6 ?a7)
                          (Ascii ?b0 ?b1 ?b2 ?b3 ?b4 ?b5 ?b6 ?b7)] =>
    let t := constr:(Ascii.eqb (Ascii a0 a1 a2 a3 a4 a5 a6 a7)
                               (Ascii b0 b1 b2 b3 b4 b5 b6 b7)) in
    let v := eval vm_compute in t in
    change t with v
  end.

Lemma append_empty (s : string) : s ++ "" = s.
Proof. induction s as [|c s IH]; cbn; [reflexivity | now rewrite IH]. Qed.

Definition renderFrac (f : option string) : string :=
  match f with
  | Some d => "." ++ d
  | None => ""
  end.

Definition renderExp (e : option Exponent) : string :=
  match e with
  | Some e => renderExponent e
  | None => ""
  end.

(** The exponent, or its absence, before what follows the number. *)
Lemma scan_exponent (e : option Exponent) (rest : string) :
  match e with Some e => wellFormedExponent e | None => true end = true ->
  follow rest = true ->
  stops (renderExp e ++ rest) = true
  /\ startsWith "." (renderExp e ++ rest) = None
  /\ forall lit : string,
       match
         match startsWith "e" (renderExp e ++ rest),
               startsWith "E" (renderExp e ++ rest) with
         | Some r, _ => Some ("e", r)
         | None, Some r => Some ("E", r)
         | None, None => None
         end
       with
       | None => Some (lit, renderExp e ++ rest)
       | Some (m, r) =>
         let (esign, r1) :=
           match startsWith "+" r, startsWith "-" r with
           | Some r', _ => ("+", r')
           | None, Some r' => ("-", r')
           | None, None => ("", r)
           end in
         match digits1 r1 with
         | Some (d, r2) => Some (lit ++ m ++ esign ++ d, r2)
         | None => None
         end
       end = Some (lit ++ renderExp e, rest).
Proof.
  intros Hwf Hrest.
  assert (Hstops : stops rest = true) by (follower rest Hrest; reflexivity).
  destruct e as [[m sg p]|]; cbn [renderExp renderExponent mark sign power].
  - unfold wellFormedExponent in Hwf. cbn [mark sign power] in Hwf.
    apply andb_true_iff in Hwf. destruct Hwf as [Hwf Hp].
    apply andb_true_iff in Hwf. destruct Hwf as [Hm Hs].
    assert (Hd : digits1 (p ++ rest) = Some (p, rest))
      by now apply digits1_app.
    destruct p as [|p0 p]; [discriminate Hp|].
    cbn [someDigits digits] in Hp. apply andb_true_iff in Hp.
    destruct Hp as [Hp0 Hp]. destruct (digit_head p0 Hp0) as (Hminus & _ & _ & _ & Hplus & _).
    cbn in Hm. rewrite !orb_false_r in Hm. apply orb_true_iff in Hm.
    cbn in Hs. rewrite !orb_false_r in Hs.
    apply orb_true_iff in Hs. rewrite orb_true_iff in Hs.
    destruct Hm as [Hm|Hm]; apply Ascii.eqb_eq in Hm; subst m;
      (destruct Hs as [Hs|[Hs|Hs]]; apply String.eqb_eq in Hs; subst sg);
      (split; [reflexivity|]); (split; [reflexivity|]); intros lit;
      unfold renderExponent; cbn [mark sign power];
      repeat (cbn [append startsWith]; rewrite ?Hminus, ?Hplus; eqb_concrete);
      change (String p0 (p ++ rest)) with (String p0 p ++ rest);
      rewrite Hd; reflexivity.
  - cbn [append]. split; [exact Hstops|].
    follower rest Hrest; (split; [reflexivity|]); intros lit; cbn;
      now rewrite append_empty.
Qed.

(** The fraction, or its absence, before the exponent. *)
Lemma scan_fraction (f : option string) (tail : string) :
  match f with Some d => someDigits d | None => true end = true ->
  stops tail = true ->
  startsWith "." tail = None ->
  stops (renderFrac f ++ tail) = true
  /\ match startsWith "." (renderFrac f ++ tail) with
     | Some r =>
       match digits1 r with
       | Some (d, r') => Some ("." ++ d, r')
       | None => None
       end
     | None => Some ("", renderFrac f ++ tail)
     end = Some (renderFrac f, tail).
Proof.
  intros Hwf Hstops Hdot. destruct f as [d|]; cbn [renderFrac].
  - split; [reflexivity|].
    cbn [append startsWith Ascii.eqb Bool.eqb].
    now rewrite (digits1_app _ _ Hwf Hstops).
  - cbn [append]. split; [exact Hstops|]. now rewrite Hdot.
Qed.

Lemma scanNumber_render (n : Number) (rest : string) :
  wellFormedNumber n = true -> follow rest = true ->
  scanNumber (renderNumber n ++ rest) = Some (renderNumber n, rest).
Proof.
  intros Hwf Hrest. destruct n as [m i f e].
  unfold wellFormedNumber in Hwf. cbn [minus int frac exp] in Hwf.
  apply andb_true_iff in Hwf. destruct Hwf as [Hwf He].
  apply andb_true_iff in Hwf. destruct Hwf as [Hi Hf].
  destruct (scan_exponent e rest He Hrest) as (Estops & Edot & Eexp).
  destruct (scan_fraction f _ Hf Estops Edot) as (Fstops & Ffrac).
  unfold renderNumber. cbn [minus int frac exp].
  fold (renderFrac f). fold (renderExp e). rewrite !append_assoc.
  remember (renderExp e ++ rest) as etail eqn:Eetail.
  remember (renderFrac f ++ etail) as tail eqn:Etail.
  assert (Hint : startsWith "-" (i ++ tail) = None
                 /\ match startsWith "0" (i ++ tail) with
                    | Some r => Some ("0", r)
                    | None => digits1 (i ++ tail)
                    end = Some (i, tail)).
  { destruct i as [|i0 i]; [discriminate Hi|].
    assert (Hi0 : digit i0 = true).
    { destruct i as [|i1 i].
      - revert Hi. every_byte i0; intros H; try discriminate H; reflexivity.
      - assert (H : digits (String i0 (String i1 i)) = true).
        { revert Hi. every_byte i0; intros H; try discriminate H; exact H. }
        cbn [digits] in H. apply andb_true_iff in H. exact (proj1 H). }
    destruct (digit_head i0 Hi0) as (Hminus & _).
    cbn [append startsWith]. rewrite Hminus. split; [reflexivity|].
    destruct (Ascii.eqb "0" i0) eqn:E0.
    - apply Ascii.eqb_eq in E0. subst i0.
      destruct i as [|i1 i]; [reflexivity | discriminate Hi].
    - change (String i0 (i ++ tail)) with (String i0 i ++ tail).
      apply digits1_app; [|exact Fstops].
      revert Hi E0. every_byte i0; intros H E; try discriminate H;
        try discriminate E; exact H. }
  destruct Hint as [Hminus Hint].
  assert (Hbody : forall sg : string,
            match
              match startsWith "0" (i ++ tail) with
              | Some r => Some ("0", r)
              | None => digits1 (i ++ tail)
              end
            with
            | None => None
            | Some (i', s2) =>
              match
                match startsWith "." s2 with
                | Some r =>
                  match digits1 r with
                  | Some (d, r') => Some ("." ++ d, r')
                  | None => None
                  end
                | None => Some ("", s2)
                end
              with
              | None => None
              | Some (f', s3) =>
                match
                  match startsWith "e" s3, startsWith "E" s3 with
                  | Some r, _ => Some ("e", r)
                  | None, Some r => Some ("E", r)
                  | None, None => None
                  end
                with
                | None => Some (sg ++ i' ++ f', s3)
                | Some (e', r) =>
                  let (esign, r1) :=
                    match startsWith "+" r, startsWith "-" r with
                    | Some r', _ => ("+", r')
                    | None, Some r' => ("-", r')
                    | None, None => ("", r)
                    end in
                  match digits1 r1 with
                  | Some (d, r2) =>
                    Some (sg ++ i' ++ f' ++ e' ++ esign ++ d, r2)
                  | None => None
                  end
                end
              end
            end = Some (sg ++ i ++ renderFrac f ++ renderExp e, rest)).
  { intros sg. rewrite Hint, Ffrac.
    specialize (Eexp (sg ++ i ++ renderFrac f)).
    rewrite !append_assoc in Eexp. rewrite <- Eexp. clear Eexp.
    destruct (startsWith "e" etail) as [r|];
      [|destruct (startsWith "E" etail) as [r|]]; try reflexivity;
      (destruct (startsWith "+" r) as [r'|];
       [|destruct (startsWith "-" r) as [r'|]]);
      match goal with
      | |- context [digits1 ?x] => destruct (digits1 x) as [[d r2]|]
      end; try reflexivity; now rewrite !append_assoc. }
  unfold scanNumber. destruct m.
  - cbn [append startsWith]. eqb_concrete. cbv iota zeta beta.
    exact (Hbody "-").
  - cbn [append]. rewrite Hminus. cbv iota zeta beta.
    exact (Hbody "").
Qed.

(** *** [unquote] reads a string literal as the grammar has it *)

Ltac ztrue :=
  repeat match goal with
  | H : _ && _ = true |- _ => apply andb_true_iff in H; destruct H
  | H : _ || _ = true |- _ => apply orb_true_iff in H; destruct H
  | H : inRange _ _ _ = true |- _ => unfold inRange in H
  | H : (_ <=? _)%Z = true |- _ => apply Z.leb_le in H
  end.

Ltac zcond :=
  unfold between, utf8.cont, between;
  repeat match goal with
  | |- context [(?a <=? ?b)%Z] =>
    first [ replace (a <=? b)%Z with true by (symmetry; apply Z.leb_le; lia)
          | replace (a <=? b)%Z with false by (symmetry; apply Z.leb_gt; lia) ]
  | |- context [(?a <? ?b)%Z] =>
    first [ replace (a <? b)%Z with true by (symmetry; apply Z.ltb_lt; lia)
          | replace (a <? b)%Z with false by (symmetry; apply Z.ltb_ge; lia) ]
  | |- context [(?a =? ?b)%Z] =>
    first [ replace (a =? b)%Z with true by (symmetry; apply Z.eqb_eq; lia)
          | replace (a =? b)%Z with false by (symmetry; apply Z.eqb_neq; lia) ]
  end; cbn [andb orb].

(** A well-formed sequence is what the decoder takes for one rune, whatever
    follows it, and all its bytes are above 127. *)
Lemma wellFormedUTF8_decodes (w : string) :
  wellFormedUTF8 w = true ->
  2 <= String.length w
  /\ allHigh w = true
  /\ forall t : string,
       snd (utf8.DecodeRuneInString (w ++ t)) = String.length w.
Proof.
  destruct w as [|a [|b [|c [|d [|x w]]]]]; try discriminate;
    unfold wellFormedUTF8; intros H; ztrue;
    (split; [cbn; lia|]);
    (split;
     [ cbn [allHigh]; zcond; reflexivity
     | intros t; cbn [append]; unfold utf8.DecodeRuneInString; cbv zeta;
       zcond; reflexivity ]).
Qed.

Lemma plain_tests (c : ascii) :
  inRange 32 127 c && negb (Ascii.eqb c dquote) && negb (Ascii.eqb c backslash)
  = true ->
  Ascii.eqb c dquote = false /\ Ascii.eqb c backslash = false
  /\ (byte_of c <? 32)%Z = false /\ (byte_of c <? 128)%Z = true.
Proof. every_byte c; intros H; try discriminate H; repeat split. Qed.

Lemma hex_tests (c : ascii) :
  present (assoc c hexDigits) = true ->
  Ascii.eqb c dquote = false /\ Ascii.eqb c backslash = false
  /\ hexval c = Some (hexValue c).
Proof. every_byte c; intros H; try discriminate H; repeat split. Qed.

Lemma scanString_render (cs : list Char) :
  forallb wellFormedChar cs = true ->
  forall t : string,
  scanString (renderChars cs ++ String dquote t) = Some (renderChars cs, t).
Proof.
  induction cs as [|c cs IH]; intros H t; [reflexivity|].
  cbn [forallb] in H. apply andb_true_iff in H. destruct H as [Hc Hcs].
  specialize (IH Hcs t). cbn [renderChars]. rewrite append_assoc.
  destruct c as [c|w|e|a b c d]; cbn [wellFormedChar renderChar] in *.
  - destruct (plain_tests c Hc) as (Hq & Hb & _).
    cbn [append scanString]. now rewrite Hq, Hb, IH.
  - destruct (wellFormedUTF8_decodes w Hc) as (_ & Hhigh & _).
    now rewrite (scanString_high w _ Hhigh), IH.
  - cbn [append scanString]. eqb_concrete. now rewrite IH.
  - apply andb_true_iff in Hc. destruct Hc as [Hc Hd].
    apply andb_true_iff in Hc. destruct Hc as [Hc Hc'].
    apply andb_true_iff in Hc. destruct Hc as [Ha Hb].
    destruct (hex_tests a Ha) as (Qa & Ba & _), (hex_tests b Hb) as (Qb & Bb & _),
      (hex_tests c Hc') as (Qc & Bc & _), (hex_tests d Hd) as (Qd & Bd & _).
    cbn [append scanString]. eqb_concrete.
    now rewrite Qa, Ba, Qb, Bb, Qc, Bc, Qd, Bd, IH.
Qed.

(** [EncodeRune] writes the bytes of RFC 3629. *)
Lemma lor_high (h k y : Z) :
  (0 <= k)%Z -> (0 <= y < 2 ^ k)%Z -> Z.lor (h * 2 ^ k) y = (h * 2 ^ k + y)%Z.
Proof.
  intros Hk Hy. rewrite <- (lor_shiftl h y k Hk Hy).
  now rewrite Z.shiftl_mul_pow2.
Qed.

Lemma lor_128 (y : Z) : (0 <= y < 64)%Z -> Z.lor 128 y = (128 + y)%Z.
Proof. intros H. now apply (lor_high 2 6). Qed.

Lemma lor_192 (y : Z) : (0 <= y < 64)%Z -> Z.lor 192 y = (192 + y)%Z.
Proof. intros H. now apply (lor_high 3 6). Qed.

Lemma lor_224 (y : Z) : (0 <= y < 16)%Z -> Z.lor 224 y = (224 + y)%Z.
Proof. intros H. now apply (lor_high 14 4). Qed.

Lemma lor_240 (y : Z) : (0 <= y < 8)%Z -> Z.lor 240 y = (240 + y)%Z.
Proof. intros H. now apply (lor_high 30 3). Qed.

Lemma EncodeRune_utf8Bytes (r : Z) :
  (0 <= r <= 1114111)%Z -> utf8.isSurrogate r = false ->
  utf8.EncodeRune r = utf8Bytes r.
Proof.
  intros Hr Hs. unfold utf8.EncodeRune, utf8Bytes. cbv zeta. rewrite Hs.
  replace (r <? 0)%Z with false by (symmetry; apply Z.ltb_ge; lia).
  replace (1114111 <? r)%Z with false by (symmetry; apply Z.ltb_ge; lia).
  cbn [orb]. rewrite !Z.shiftr_div_pow2, !land_63 by lia.
  change (2 ^ 0)%Z with 1%Z. change (2 ^ 6)%Z with 64%Z.
  change (2 ^ 12)%Z with 4096%Z. change (2 ^ 18)%Z with 262144%Z.
  rewrite Z.div_1_r.
  rewrite !lor_128 by (Z.div_mod_to_equations; lia).
  destruct (r <? 128)%Z eqn:E1; [reflexivity|].
  apply Z.ltb_ge in E1.
  destruct (r <? 2048)%Z eqn:E2.
  { apply Z.ltb_lt in E2.
    rewrite lor_192 by (Z.div_mod_to_equations; lia). reflexivity. }
  apply Z.ltb_ge in E2.
  destruct (r <? 65536)%Z eqn:E3.
  { apply Z.ltb_lt in E3.
    rewrite lor_224 by (Z.div_mod_to_equations; lia). reflexivity. }
  apply Z.ltb_ge in E3.
  rewrite lor_240 by (Z.div_mod_to_equations; lia). reflexivity.
Qed.

Lemma hexValue_range (c : ascii) :
  present (assoc c hexDigits) = true -> (0 <= hexValue c < 16)%Z.
Proof. every_byte c; intros H; try discriminate H; cbn; lia. Qed.

Definition hex4 (a b c d : ascii) : bool :=
  present (assoc a hexDigits) && present (assoc b hexDigits)
  && present (assoc c hexDigits) && present (assoc d hexDigits).

Lemma getu4_render (a b c d : ascii) (rest : string) :
  hex4 a b c d = true ->
  getu4 (String a (String b (String c (String d rest))))
  = Some (codeUnit a b c d)
  /\ (0 <= codeUnit a b c d < 65536)%Z.
Proof.
  unfold hex4. intros H.
  apply andb_true_iff in H. destruct H as [H Hd].
  apply andb_true_iff in H. destruct H as [H Hc].
  apply andb_true_iff in H. destruct H as [Ha Hb].
  destruct (hex_tests a Ha) as (_ & _ & Ea), (hex_tests b Hb) as (_ & _ & Eb),
    (hex_tests c Hc) as (_ & _ & Ec), (hex_tests d Hd) as (_ & _ & Ed).
  pose proof (hexValue_range a Ha). pose proof (hexValue_range b Hb).
  pose proof (hexValue_range c Hc). pose proof (hexValue_range d Hd).
  unfold getu4, codeUnit. rewrite Ea, Eb, Ec, Ed.
  split; [f_equal; lia | lia].
Qed.

Lemma unquote_escape (e x : ascii) (n : nat) (r : string) :
  assoc e escapes = Some x ->
  unquote_fuel (S n) (String backslash (String e r))
  = option_map (String x) (unquote_fuel n r).
Proof.
  every_byte e; cbn [assoc escapes Ascii.eqb Bool.eqb dquote backslash];
    intros H; try discriminate H; injection H as <-; reflexivity.
Qed.

(** The code unit of the [\u] escape a text starts with, which [unquote]
    looks for after a surrogate. *)
Definition lowAfter (s : string) : option Z :=
  match s with
  | String "092" (String "u" r5) => getu4 r5
  | _ => None
  end.

Lemma lowAfter_escape (e : ascii) (r : string) :
  present (assoc e escapes) = true ->
  lowAfter (String backslash (String e r)) = None.
Proof. every_byte e; intros H; try discriminate H; reflexivity. Qed.

Lemma lowAfter_unicode (r : string) :
  lowAfter (String backslash (String "u" r)) = getu4 r.
Proof. reflexivity. Qed.

Lemma lowAfter_other (c : ascii) (r : string) :
  Ascii.eqb c backslash = false -> lowAfter (String c r) = None.
Proof. every_byte c; intros H; try discriminate H; reflexivity. Qed.

(** The step of [unquote] at a [\u] escape. *)
Lemma unquote_unicode (n : nat) (r' : string) :
  unquote_fuel (S n) (String backslash (String "u" r'))
  = match getu4 r' with
    | None => None
    | Some rr =>
      if utf8.isSurrogate rr then
        match lowAfter (drop 4 r') with
        | Some rr1 =>
          if between 55296 56319 rr && between 56320 57343 rr1 then
            option_map
              (append (utf8.EncodeRune
                 (Z.shiftl (rr - 55296) 10 + (rr1 - 56320) + 65536)%Z))
              (unquote_fuel n (drop 6 (drop 4 r')))
          else
            option_map (append (utf8.EncodeRune utf8.RuneError))
              (unquote_fuel n (drop 4 r'))
        | None =>
          option_map (append (utf8.EncodeRune utf8.RuneError))
            (unquote_fuel n (drop 4 r'))
        end
      else option_map (append (utf8.EncodeRune rr)) (unquote_fuel n (drop 4 r'))
    end.
Proof. reflexivity. Qed.

Lemma surrogate_cases (u : Z) :
  utf8.isSurrogate u = highSurrogate u || lowSurrogate u.
Proof.
  unfold utf8.isSurrogate, between, highSurrogate, lowSurrogate.
  destruct (55296 <=? u)%Z eqn:E1, (u <=? 57343)%Z eqn:E2,
    (u <=? 56319)%Z eqn:E3, (56320 <=? u)%Z eqn:E4; try reflexivity;
    exfalso;
    repeat match goal with
    | H : (_ <=? _)%Z = true |- _ => apply Z.leb_le in H
    | H : (_ <=? _)%Z = false |- _ => apply Z.leb_gt in H
    end; lia.
Qed.

Lemma replacement_bytes : utf8.EncodeRune utf8.RuneError = replacement.
Proof. reflexivity. Qed.

Lemma renderChars_length_pos (c : Char) (cs : list Char) :
  wellFormedChar c = true ->
  exists x r, renderChar c ++ renderChars cs = String x r
    /\ String.length (renderChars cs) <= String.length r.
Proof.
  destruct c as [c|w|e|a b c d]; cbn [wellFormedChar renderChar]; intros H.
  - eexists _, _. split; [reflexivity | cbn; lia].
  - destruct (wellFormedUTF8_decodes w H) as (Hlen & _).
    destruct w as [|x w]; [cbn in Hlen; lia|].
    exists x, (w ++ renderChars cs). split; [reflexivity|].
    rewrite append_length. lia.
  - eexists _, _. split; [reflexivity | cbn; lia].
  - eexists _, _. split; [reflexivity | cbn; lia].
Qed.

Lemma unquote_render (n : nat) :
  forall cs : list Char,
  length cs <= n ->
  forallb wellFormedChar cs = true ->
  forall m : nat,
  String.length (renderChars cs) <= m ->
  unquote_fuel m (renderChars cs) = Some (denote cs).
Proof.
  induction n as [|n IH]; intros cs Hn Hwf m Hm.
  - destruct cs; [|cbn in Hn; lia]. now destruct m.
  - destruct cs as [|c cs]; [now destruct m|].
    cbn [length] in Hn. cbn [forallb] in Hwf.
    apply andb_true_iff in Hwf. destruct Hwf as [Hc Hcs].
    pose proof (IH cs ltac:(lia) Hcs) as IHcs.
    cbn [renderChars] in Hm |- *.
    destruct c as [c|w|e|a b c d]; cbn [wellFormedChar renderChar] in *.
    + destruct (plain_tests c Hc) as (Hq & Hb & H32 & H128).
      cbn [append String.length] in Hm |- *.
      destruct m as [|m]; [lia|]. cbn [unquote_fuel denote].
      rewrite Hb, Hq, H32, H128, IHcs by lia. reflexivity.
    + destruct (wellFormedUTF8_decodes w Hc) as (Hlen & Hhigh & Hdec).
      rewrite append_length in Hm.
      destruct m as [|m]; [lia|].
      destruct w as [|c0 w']; [cbn in Hlen; lia|].
      pose proof Hhigh as Hhigh'.
      cbn [allHigh] in Hhigh'. apply andb_true_iff in Hhigh'.
      destruct Hhigh' as [Hc0 _]. apply negb_true_iff in Hc0.
      destruct (high_tests c0 Hc0) as (Hb & Hq & Hlow).
      cbn [append unquote_fuel denote]. rewrite Hb, Hq, Hlow, Hc0.
      change (String c0 (w' ++ renderChars cs))
        with (String c0 w' ++ renderChars cs).
      specialize (Hdec (renderChars cs)).
      destruct (utf8.DecodeRuneInString (String c0 w' ++ renderChars cs))
        as [r size]. cbn [snd] in Hdec. subst size.
      cbn [String.length] in Hlen |- *.
      destruct (String.length w') as [|k] eqn:Ek; [lia|].
      change (S (S k)) with (S (S k)) at 1.
      rewrite <- Ek.
      change (S (String.length w')) with (String.length (String c0 w')).
      rewrite take_app, drop_app, IHcs by (cbn [String.length] in Hm; lia).
      reflexivity.
    + destruct (assoc e escapes) as [x|] eqn:Ex; [|discriminate Hc].
      cbn [append String.length] in Hm |- *.
      destruct m as [|m]; [lia|].
      rewrite (unquote_escape e x m _ Ex), IHcs by lia.
      cbn [denote]. now rewrite Ex.
    + fold (hex4 a b c d) in Hc.
      cbn [append String.length] in Hm |- *.
      destruct m as [|m]; [lia|].
      rewrite unquote_unicode.
      destruct (getu4_render a b c d (renderChars cs) Hc) as [-> Hrange].
      cbn [drop]. rewrite replacement_bytes, surrogate_cases.
      cbn [denote]. cbv zeta.
      set (u := codeUnit a b c d) in *.
      destruct (highSurrogate u || lowSurrogate u) eqn:Hsur.
      * (* a surrogate: alone, or the first half of a pair *)
        destruct cs as [|c' cs'].
        { cbn [renderChars]. destruct m; reflexivity. }
        cbn [forallb] in Hcs. apply andb_true_iff in Hcs.
        destruct Hcs as [Hc' Hcs'].
        destruct c' as [c'|w'|e'|a' b' c' d'];
          cbn [wellFormedChar renderChars renderChar] in *.
        -- destruct (plain_tests c' Hc') as (_ & Hb' & _).
           cbn [append]. rewrite (lowAfter_other c' _ Hb').
           rewrite IHcs by (cbn [append String.length] in *; lia).
           reflexivity.
        -- destruct (wellFormedUTF8_decodes w' Hc') as (Hlen' & Hhigh' & _).
           destruct w' as [|c0 w'']; [cbn in Hlen'; lia|].
           cbn [allHigh] in Hhigh'. apply andb_true_iff in Hhigh'.
           destruct Hhigh' as [Hc0 _]. apply negb_true_iff in Hc0.
           destruct (high_tests c0 Hc0) as (Hb' & _).
           cbn [append]. rewrite (lowAfter_other c0 _ Hb').
           rewrite IHcs by (cbn [append String.length] in *; lia).
           reflexivity.
        -- cbn [append]. rewrite (lowAfter_escape e' _ Hc').
           rewrite IHcs by (cbn [append String.length] in *; lia).
           reflexivity.
        -- fold (hex4 a' b' c' d') in Hc'.
           cbn [append].
           rewrite lowAfter_unicode.
           destruct (getu4_render a' b' c' d' (renderChars cs') Hc')
             as [-> Hrange'].
           set (u' := codeUnit a' b' c' d') in *.
           change (between 55296 56319 u) with (highSurrogate u).
           change (between 56320 57343 u') with (lowSurrogate u').
           destruct (highSurrogate u && lowSurrogate u') eqn:Hpair.
           ++ cbn [drop].
              rewrite (IH cs' ltac:(cbn [length] in Hn; lia) Hcs')
                by (cbn [append String.length] in Hm; lia).
              cbn [option_map]. f_equal. f_equal.
              apply andb_true_iff in Hpair. destruct Hpair as [Hh Hl].
              unfold highSurrogate, lowSurrogate in Hh, Hl.
              apply andb_true_iff in Hh, Hl.
              destruct Hh as [Hh1 Hh2], Hl as [Hl1 Hl2].
              apply Z.leb_le in Hh1, Hh2, Hl1, Hl2.
              rewrite Z.shiftl_mul_pow2 by lia.
              change (2 ^ 10)%Z with 1024%Z.
              replace ((u - 55296) * 1024 + (u' - 56320) + 65536)%Z
                with (65536 + (u - 55296) * 1024 + (u' - 56320))%Z by lia.
              apply EncodeRune_utf8Bytes; [lia|].
              unfold utf8.isSurrogate, between.
              replace (65536 + (u - 55296) * 1024 + (u' - 56320) <=? 57343)%Z
                with false by (symmetry; apply Z.leb_gt; lia).
              apply andb_false_r.
           ++ rewrite IHcs by (cbn [append String.length] in *; lia).
              reflexivity.
      * rewrite IHcs by lia. cbn [option_map].
        rewrite (EncodeRune_utf8Bytes u) by
          (try lia; now rewrite surrogate_cases).
        destruct cs as [|[ | | |a' b' c' d'] cs']; try reflexivity.
        apply orb_false_iff in Hsur. destruct Hsur as [-> _]. reflexivity.
Qed.

(** *** The scanner reads a document as the value it denotes *)

(** The text scans to the value [j] before anything that may follow a
    value, with any fuel from [d] on; white space after the value may be
    left for the caller to skip. *)
Definition Reads (d : nat) (text : string) (j : JSON) : Prop :=
  forall (n : nat) (rest : string),
  d <= n -> follow rest = true ->
  exists rest' : string,
    value n (text ++ rest) = Some (j, rest')
    /\ skipSpace rest' = skipSpace rest.

Lemma Reads_more (d d' : nat) (text : string) (j : JSON) :
  d <= d' -> Reads d text j -> Reads d' text j.
Proof. intros Hle H n rest Hn. apply H. lia. Qed.

Lemma value_skip (n : nat) (w s : string) :
  blanks w = true -> value n (w ++ s) = value n s.
Proof.
  intros Hw. destruct n as [|n]; [reflexivity|].
  cbn [value]. now rewrite (skipSpace_blanks w s Hw).
Qed.

Lemma elements_skip (n : nat) (w s : string) (acc : list JSON) :
  blanks w = true -> elements n (w ++ s) acc = elements n s acc.
Proof.
  intros Hw. destruct n as [|n]; [reflexivity|].
  cbn [elements]. now rewrite (value_skip n w s Hw).
Qed.

Lemma members_skip (n : nat) (w s : string) (acc : list (string * JSON)) :
  blanks w = true -> members n (w ++ s) acc = members n s acc.
Proof.
  intros Hw. destruct n as [|n]; [reflexivity|].
  cbn [members]. now rewrite (skipSpace_blanks w s Hw).
Qed.

Lemma Reads_pad (d : nat) (before text after : string) (j : JSON) :
  blanks before = true -> blanks after = true ->
  Reads d text j -> Reads d (before ++ text ++ after) j.
Proof.
  intros Hb Ha H n rest Hn Hrest.
  rewrite !append_assoc, (value_skip n before _ Hb).
  destruct (H n (after ++ rest) Hn (follow_blanks _ _ Ha Hrest))
    as (rest' & Hv & Hs).
  exists rest'. split; [exact Hv|].
  now rewrite Hs, (skipSpace_blanks _ _ Ha).
Qed.

Lemma Reads_null : Reads 1 "null" JNull.
Proof. intros [|n] rest Hn _; [lia|]. now exists rest. Qed.

Lemma Reads_bool (b : bool) : Reads 1 (if b then "true" else "false") (JBool b).
Proof. intros [|n] rest Hn _; [lia|]. exists rest. now destruct b. Qed.

Lemma number_head (n : Number) (rest : string) :
  wellFormedNumber n = true ->
  exists c r, renderNumber n ++ rest = String c r
    /\ (c = "-"%char \/ digit c = true).
Proof.
  intros Hwf. destruct n as [m i f e]. unfold renderNumber.
  cbn [minus int frac exp]. destruct m.
  - eexists _, _. split; [reflexivity | now left].
  - unfold wellFormedNumber in Hwf. cbn [minus int frac exp] in Hwf.
    apply andb_true_iff in Hwf. destruct Hwf as [Hwf _].
    apply andb_true_iff in Hwf. destruct Hwf as [Hi _].
    destruct i as [|i0 i]; [discriminate Hi|].
    exists i0. eexists. split; [reflexivity|]. right.
    destruct i as [|i1 i].
    + revert Hi. every_byte i0; intros H; try discriminate H; reflexivity.
    + assert (H : digits (String i0 (String i1 i)) = true).
      { revert Hi. every_byte i0; intros H; try discriminate H; exact H. }
      cbn [digits] in H. apply andb_true_iff in H. exact (proj1 H).
Qed.

Lemma Reads_number (n : Number) :
  wellFormedNumber n = true ->
  Reads 1 (renderNumber n) (JNumber (renderNumber n)).
Proof.
  intros Hwf [|k] rest Hk Hrest; [lia|]. exists rest. split; [|reflexivity].
  pose proof (scanNumber_render n rest Hwf Hrest) as Hscan.
  destruct (number_head n rest Hwf) as (c & r & E & Hc).
  rewrite E in Hscan |- *. cbn [value].
  assert (Hhead : isSpace c = false /\ Ascii.eqb c "{" = false
                  /\ Ascii.eqb c "[" = false /\ Ascii.eqb c dquote = false
                  /\ Ascii.eqb c "-" || isDigit c = true).
  { destruct Hc as [-> | Hc]; [repeat split|].
    destruct (digit_head c Hc) as (_ & _ & _ & _ & _ & Hs & Ho & Ha & Hq).
    repeat split; try assumption.
    rewrite digit_isDigit, Hc. apply orb_true_r. }
  destruct Hhead as (Hs & Ho & Ha & Hq & Hd).
  cbn [skipSpace]. rewrite Hs, Ho, Ha, Hq, Hd, Hscan. reflexivity.
Qed.

Lemma unquote_chars (cs : list Char) :
  forallb wellFormedChar cs = true ->
  unquote (renderChars cs) = Some (denote cs).
Proof.
  intros H. apply (unquote_render (length cs) cs (le_n _) H), le_n.
Qed.

Lemma Reads_string (cs : list Char) :
  forallb wellFormedChar cs = true ->
  Reads 1 (renderString cs) (JString (renderChars cs) (denote cs)).
Proof.
  intros Hwf [|n] rest Hn _; [lia|]. exists rest. split; [|reflexivity].
  unfold renderString. cbn [append value skipSpace isSpace dquote].
  change "034"%char with dquote. eqb_concrete.
  rewrite append_assoc. cbn [append].
  now rewrite (scanString_render cs Hwf rest), (unquote_chars cs Hwf).
Qed.

(** A text that scans to a value starts, after white space, with no
    closing bracket and no closing brace. *)
Lemma Reads_not_closing (d : nat) (text : string) (j : JSON) (tail : string) :
  Reads d text j -> follow tail = true ->
  startsWith "]" (skipSpace (text ++ tail)) = None
  /\ startsWith "}" (skipSpace (text ++ tail)) = None.
Proof.
  intros H Htail.
  destruct (H (S d) tail ltac:(lia) Htail) as (rest' & Hv & _).
  cbn [value] in Hv.
  destruct (skipSpace (text ++ tail)) as [|c r]; [now split|].
  cbn [startsWith].
  destruct (Ascii.eqb "]" c) eqn:E1;
    [apply Ascii.eqb_eq in E1; subst c; discriminate Hv|].
  destruct (Ascii.eqb "}" c) eqn:E2;
    [apply Ascii.eqb_eq in E2; subst c; discriminate Hv|].
  now split.
Qed.

Lemma elements_read (d : nat) (texts : list string) (js : list JSON) :
  Forall2 (Reads d) texts js ->
  texts <> [] ->
  forall (n : nat) (acc : list JSON) (rest : string),
  d + length texts <= n ->
  elements n (join "," texts ++ String "]" rest) acc
  = Some (JArray (rev acc ++ js)%list, rest).
Proof.
  induction 1 as [|text j texts js Hj Hrest IH]; intros Hne n acc rest Hn;
    [contradiction|].
  destruct n as [|n]; [cbn in Hn; lia|]. cbn [length] in Hn.
  destruct texts as [|text' texts].
  - inversion Hrest; subst. cbn [join elements].
    destruct (Hj n (String "]" rest) ltac:(lia) eq_refl) as (rest' & -> & Hs).
    rewrite Hs. reflexivity.
  - rewrite join_cons, !append_assoc. cbn [elements].
    destruct (Hj n (String "," (join "," (text' :: texts) ++ String "]" rest))
                ltac:(lia) eq_refl) as (rest' & Hv & Hs).
    cbn [append]. rewrite Hv, Hs.
    cbn [skipSpace isSpace]. eqb_concrete.
    rewrite IH by (try discriminate; cbn [length] in *; lia).
    cbn [rev]. now rewrite <- app_assoc.
Qed.

Lemma Reads_array (d : nat) (gap : string) (texts : list string)
  (js : list JSON) :
  blanks gap = true ->
  Forall2 (Reads d) texts js ->
  Reads (S (d + length texts)) ("[" ++ gap ++ join "," texts ++ "]") (JArray js).
Proof.
  intros Hgap H [|n] rest Hn _; [lia|]. exists rest. split; [|reflexivity].
  rewrite !append_assoc.
  cbn [append value skipSpace isSpace]. eqb_concrete.
  rewrite (skipSpace_blanks gap _ Hgap).
  destruct texts as [|text texts].
  - inversion H; subst. reflexivity.
  - assert (Hopen : startsWith "]"
              (skipSpace (join "," (text :: texts) ++ String "]" rest)) = None).
    { inversion H as [|? j ? js' Hj Hrest]; subst.
      destruct texts as [|text' texts].
      - apply (Reads_not_closing d text j _ Hj). reflexivity.
      - rewrite join_cons, append_assoc.
        apply (Reads_not_closing d text j _ Hj). reflexivity. }
    cbn [append] in Hopen |- *. rewrite Hopen.
    rewrite (elements_skip n gap _ [] Hgap).
    apply (elements_read d (text :: texts) js H ltac:(discriminate) n [] rest).
    cbn [length] in *. lia.
Qed.

(** A member as it is written, its name and the text of its value, against
    the member it reads as. *)
Definition MemberReads (d : nat) (m : Key * string) (mj : string * JSON)
  : Prop :=
  wellFormedKey (fst m) = true
  /\ fst mj = denote (name (fst m))
  /\ Reads d (snd m) (snd mj).

Definition memberAsWritten (m : Key * string) : string :=
  renderKey (fst m) ++ snd m.

Lemma member_read (d n : nat) (m : Key * string) (mj : string * JSON)
  (tail : string) (acc : list (string * JSON)) :
  MemberReads d m mj -> d <= n -> follow tail = true ->
  members (S n) (memberAsWritten m ++ tail) acc
  = match skipSpace tail with
    | EmptyString => None
    | String c r =>
      if Ascii.eqb c "," then members n r (mj :: acc)
      else if Ascii.eqb c "}" then Some (JObject (rev (mj :: acc)), r)
      else None
    end.
Proof.
  intros (Hkey & Hname & Hval) Hn Htail.
  destruct m as [[ld nm tr] text], mj as [k j]. cbn [fst snd name] in *.
  subst k. unfold wellFormedKey in Hkey. cbn [lead name trail] in Hkey.
  apply andb_true_iff in Hkey. destruct Hkey as [Hkey Htr].
  apply andb_true_iff in Hkey. destruct Hkey as [Hld Hnm].
  unfold memberAsWritten, renderKey, renderString.
  cbn [fst snd lead name trail members].
  rewrite !append_assoc, (skipSpace_blanks ld _ Hld).
  cbn [append skipSpace isSpace dquote startsWith].
  change "034"%char with dquote. eqb_concrete.
  rewrite !append_assoc. cbn [append]. rewrite Ascii.eqb_refl.
  rewrite (scanString_render nm Hnm), (unquote_chars nm Hnm).
  rewrite (skipSpace_blanks tr _ Htr).
  cbn [skipSpace isSpace startsWith]. eqb_concrete.
  destruct (Hval n tail Hn Htail) as (rest' & -> & ->). reflexivity.
Qed.

Lemma members_read (d : nat) (ms : list (Key * string))
  (js : list (string * JSON)) :
  Forall2 (MemberReads d) ms js ->
  ms <> [] ->
  forall (n : nat) (acc : list (string * JSON)) (rest : string),
  d + length ms <= n ->
  members n (join "," (map memberAsWritten ms) ++ String "}" rest) acc
  = Some (JObject (rev acc ++ js)%list, rest).
Proof.
  induction 1 as [|m mj ms js Hm Hrest IH]; intros Hne n acc rest Hn;
    [contradiction|].
  destruct n as [|n]; [cbn in Hn; lia|]. cbn [length] in Hn.
  destruct ms as [|m' ms].
  - inversion Hrest; subst. cbn [map join].
    rewrite (member_read d n m mj _ acc Hm) by (try lia; reflexivity).
    reflexivity.
  - cbn [map]. rewrite join_cons, !append_assoc.
    rewrite (member_read d n m mj _ acc Hm) by (try lia; reflexivity).
    cbn [append skipSpace isSpace]. eqb_concrete.
    change (memberAsWritten m' :: map memberAsWritten ms)
      with (map memberAsWritten (m' :: ms)).
    rewrite IH by (try discriminate; cbn [length] in *; lia).
    cbn [rev]. now rewrite <- app_assoc.
Qed.

Lemma Reads_object (d : nat) (gap : string) (ms : list (Key * string))
  (js : list (string * JSON)) :
  blanks gap = true ->
  Forall2 (MemberReads d) ms js ->
  Reads (S (d + length ms))
    ("{" ++ gap ++ join "," (map memberAsWritten ms) ++ "}") (JObject js).
Proof.
  intros Hgap H [|n] rest Hn _; [lia|]. exists rest. split; [|reflexivity].
  rewrite !append_assoc.
  cbn [append value skipSpace isSpace]. eqb_concrete.
  rewrite (skipSpace_blanks gap _ Hgap).
  destruct ms as [|m ms].
  - inversion H; subst. reflexivity.
  - assert (Hopen : startsWith "}"
              (skipSpace (join "," (map memberAsWritten (m :: ms))
                          ++ String "}" rest)) = None).
    { inversion H as [|? mj ? js' (Hkey & _) _]; subst.
      destruct m as [[ld nm tr] text]. unfold wellFormedKey in Hkey.
      cbn [fst lead name trail] in Hkey.
      apply andb_true_iff in Hkey. destruct Hkey as [Hkey _].
      apply andb_true_iff in Hkey. destruct Hkey as [Hld _].
      destruct ms as [|m' ms]; cbn [map]; [cbn [join] | rewrite join_cons];
        unfold memberAsWritten at 1, renderKey, renderString;
        cbn [fst snd lead name trail];
        rewrite !append_assoc, (skipSpace_blanks ld _ Hld); reflexivity. }
    cbn [append] in Hopen |- *. rewrite Hopen.
    rewrite (members_skip n gap _ [] Hgap).
    apply (members_read d (m :: ms) js H ltac:(discriminate) n [] rest).
    cbn [length] in *. lia.
Qed.

(** Induction on documents, through the lists of elements and members. *)
Section DocInduction.

Variable P : Doc -> Prop.
Hypothesis Pnull : P DNull.
Hypothesis Pbool : forall b, P (DBool b).
Hypothesis Pnumber : forall n, P (DNumber n).
Hypothesis Pstring : forall cs, P (DString cs).
Hypothesis Parray :
  forall gap elems, Forall P elems -> P (DArray gap elems).
Hypothesis Pobject :
  forall gap members,
  Forall (fun m => P (snd m)) members -> P (DObject gap members).
Hypothesis Ppad : forall before d after, P d -> P (DPad before d after).

Fixpoint Doc_induction (d : Doc) : P d :=
  match d with
  | DNull => Pnull
  | DBool b => Pbool b
  | DNumber n => Pnumber n
  | DString cs => Pstring cs
  | DArray gap elems =>
    Parray gap elems
      ((fix go (l : list Doc) : Forall P l :=
          match l with
          | [] => Forall_nil P
          | x :: r => Forall_cons x (Doc_induction x) (go r)
          end) elems)
  | DObject gap members =>
    Pobject gap members
      ((fix go (l : list (Key * Doc)) : Forall (fun m => P (snd m)) l :=
          match l with
          | [] => Forall_nil _
          | (k, x) :: r =>
            Forall_cons (P := fun m => P (snd m)) (k, x) (Doc_induction x) (go r)
          end) members)
  | DPad before d after => Ppad before d after (Doc_induction d)
  end.

End DocInduction.

Lemma elements_uniform (elems : list Doc) :
  Forall (fun x => wellFormed x = true ->
                   exists d, Reads d (render x) (valueOf x)) elems ->
  forallb wellFormed elems = true ->
  exists d, Forall2 (Reads d) (map render elems) (map valueOf elems).
Proof.
  induction 1 as [|x elems Hx _ IH]; intros Hwf.
  - exists 0. constructor.
  - cbn [forallb] in Hwf. apply andb_true_iff in Hwf.
    destruct Hwf as [Hwx Hwf].
    destruct (Hx Hwx) as [d1 H1], (IH Hwf) as [d2 H2].
    exists (Nat.max d1 d2). cbn [map]. constructor.
    + apply (Reads_more d1); [lia | exact H1].
    + clear - H2. induction H2; constructor; [|assumption].
      eapply Reads_more; [|eassumption]. lia.
Qed.

Lemma members_uniform (members : list (Key * Doc)) :
  Forall (fun m => wellFormed (snd m) = true ->
                   exists d, Reads d (render (snd m)) (valueOf (snd m)))
    members ->
  forallb (fun m => wellFormedKey (fst m) && wellFormed (snd m)) members
  = true ->
  exists d,
    Forall2 (MemberReads d)
      (map (fun m => (fst m, render (snd m))) members)
      (map (fun m => (denote (name (fst m)), valueOf (snd m))) members).
Proof.
  induction 1 as [|m members Hm _ IH]; intros Hwf.
  - exists 0. constructor.
  - cbn [forallb] in Hwf. apply andb_true_iff in Hwf.
    destruct Hwf as [Hwm Hwf]. apply andb_true_iff in Hwm.
    destruct Hwm as [Hkey Hwm].
    destruct (Hm Hwm) as [d1 H1], (IH Hwf) as [d2 H2].
    exists (Nat.max d1 d2). cbn [map]. constructor.
    + repeat split; cbn [fst snd]; [exact Hkey|].
      apply (Reads_more d1); [lia | exact H1].
    + clear - H2. induction H2 as [|? ? ? ? (Hk & Hn & Hr)]; constructor;
        [|assumption].
      repeat split; try assumption.
      eapply Reads_more; [|eassumption]. lia.
Qed.

(** Every well-formed document is read as the value it denotes. *)
Lemma Reads_render (doc : Doc) :
  wellFormed doc = true -> exists d, Reads d (render doc) (valueOf doc).
Proof.
  induction doc as [| b | n | cs | gap elems IH | gap members IH
                    | before doc after IH] using Doc_induction;
    cbn [wellFormed render valueOf]; intros Hwf.
  - exists 1. apply Reads_null.
  - exists 1. apply Reads_bool.
  - exists 1. now apply Reads_number.
  - exists 1. now apply Reads_string.
  - apply andb_true_iff in Hwf. destruct Hwf as [Hgap Hwf].
    destruct (elements_uniform elems IH Hwf) as [d H].
    eexists. apply (Reads_array d gap _ _ Hgap H).
  - apply andb_true_iff in Hwf. destruct Hwf as [Hgap Hwf].
    destruct (members_uniform members IH Hwf) as [d H].
    eexists.
    pose proof (Reads_object d gap _ _ Hgap H) as HR.
    rewrite map_map in HR. exact HR.
  - apply andb_true_iff in Hwf. destruct Hwf as [Hwf Hafter].
    apply andb_true_iff in Hwf. destruct Hwf as [Hbefore Hwf].
    destruct (IH Hwf) as [d H]. exists d. now apply Reads_pad.
Qed.

(** [parse] accepts a JSON text exactly when it is nested no deeper than
    the limit, and then gives the value the text denotes. *)
Theorem parse_render (doc : Doc) :
  wellFormed doc = true ->
  parse (render doc)
  = if (nesting (valueOf doc) <=? maxNestingDepth)%N
    then Some (valueOf doc) else None.
Proof.
  intros Hwf. destruct (Reads_render doc Hwf) as [d H].
  destruct (H d "" (le_n d) eq_refl) as (rest' & Hv & Hs).
  rewrite append_empty in Hv. unfold parse.
  rewrite (value_parse_fuel _ _ _ Hv), Hs. reflexivity.
Qed.

Theorem Denotes_parse (text : string) (j : JSON) :
  Denotes text j ->
  parse text = if (nesting j <=? maxNestingDepth)%N then Some j else None.
Proof. intros (doc & Hwf & <- & <-). now apply parse_render. Qed.

End json_text.
(** ** Keys and field names

    [Unmarshal] matches the keys of an object to the names of the fields,
    preferring an exact match but also accepting a case-insensitive match.
    The match is stated here without the decoder's [foldName]. *)
Module json_keys.

Import json json_roundtrip.

(** An ASCII letter in lower case, any other byte as it is. *)
Definition lowerCase (c : ascii) : ascii :=
  if ((65 <=? byte_of c) && (byte_of c <=? 90))%Z
  then ascii_of_byte (byte_of c + 32)
  else c.

(** A name without regard to case: its letters in lower case, the long s
    (U+017F) as [s] and the Kelvin sign (U+212A) as [k], the two
    characters beyond ASCII that simple case folding joins to a letter. *)
Fixpoint caseless (s : string) : string :=
  match s with
  | EmptyString => ""
  | String "197" (String "191" r) => String "s" (caseless r)
  | String "226" (String "132" (String "170" r)) => String "k" (caseless r)
  | String c r => String (lowerCase c) (caseless r)
  end.

Definition equalFold (a b : string) : bool :=
  String.eqb (caseless a) (caseless b).

(** The field a key is matched to: the field of that very name, else the
    first field whose name is the key but for case, else none. *)
Definition matchField (fields : list string) (key : string) : option string :=
  match find (String.eqb key) fields with
  | Some f => Some f
  | None => find (fun f => equalFold f key) fields
  end.

(** One step of the two foldings. *)
Inductive Step (s : string) : Prop :=
| step_empty : s = "" -> Step s
| step_long_s (r : string) :
    s = String "197" (String "191" r) ->
    foldName s = String "S" (foldName r) ->
    caseless s = String "s" (caseless r) -> Step s
| step_kelvin (r : string) :
    s = String "226" (String "132" (String "170" r)) ->
    foldName s = String "K" (foldName r) ->
    caseless s = String "k" (caseless r) -> Step s
| step_byte (c : ascii) (r : string) :
    s = String c r ->
    foldName s = String (upper c) (foldName r) ->
    caseless s = String (lowerCase c) (caseless r) -> Step s.

Lemma step (s : string) : Step s.
Proof.
  destruct s as [|c r]; [now apply step_empty|].
  every_byte c;
    try (apply (step_byte _ _ r eq_refl); reflexivity).
  - (* 197 *)
    destruct r as [|c1 r1]; [apply (step_byte _ _ "" eq_refl); reflexivity|].
    every_byte c1;
      try (apply (step_byte _ _ (String _ r1) eq_refl); reflexivity).
    apply (step_long_s _ r1 eq_refl); reflexivity.
  - (* 226 *)
    destruct r as [|c1 r1]; [apply (step_byte _ _ "" eq_refl); reflexivity|].
    every_byte c1;
      try (apply (step_byte _ _ (String _ r1) eq_refl); reflexivity).
    destruct r1 as [|c2 r2];
      [apply (step_byte _ "226" (String "132" "") eq_refl); reflexivity|].
    every_byte c2;
      try (apply (step_byte _ "226" (String "132" (String _ r2)) eq_refl);
           reflexivity).
    apply (step_kelvin _ r2 eq_refl); reflexivity.
Qed.

Fixpoint mapBytes (f : ascii -> ascii) (s : string) : string :=
  match s with
  | EmptyString => ""
  | String c r => String (f c) (mapBytes f r)
  end.

Lemma lower_upper (c : ascii) : lowerCase (upper c) = lowerCase c.
Proof. every_byte c; reflexivity. Qed.

Lemma upper_lower (c : ascii) : upper (lowerCase c) = upper c.
Proof. every_byte c; reflexivity. Qed.

Lemma foldings (n : nat) :
  forall s : string,
  String.length s <= n ->
  caseless s = mapBytes lowerCase (foldName s)
  /\ foldName s = mapBytes upper (caseless s).
Proof.
  induction n as [|n IH]; intros s Hn.
  - destruct s; [now split | cbn in Hn; lia].
  - destruct (step s) as [-> | r -> Hf Hc | r -> Hf Hc | c r -> Hf Hc];
      [now split | | |]; rewrite Hf, Hc; cbn [mapBytes String.length] in *;
      destruct (IH r ltac:(lia)) as [<- <-];
      rewrite ?lower_upper, ?upper_lower; split; reflexivity.
Qed.

Lemma equalFold_foldName (a b : string) :
  String.eqb (foldName a) (foldName b) = equalFold a b.
Proof.
  unfold equalFold.
  destruct (foldings _ a (le_n _)) as [Ha Ha'], (foldings _ b (le_n _)) as [Hb Hb'].
  destruct (String.eqb (foldName a) (foldName b)) eqn:E.
  - apply String.eqb_eq in E. symmetry. apply String.eqb_eq.
    now rewrite Ha, Hb, E.
  - symmetry. apply String.eqb_neq. intros H. apply String.eqb_neq in E.
    apply E. now rewrite Ha', Hb', H.
Qed.

(** The decoder's [findField] is the match of the documentation. *)
Theorem findField_matchField (fields : list string) (key : string) :
  findField fields key = matchField fields key.
Proof.
  unfold findField, matchField.
  assert (Hexact : find (String.eqb key) fields
                   = if existsb (String.eqb key) fields then Some key else None).
  { induction fields as [|f fields IH]; [reflexivity|].
    cbn [find existsb]. destruct (String.eqb key f) eqn:E.
    - apply String.eqb_eq in E. now subst.
    - exact IH. }
  rewrite Hexact. clear Hexact.
  destruct (existsb (String.eqb key) fields); [reflexivity|].
  induction fields as [|f fields IH]; [reflexivity|].
  cbn [find]. now rewrite equalFold_foldName, IH.
Qed.

End json_keys.

(** ** The client: data types, JSON codecs and methods *)

Module cloudflare.
Import json.

Section Client.

(** The collaborators the file uses and does not define: the request
    context, Go's [time.Time] with its RFC 3339 reading and writing, and the
    two messages the package wraps errors with. *)
Variable Context : Type.
Variable Time : Type.
Variable Time_zero : Time.
Variable parseRFC3339 : string -> option Time.
Variable formatRFC3339 : Time -> option string.
Variable errMakeRequestError : string.
Variable errUnmarshalError : string.

#[local] Set Default Proof Using "Type".

(** [ArgoTunnelConnection] represents the connections associated with a
    tunnel. *)
Record ArgoTunnelConnection : Type := {
  ColoName : string;
  UUID : string;
  IsPendingReconnect : bool
}.

(** [ArgoTunnel] is the struct definition of a tunnel. *)
Record ArgoTunnel : Type := {
  ID : string;
  Name : string;
  Secret : string;
  CreatedAt : option Time;
  DeletedAt : option Time;
  Connections : slice ArgoTunnelConnection
}.

(** Modelled from the spec: the shared [Response] type the two response
    types embed, a status object with a success flag, errors and messages.
    The spec leaves the entries of the two lists open; an entry is taken as
    a code and a message. *)
Record ResponseInfo : Type := {
  Code : Z;
  Message : string
}.

Record Response : Type := {
  Success : bool;
  Errors : slice ResponseInfo;
  Messages : slice ResponseInfo
}.

(** [ArgoTunnelsDetailResponse] and [ArgoTunnelDetailResponse] differ in the
    type of [Result] only: a [Result] and the embedded [Response]. *)
Record DetailResponse (R : Type) : Type := {
  Result : R;
  embedded : Response
}.
Arguments Result {R} _.
Arguments embedded {R} _.

Definition ArgoTunnelsDetailResponse : Type := DetailResponse (slice ArgoTunnel).
Definition ArgoTunnelDetailResponse : Type := DetailResponse ArgoTunnel.

(** *** Zero values *)

Definition ArgoTunnelConnection_zero : ArgoTunnelConnection :=
  {| ColoName := ""; UUID := ""; IsPendingReconnect := false |}.

Definition ArgoTunnel_zero : ArgoTunnel :=
  {| ID := ""; Name := ""; Secret := ""; CreatedAt := None; DeletedAt := None;
     Connections := None |}.

Definition ResponseInfo_zero : ResponseInfo := {| Code := 0; Message := "" |}.

Definition Response_zero : Response :=
  {| Success := false; Errors := None; Messages := None |}.

Definition DetailResponse_zero {R : Type} (zero : R) : DetailResponse R :=
  {| Result := zero; embedded := Response_zero |}.

(** *** Decoding, field by field as the struct tags name them *)

(** [Time.UnmarshalJSON]: the bytes of a string literal read as RFC 3339. *)
Definition Time_UnmarshalJSON (j : JSON) : Time + error :=
  match j with
  | JString raw _ =>
    match parseRFC3339 raw with
    | Some t => inl t
    | None => inr (TimeParseError raw)
    end
  | _ => inr (errorString "Time.UnmarshalJSON: input is not a JSON string")
  end.

Definition decodeTime : Decoder (option Time) :=
  decodePtrUnmarshaler Time_zero Time_UnmarshalJSON.

Definition fields_ArgoTunnelConnection : list string :=
  ["colo_name"; "uuid"; "is_pending_reconnect"].

Definition store_ArgoTunnelConnection (f : string)
  : Decoder ArgoTunnelConnection := fun j v d =>
  if String.eqb f "colo_name" then
    let (x, d') := decodeString j (ColoName v) d in
    ({| ColoName := x; UUID := UUID v;
        IsPendingReconnect := IsPendingReconnect v |}, d')
  else if String.eqb f "uuid" then
    let (x, d') := decodeString j (UUID v) d in
    ({| ColoName := ColoName v; UUID := x;
        IsPendingReconnect := IsPendingReconnect v |}, d')
  else if String.eqb f "is_pending_reconnect" then
    let (x, d') := decodeBool j (IsPendingReconnect v) d in
    ({| ColoName := ColoName v; UUID := UUID v; IsPendingReconnect := x |}, d')
  else (v, d).

Definition decode_ArgoTunnelConnection : Decoder ArgoTunnelConnection :=
  decodeStruct fields_ArgoTunnelConnection store_ArgoTunnelConnection
    "cloudflare.ArgoTunnelConnection".

Definition fields_ArgoTunnel : list string :=
  ["id"; "name"; "tunnel_secret"; "created_at"; "deleted_at"; "connections"].

Definition store_ArgoTunnel (f : string) : Decoder ArgoTunnel := fun j v d =>
  if String.eqb f "id" then
    let (x, d') := decodeString j (ID v) d in
    ({| ID := x; Name := Name v; Secret := Secret v; CreatedAt := CreatedAt v;
        DeletedAt := DeletedAt v; Connections := Connections v |}, d')
  else if String.eqb f "name" then
    let (x, d') := decodeString j (Name v) d in
    ({| ID := ID v; Name := x; Secret := Secret v; CreatedAt := CreatedAt v;
        DeletedAt := DeletedAt v; Connections := Connections v |}, d')
  else if String.eqb f "tunnel_secret" then
    let (x, d') := decodeString j (Secret v) d in
    ({| ID := ID v; Name := Name v; Secret := x; CreatedAt := CreatedAt v;
        DeletedAt := DeletedAt v; Connections := Connections v |}, d')
  else if String.eqb f "created_at" then
    let (x, d') := decodeTime j (CreatedAt v) d in
    ({| ID := ID v; Name := Name v; Secret := Secret v; CreatedAt := x;
        DeletedAt := DeletedAt v; Connections := Connections v |}, d')
  else if String.eqb f "deleted_at" then
    let (x, d') := decodeTime j (DeletedAt v) d in
    ({| ID := ID v; Name := Name v; Secret := Secret v; CreatedAt := CreatedAt v;
        DeletedAt := x; Connections := Connections v |}, d')
  else if String.eqb f "connections" then
    let (x, d') :=
      decodeSlice ArgoTunnelConnection_zero decode_ArgoTunnelConnection
        "[]cloudflare.ArgoTunnelConnection" j (Connections v) d in
    ({| ID := ID v; Name := Name v; Secret := Secret v; CreatedAt := CreatedAt v;
        DeletedAt := DeletedAt v; Connections := x |}, d')
  else (v, d).

Definition decode_ArgoTunnel : Decoder ArgoTunnel :=
  decodeStruct fields_ArgoTunnel store_ArgoTunnel "cloudflare.ArgoTunnel".

Definition decode_ArgoTunnels : Decoder (slice ArgoTunnel) :=
  decodeSlice ArgoTunnel_zero decode_ArgoTunnel "[]cloudflare.ArgoTunnel".

Definition fields_ResponseInfo : list string := ["code"; "message"].

Definition store_ResponseInfo (f : string) : Decoder ResponseInfo := fun j v d =>
  if String.eqb f "code" then
    let (x, d') := decodeInt j (Code v) d in
    ({| Code := x; Message := Message v |}, d')
  else if String.eqb f "message" then
    let (x, d') := decodeString j (Message v) d in
    ({| Code := Code v; Message := x |}, d')
  else (v, d).

Definition decode_ResponseInfo : Decoder ResponseInfo :=
  decodeStruct fields_ResponseInfo store_ResponseInfo "cloudflare.ResponseInfo".

Definition decode_ResponseInfos : Decoder (slice ResponseInfo) :=
  decodeSlice ResponseInfo_zero decode_ResponseInfo "[]cloudflare.ResponseInfo".

Definition fields_Response : list string := ["success"; "errors"; "messages"].

Definition store_Response (f : string) : Decoder Response := fun j v d =>
  if String.eqb f "success" then
    let (x, d') := decodeBool j (Success v) d in
    ({| Success := x; Errors := Errors v; Messages := Messages v |}, d')
  else if String.eqb f "errors" then
    let (x, d') := decode_ResponseInfos j (Errors v) d in
    ({| Success := Success v; Errors := x; Messages := Messages v |}, d')
  else if String.eqb f "messages" then
    let (x, d') := decode_ResponseInfos j (Messages v) d in
    ({| Success := Success v; Errors := Errors v; Messages := x |}, d')
  else (v, d).

(** A response type: its own field [result], then the fields of the
    embedded [Response], which Go promotes to the outer struct. *)
Definition fields_DetailResponse : list string := "result" :: fields_Response.

Definition store_DetailResponse {R : Type} (decodeResult : Decoder R)
  (f : string) : Decoder (DetailResponse R) := fun j v d =>
  if String.eqb f "result" then
    let (x, d') := decodeResult j (Result v) d in
    ({| Result := x; embedded := embedded v |}, d')
  else
    let (x, d') := store_Response f j (embedded v) d in
    ({| Result := Result v; embedded := x |}, d').

Definition decode_ArgoTunnelsDetailResponse : Decoder ArgoTunnelsDetailResponse :=
  decodeStruct fields_DetailResponse (store_DetailResponse decode_ArgoTunnels)
    "cloudflare.ArgoTunnelsDetailResponse".

Definition decode_ArgoTunnelDetailResponse : Decoder ArgoTunnelDetailResponse :=
  decodeStruct fields_DetailResponse (store_DetailResponse decode_ArgoTunnel)
    "cloudflare.ArgoTunnelDetailResponse".

(** *** Encoding, as [json.Marshal] writes the structs *)

Definition encodeBool (b : bool) : string := if b then "true" else "false".

Definition Marshal_ArgoTunnelConnection (c : ArgoTunnelConnection) : string :=
  encodeObject
    (field "colo_name" false false (quote (ColoName c))
     ++ field "uuid" false false (quote (UUID c))
     ++ field "is_pending_reconnect" false false
          (encodeBool (IsPendingReconnect c)))%list.

(** [Time.MarshalJSON] of a pointer field; [None] when the method fails. *)
Definition encodeTime (name : string) (t : option Time)
  : option (list (string * string)) :=
  match t with
  | None => Some []
  | Some t' =>
    match formatRFC3339 t' with
    | Some text => Some [(name, quote text)]
    | None => None
    end
  end.

Definition encodeConnections (l : slice ArgoTunnelConnection) : string :=
  match l with
  | None => "null"
  | Some cs => "[" ++ join "," (map Marshal_ArgoTunnelConnection cs) ++ "]"
  end.

Definition isEmptySlice {T : Type} (l : slice T) : bool :=
  match l with
  | None | Some [] => true
  | Some (_ :: _) => false
  end.

(** [json.Marshal] of an [ArgoTunnel]: the fields in declaration order,
    each left out when empty ([omitempty]); [None] when a timestamp cannot
    be written. *)
Definition Marshal_ArgoTunnel (t : ArgoTunnel) : option string :=
  match encodeTime "created_at" (CreatedAt t),
        encodeTime "deleted_at" (DeletedAt t) with
  | Some created, Some deleted =>
    Some (encodeObject
      (field "id" true (String.eqb (ID t) "") (quote (ID t))
       ++ field "name" true (String.eqb (Name t) "") (quote (Name t))
       ++ field "tunnel_secret" true (String.eqb (Secret t) "") (quote (Secret t))
       ++ created
       ++ deleted
       ++ field "connections" true (isEmptySlice (Connections t))
            (encodeConnections (Connections t)))%list)
  | _, _ => None
  end.

(** *** The transport

    [api.makeRequestContext(ctx, method, uri, params)] is the one capability
    of the client the file uses. A method is a program that issues requests
    and goes on with the replies: the bytes and the error the helper
    returns. *)

Record Request : Type := {
  ctx : Context;
  method : string;
  uri : string;
  params : option ArgoTunnel
}.

Definition Reply : Type := (string * option error)%type.

Inductive Prog (A : Type) : Type :=
| Ret (a : A)
| Call (req : Request) (k : Reply -> Prog A).
Arguments Ret {A} _.
Arguments Call {A} _ _.

Fixpoint bind {A B : Type} (p : Prog A) (f : A -> Prog B) : Prog B :=
  match p with
  | Ret a => f a
  | Call req k => Call req (fun r => bind (k r) f)
  end.

Notation "' p <- c ;; k" :=
  (bind c (fun x => match x with p => k end))
  (at level 61, p pattern, c at next level, right associativity).

Definition makeRequestContext (ctx : Context) (method uri : string)
  (params : option ArgoTunnel) : Prog Reply :=
  Call {| ctx := ctx; method := method; uri := uri; params := params |} Ret.

(** The client as the file sees it: what [makeRequestContext] answers. *)
Definition API : Type := Request -> Reply.

(** The value a method returns on the client [api]. *)
Fixpoint run {A : Type} (api : API) (p : Prog A) : A :=
  match p with
  | Ret a => a
  | Call req k => run api (k (api req))
  end.

(** The requests a method issues on the client [api], in order. *)
Fixpoint issued {A : Type} (api : API) (p : Prog A) : list Request :=
  match p with
  | Ret _ => []
  | Call req k => req :: issued api (k (api req))
  end.

(** *** The methods *)

(** [ArgoTunnels] lists all tunnels. *)
Definition ArgoTunnels (ctx : Context) (accountID : string)
  : Prog (slice ArgoTunnel * option error) :=
  let uri := "/accounts/" ++ accountID ++ "/tunnels" in
  ' (res, err) <- makeRequestContext ctx "GET" uri None ;;
  match err with
  | Some _ => Ret (Some [], errors.Wrap err errMakeRequestError)
  | None =>
    let argoDetailsResponse : ArgoTunnelsDetailResponse :=
      DetailResponse_zero None in
    let (argoDetailsResponse, err) :=
      Unmarshal decode_ArgoTunnelsDetailResponse res argoDetailsResponse in
    match err with
    | Some _ => Ret (Some [], errors.Wrap err errUnmarshalError)
    | None => Ret (Result argoDetailsResponse, None)
    end
  end.

(** The method [ArgoTunnel] of [API], which returns a single Argo tunnel
    (the struct type has the plain name here). *)
Definition API_ArgoTunnel (ctx : Context) (accountID tunnelUUID : string)
  : Prog (ArgoTunnel * option error) :=
  let uri := fmt.Sprintf "/accounts/%s/tunnels/%s" [accountID; tunnelUUID] in
  ' (res, err) <- makeRequestContext ctx "GET" uri None ;;
  match err with
  | Some _ => Ret (ArgoTunnel_zero, errors.Wrap err errMakeRequestError)
  | None =>
    let argoDetailsResponse : ArgoTunnelDetailResponse :=
      DetailResponse_zero ArgoTunnel_zero in
    let (argoDetailsResponse, err) :=
      Unmarshal decode_ArgoTunnelDetailResponse res argoDetailsResponse in
    match err with
    | Some _ => Ret (ArgoTunnel_zero, errors.Wrap err errUnmarshalError)
    | None => Ret (Result argoDetailsResponse, None)
    end
  end.

(** [CreateArgoTunnel] creates a new tunnel for the account. *)
Definition CreateArgoTunnel (ctx : Context) (accountID name secret : string)
  : Prog (ArgoTunnel * option error) :=
  let uri := "/accounts/" ++ accountID ++ "/tunnels" in
  let tunnel :=
    {| ID := ""; Name := name; Secret := secret; CreatedAt := None;
       DeletedAt := None; Connections := None |} in
  ' (res, err) <- makeRequestContext ctx "POST" uri (Some tunnel) ;;
  match err with
  | Some _ => Ret (ArgoTunnel_zero, errors.Wrap err errMakeRequestError)
  | None =>
    let argoDetailsResponse : ArgoTunnelDetailResponse :=
      DetailResponse_zero ArgoTunnel_zero in
    let (argoDetailsResponse, err) :=
      Unmarshal decode_ArgoTunnelDetailResponse res argoDetailsResponse in
    match err with
    | Some _ => Ret (ArgoTunnel_zero, errors.Wrap err errUnmarshalError)
    | None => Ret (Result argoDetailsResponse, None)
    end
  end.

(** [DeleteArgoTunnel] removes a single Argo tunnel. *)
Definition DeleteArgoTunnel (ctx : Context) (accountID tunnelUUID : string)
  : Prog (option error) :=
  let uri := fmt.Sprintf "/accounts/%s/tunnels/%s" [accountID; tunnelUUID] in
  ' (res, err) <- makeRequestContext ctx "DELETE" uri None ;;
  match err with
  | Some _ => Ret (errors.Wrap err errMakeRequestError)
  | None =>
    let argoDetailsResponse : ArgoTunnelDetailResponse :=
      DetailResponse_zero ArgoTunnel_zero in
    let (argoDetailsResponse, err) :=
      Unmarshal decode_ArgoTunnelDetailResponse res argoDetailsResponse in
    match err with
    | Some _ => Ret (errors.Wrap err errUnmarshalError)
    | None => Ret None
    end
  end.

(** [CleanupArgoTunnelConnections] deletes any inactive connections on a
    tunnel. *)
Definition CleanupArgoTunnelConnections (ctx : Context)
  (accountID tunnelUUID : string) : Prog (option error) :=
  let uri :=
    fmt.Sprintf "/accounts/%s/tunnels/%s/connections" [accountID; tunnelUUID] in
  ' (res, err) <- makeRequestContext ctx "DELETE" uri None ;;
  match err with
  | Some _ => Ret (errors.Wrap err errMakeRequestError)
  | None =>
    let argoDetailsResponse : ArgoTunnelDetailResponse :=
      DetailResponse_zero ArgoTunnel_zero in
    let (argoDetailsResponse, err) :=
      Unmarshal decode_ArgoTunnelDetailResponse res argoDetailsResponse in
    match err with
    | Some _ => Ret (errors.Wrap err errUnmarshalError)
    | None => Ret None
    end
  end.

(** *** The five operations, taken together *)

Inductive Operation : Type :=
| List (accountID : string)
| Get (accountID tunnelID : string)
| Create (accountID name secret : string)
| Delete (accountID tunnelID : string)
| CleanupConnections (accountID tunnelID : string).

(** What an operation returns besides its error. *)
Inductive Returned : Type :=
| Tunnels (l : slice ArgoTunnel)
| Tunnel (t : ArgoTunnel)
| NoValue.

Definition perform (ctx : Context) (op : Operation)
  : Prog (Returned * option error) :=
  match op with
  | List a => ' (l, err) <- ArgoTunnels ctx a ;; Ret (Tunnels l, err)
  | Get a t => ' (x, err) <- API_ArgoTunnel ctx a t ;; Ret (Tunnel x, err)
  | Create a n s => ' (x, err) <- CreateArgoTunnel ctx a n s ;; Ret (Tunnel x, err)
  | Delete a t => bind (DeleteArgoTunnel ctx a t) (fun err => Ret (NoValue, err))
  | CleanupConnections a t =>
    bind (CleanupArgoTunnelConnections ctx a t) (fun err => Ret (NoValue, err))
  end.

(** The zero value of an operation's result: an empty sequence that is not
    [nil] for List, the zero tunnel for Get and Create. *)
Definition zeroValue (op : Operation) : Returned :=
  match op with
  | List _ => Tunnels (Some [])
  | Get _ _ | Create _ _ _ => Tunnel ArgoTunnel_zero
  | Delete _ _ | CleanupConnections _ _ => NoValue
  end.

(** The request of an operation, by the table of the HTTP surface. *)
Definition requestOf (ctx : Context) (op : Operation) : Request :=
  match op with
  | List a =>
    {| ctx := ctx; method := "GET"; uri := "/accounts/" ++ a ++ "/tunnels";
       params := None |}
  | Get a t =>
    {| ctx := ctx; method := "GET";
       uri := "/accounts/" ++ a ++ "/tunnels/" ++ t; params := None |}
  | Create a n s =>
    {| ctx := ctx; method := "POST"; uri := "/accounts/" ++ a ++ "/tunnels";
       params := Some {| ID := ""; Name := n; Secret := s; CreatedAt := None;
                         DeletedAt := None; Connections := None |} |}
  | Delete a t =>
    {| ctx := ctx; method := "DELETE";
       uri := "/accounts/" ++ a ++ "/tunnels/" ++ t; params := None |}
  | CleanupConnections a t =>
    {| ctx := ctx; method := "DELETE";
       uri := "/accounts/" ++ a ++ "/tunnels/" ++ t ++ "/connections";
       params := None |}
  end.

(** The error of decoding [res] into the envelope type of an operation. *)
Definition envelopeError (op : Operation) (res : string) : option error :=
  match op with
  | List _ =>
    snd (Unmarshal decode_ArgoTunnelsDetailResponse res (DetailResponse_zero None))
  | _ =>
    snd (Unmarshal decode_ArgoTunnelDetailResponse res
           (DetailResponse_zero ArgoTunnel_zero))
  end.

(** The stage an error names: the message of its outermost wrapper. *)
Definition stage (err : option error) : option string :=
  match err with
  | Some (withMessage _ msg) => Some msg
  | _ => None
  end.

(** *** What a JSON text says, read by field name

    The reading of a response that the properties below compare the
    decoder with: a field is the member of that exact name, an absent or
    [null] member is the zero value. *)

Fixpoint lookup (k : string) (ms : list (string * JSON)) : option JSON :=
  match ms with
  | [] => None
  | (k', j) :: r => if String.eqb k' k then Some j else lookup k r
  end.

Definition member (k : string) (o : option JSON) : option JSON :=
  match o with
  | Some (JObject ms) => lookup k ms
  | _ => None
  end.

Definition readText (o : option JSON) : string :=
  match o with
  | Some (JString _ s) => s
  | _ => ""
  end.

Definition readFlag (o : option JSON) : bool :=
  match o with
  | Some (JBool b) => b
  | _ => false
  end.

Definition readTime (o : option JSON) : option Time :=
  match o with
  | Some (JString raw _) => parseRFC3339 raw
  | _ => None
  end.

Definition readConnection (o : option JSON) : ArgoTunnelConnection :=
  {| ColoName := readText (member "colo_name" o);
     UUID := readText (member "uuid" o);
     IsPendingReconnect := readFlag (member "is_pending_reconnect" o) |}.

Definition readConnections (o : option JSON) : slice ArgoTunnelConnection :=
  match o with
  | Some (JArray l) => Some (map (fun j => readConnection (Some j)) l)
  | _ => None
  end.

Definition readTunnel (o : option JSON) : ArgoTunnel :=
  {| ID := readText (member "id" o);
     Name := readText (member "name" o);
     Secret := readText (member "tunnel_secret" o);
     CreatedAt := readTime (member "created_at" o);
     DeletedAt := readTime (member "deleted_at" o);
     Connections := readConnections (member "connections" o) |}.

Definition readTunnels (o : option JSON) : slice ArgoTunnel :=
  match o with
  | Some (JArray l) => Some (map (fun j => readTunnel (Some j)) l)
  | _ => None
  end.

(** *** The shape of a response

    A JSON text matches a struct when it is [null] or an object whose keys
    are distinct, each either the exact name of a field or a key that
    selects no field, and whose member at a field name has the kind of the
    field. *)

Fixpoint uniqueKeys (ms : list (string * JSON)) : bool :=
  match ms with
  | [] => true
  | (k, _) :: r =>
    negb (existsb (fun m => String.eqb (fst m) k) r) && uniqueKeys r
  end.

Definition keyOK (fields : list string) (k : string) : bool :=
  match findField fields k with
  | Some f => String.eqb f k
  | None => true
  end.

Definition membersOK (fields : list string) (valueOK : string -> JSON -> bool)
  (ms : list (string * JSON)) : bool :=
  uniqueKeys ms
  && forallb (fun m => keyOK fields (fst m) && valueOK (fst m) (snd m)) ms.

Definition structOK (fields : list string) (valueOK : string -> JSON -> bool)
  (j : JSON) : bool :=
  match j with
  | JNull => true
  | JObject ms => membersOK fields valueOK ms
  | _ => false
  end.

Definition sliceOK (elemOK : JSON -> bool) (j : JSON) : bool :=
  match j with
  | JNull => true
  | JArray l => forallb elemOK l
  | _ => false
  end.

Definition isText (j : JSON) : bool :=
  match j with
  | JNull | JString _ _ => true
  | _ => false
  end.

Definition isFlag (j : JSON) : bool :=
  match j with
  | JNull | JBool _ => true
  | _ => false
  end.

Definition isInt (j : JSON) : bool :=
  match j with
  | JNull => true
  | JNumber lit => match parseInt lit with Some _ => true | None => false end
  | _ => false
  end.

Definition isTime (j : JSON) : bool :=
  match j with
  | JNull => true
  | JString raw _ =>
    match parseRFC3339 raw with Some _ => true | None => false end
  | _ => false
  end.

Definition connectionValueOK (k : string) (j : JSON) : bool :=
  if String.eqb k "colo_name" then isText j
  else if String.eqb k "uuid" then isText j
  else if String.eqb k "is_pending_reconnect" then isFlag j
  else true.

Definition connectionOK : JSON -> bool :=
  structOK fields_ArgoTunnelConnection connectionValueOK.

Definition tunnelValueOK (k : string) (j : JSON) : bool :=
  if String.eqb k "id" then isText j
  else if String.eqb k "name" then isText j
  else if String.eqb k "tunnel_secret" then isText j
  else if String.eqb k "created_at" then isTime j
  else if String.eqb k "deleted_at" then isTime j
  else if String.eqb k "connections" then sliceOK connectionOK j
  else true.

Definition tunnelOK : JSON -> bool := structOK fields_ArgoTunnel tunnelValueOK.

Definition infoValueOK (k : string) (j : JSON) : bool :=
  if String.eqb k "code" then isInt j
  else if String.eqb k "message" then isText j
  else true.

Definition infoOK : JSON -> bool := structOK fields_ResponseInfo infoValueOK.

Definition envelopeValueOK (resultOK : JSON -> bool) (k : string) (j : JSON)
  : bool :=
  if String.eqb k "result" then resultOK j
  else if String.eqb k "success" then isFlag j
  else if String.eqb k "errors" then sliceOK infoOK j
  else if String.eqb k "messages" then sliceOK infoOK j
  else true.

(** The single-result and the multi-result envelope. *)
Definition singleEnvelopeOK : JSON -> bool :=
  structOK fields_DetailResponse (envelopeValueOK tunnelOK).

Definition multiEnvelopeOK : JSON -> bool :=
  structOK fields_DetailResponse (envelopeValueOK (sliceOK tunnelOK)).

(** *** Readings with a default

    What a field holds after a member was stored into it: the value of the
    member, or what the field held before when the member is absent (or is
    a [null] that leaves the field as it is). *)

Definition textOr (dflt : string) (o : option JSON) : string :=
  match o with
  | Some (JString _ s) => s
  | _ => dflt
  end.

Definition flagOr (dflt : bool) (o : option JSON) : bool :=
  match o with
  | Some (JBool b) => b
  | _ => dflt
  end.

Definition timeOr (dflt : option Time) (o : option JSON) : option Time :=
  match o with
  | Some (JString raw _) => parseRFC3339 raw
  | Some _ => None
  | None => dflt
  end.

Definition connectionsOr (dflt : slice ArgoTunnelConnection) (o : option JSON)
  : slice ArgoTunnelConnection :=
  match o with
  | Some (JArray l) => Some (map (fun j => readConnection (Some j)) l)
  | Some _ => None
  | None => dflt
  end.

(** A text between double quotes, as it stands. *)
Definition literal (s : string) : string :=
  String dquote (s ++ String dquote "").

(** An omitted member leaves the zero value of its field: the empty
    string, the [nil] timestamp, the [nil] list of connections. *)
Definition omittedAreZero (result : option JSON) (t : ArgoTunnel) : Prop :=
  (member "id" result = None -> ID t = "")
  /\ (member "name" result = None -> Name t = "")
  /\ (member "tunnel_secret" result = None -> Secret t = "")
  /\ (member "created_at" result = None -> CreatedAt t = None)
  /\ (member "deleted_at" result = None -> DeletedAt t = None)
  /\ (member "connections" result = None -> Connections t = None).

(** What an operation returns when [res] decodes with no error. *)
Definition decoded (op : Operation) (res : string) : Returned :=
  match op with
  | List _ =>
    Tunnels (Result (fst (Unmarshal decode_ArgoTunnelsDetailResponse res
                            (DetailResponse_zero None))))
  | Get _ _ | Create _ _ _ =>
    Tunnel (Result (fst (Unmarshal decode_ArgoTunnelDetailResponse res
                           (DetailResponse_zero ArgoTunnel_zero))))
  | Delete _ _ | CleanupConnections _ _ => NoValue
  end.

(** ** Properties *)

(** *** Strings, keys and members *)

Lemma append_empty_r (s : string) : s ++ "" = s.
Proof. induction s as [|c s IH]; simpl; [reflexivity | now rewrite IH]. Qed.

Lemma keyOK_cases (fields : list string) (k : string) :
  keyOK fields k = true ->
  (In k fields /\ findField fields k = Some k)
  \/ (~ In k fields /\ findField fields k = None).
Proof.
  unfold keyOK, findField.
  destruct (existsb (String.eqb k) fields) eqn:E.
  - intros _. left. split; [|reflexivity].
    apply existsb_exists in E. destruct E as [x [Hin Hx]].
    apply String.eqb_eq in Hx. now subst.
  - assert (Hnin : ~ In k fields).
    { intros Hin. assert (existsb (String.eqb k) fields = true) as E'.
      { apply existsb_exists. exists k. split; [assumption | apply String.eqb_refl]. }
      rewrite E in E'. discriminate E'. }
    destruct (find _ fields) as [f|] eqn:F.
    + intros Hf. apply String.eqb_eq in Hf. subst f.
      apply find_some in F. destruct F as [F _]. contradiction.
    + intros _. right. split; [assumption | reflexivity].
Qed.

Lemma lookup_fresh (k : string) (ms : list (string * JSON)) :
  existsb (fun m => String.eqb (fst m) k) ms = false -> lookup k ms = None.
Proof.
  induction ms as [|[k' j] ms IH]; simpl; [reflexivity|].
  intros H. apply orb_false_iff in H. destruct H as [H1 H2].
  rewrite H1. now apply IH.
Qed.

Lemma membersOK_cons (fields : list string) (valueOK : string -> JSON -> bool)
  (k : string) (j : JSON) (ms : list (string * JSON)) :
  membersOK fields valueOK ((k, j) :: ms) = true ->
  lookup k ms = None /\ keyOK fields k = true /\ valueOK k j = true
  /\ membersOK fields valueOK ms = true.
Proof.
  unfold membersOK. simpl. intros H.
  apply andb_true_iff in H. destruct H as [Hu Hf].
  apply andb_true_iff in Hu. destruct Hu as [Hk Hu].
  apply andb_true_iff in Hf. destruct Hf as [Hm Hf].
  apply andb_true_iff in Hm. destruct Hm as [Hkey Hval].
  apply negb_true_iff in Hk.
  repeat split; try assumption.
  - now apply lookup_fresh.
  - now rewrite Hu, Hf.
Qed.

(** *** Decoding a well-shaped object, struct by struct *)

Ltac absent_key Hnin :=
  repeat match goal with
  | |- context [String.eqb ?k ?f] =>
    destruct (String.eqb_spec k f) as [->|?];
    [exfalso; apply Hnin; simpl; auto 10|]
  end.

Lemma object_ArgoTunnelConnection (ms : list (string * JSON)) :
  forall (v : ArgoTunnelConnection) (d : decodeState),
  membersOK fields_ArgoTunnelConnection connectionValueOK ms = true ->
  abort d = None ->
  object fields_ArgoTunnelConnection store_ArgoTunnelConnection ms v d =
  ({| ColoName := textOr (ColoName v) (lookup "colo_name" ms);
      UUID := textOr (UUID v) (lookup "uuid" ms);
      IsPendingReconnect :=
        flagOr (IsPendingReconnect v) (lookup "is_pending_reconnect" ms) |}, d).
Proof.
  induction ms as [|[k j] ms IH]; intros v d Hok Hd.
  - destruct v; reflexivity.
  - apply membersOK_cons in Hok. destruct Hok as (Hfresh & Hkey & Hval & Hok).
    cbn [object].
    destruct (keyOK_cases _ _ Hkey) as [[Hin Hf]|[Hnin Hf]]; rewrite Hf.
    + simpl in Hin. destruct Hin as [<-|[<-|[<-|[]]]];
        cbn in Hval; destruct j; try discriminate Hval;
        cbn; rewrite ?Hd; rewrite (IH _ _ Hok Hd); cbn; rewrite ?Hfresh;
        reflexivity.
    + rewrite Hd, (IH _ _ Hok Hd). cbn [lookup].
      absent_key Hnin. reflexivity.
Qed.

Lemma decode_ArgoTunnelConnection_fresh (j : JSON) (d : decodeState) :
  connectionOK j = true -> abort d = None ->
  decode_ArgoTunnelConnection j ArgoTunnelConnection_zero d
  = (readConnection (Some j), d).
Proof.
  intros Hok Hd. destruct j; try discriminate Hok; [reflexivity|].
  unfold decode_ArgoTunnelConnection, decodeStruct.
  now rewrite (object_ArgoTunnelConnection _ _ _ Hok Hd).
Qed.

(** The elements of an array decoded into a slice that was [nil]. *)
Lemma array_fresh {T : Type} (zero : T) (elem : Decoder T)
  (ok : JSON -> bool) (read : JSON -> T) :
  (forall j d, ok j = true -> abort d = None -> elem j zero d = (read j, d)) ->
  forall (elems : list JSON) (d : decodeState),
  forallb ok elems = true -> abort d = None ->
  array zero elem elems [] d = (map read elems, d).
Proof.
  intros Helem. induction elems as [|j elems IH]; intros d Hok Hd.
  - reflexivity.
  - simpl in Hok. apply andb_true_iff in Hok. destruct Hok as [Hj Hok].
    cbn [array hd tl map]. rewrite (Helem _ _ Hj Hd), Hd.
    now rewrite (IH _ Hok Hd).
Qed.

Lemma object_ArgoTunnel (ms : list (string * JSON)) :
  forall (v : ArgoTunnel) (d : decodeState),
  membersOK fields_ArgoTunnel tunnelValueOK ms = true ->
  abort d = None ->
  (lookup "connections" ms <> None -> Connections v = None) ->
  object fields_ArgoTunnel store_ArgoTunnel ms v d =
  ({| ID := textOr (ID v) (lookup "id" ms);
      Name := textOr (Name v) (lookup "name" ms);
      Secret := textOr (Secret v) (lookup "tunnel_secret" ms);
      CreatedAt := timeOr (CreatedAt v) (lookup "created_at" ms);
      DeletedAt := timeOr (DeletedAt v) (lookup "deleted_at" ms);
      Connections := connectionsOr (Connections v) (lookup "connections" ms) |},
   d).
Proof.
  induction ms as [|[k j] ms IH]; intros v d Hok Hd Hnil.
  - destruct v; reflexivity.
  - apply membersOK_cons in Hok. destruct Hok as (Hfresh & Hkey & Hval & Hok).
    cbn [object].
    destruct (keyOK_cases _ _ Hkey) as [[Hin Hf]|[Hnin Hf]]; rewrite Hf.
    + simpl in Hin.
      destruct Hin as [<-|[<-|[<-|[<-|[<-|[<-|[]]]]]]]; cbn in Hval.
      1-3: destruct j; try discriminate Hval;
        cbn; rewrite ?Hd; (rewrite (IH _ _ Hok Hd); [|exact Hnil]);
        cbn; rewrite ?Hfresh; reflexivity.
      1-2: destruct j as [| | |raw s| |]; try discriminate Hval;
        cbn in Hval |- *;
        try (destruct (parseRFC3339 raw) as [t|] eqn:Ht; [|discriminate Hval]);
        cbn; rewrite ?Hd; (rewrite (IH _ _ Hok Hd); [|exact Hnil]);
        cbn; rewrite ?Hfresh, ?Ht; reflexivity.
      destruct j as [| | | |elems|]; try discriminate Hval.
      * cbn. rewrite Hd.
        rewrite (IH _ _ Hok Hd); [|intros H; now rewrite Hfresh in H].
        cbn. now rewrite Hfresh.
      * cbn [store_ArgoTunnel String.eqb Ascii.eqb Bool.eqb decodeSlice].
        cbn [sliceOK] in Hval.
        rewrite Hnil by (cbn; discriminate).
        rewrite (array_fresh _ _ connectionOK (fun j => readConnection (Some j))
                   decode_ArgoTunnelConnection_fresh _ _ Hval Hd).
        rewrite Hd.
        rewrite (IH _ _ Hok Hd); [|intros H; now rewrite Hfresh in H].
        cbn. now rewrite Hfresh.
    + rewrite Hd. rewrite (IH _ _ Hok Hd).
      * cbn [lookup]. absent_key Hnin. reflexivity.
      * intros H. apply Hnil. cbn [lookup]. absent_key Hnin. exact H.
Qed.

Lemma timeOr_nil (o : option JSON) : timeOr None o = readTime o.
Proof. now destruct o as [[]|]. Qed.

Lemma connectionsOr_nil (o : option JSON) :
  connectionsOr None o = readConnections o.
Proof. now destruct o as [[]|]. Qed.

Lemma decode_ArgoTunnel_fresh (j : JSON) (d : decodeState) :
  tunnelOK j = true -> abort d = None ->
  decode_ArgoTunnel j ArgoTunnel_zero d = (readTunnel (Some j), d).
Proof.
  intros Hok Hd. destruct j; try discriminate Hok; [reflexivity|].
  unfold decode_ArgoTunnel, decodeStruct.
  rewrite (object_ArgoTunnel _ _ _ Hok Hd); [|reflexivity].
  unfold readTunnel. cbn [member ArgoTunnel_zero ID Name Secret CreatedAt
                            DeletedAt Connections].
  now rewrite !timeOr_nil, connectionsOr_nil.
Qed.

Lemma decode_ArgoTunnels_fresh (j : JSON) (d : decodeState) :
  sliceOK tunnelOK j = true -> abort d = None ->
  decode_ArgoTunnels j None d = (readTunnels (Some j), d).
Proof.
  intros Hok Hd. destruct j; try discriminate Hok; [reflexivity|].
  unfold decode_ArgoTunnels, decodeSlice. cbn [sliceOK] in Hok.
  now rewrite (array_fresh _ _ tunnelOK (fun j => readTunnel (Some j))
                 decode_ArgoTunnel_fresh _ _ Hok Hd).
Qed.

(** *** The status fields of a well-shaped envelope decode without error *)

Lemma object_ResponseInfo_ok (ms : list (string * JSON)) :
  forall (v : ResponseInfo) (d : decodeState),
  membersOK fields_ResponseInfo infoValueOK ms = true ->
  abort d = None ->
  exists v', object fields_ResponseInfo store_ResponseInfo ms v d = (v', d).
Proof.
  induction ms as [|[k j] ms IH]; intros v d Hok Hd.
  - now exists v.
  - apply membersOK_cons in Hok. destruct Hok as (Hfresh & Hkey & Hval & Hok).
    cbn [object].
    destruct (keyOK_cases _ _ Hkey) as [[Hin Hf]|[Hnin Hf]]; rewrite Hf.
    + simpl in Hin. destruct Hin as [<-|[<-|[]]]; cbn -[parseInt] in Hval.
      * destruct j as [| |lit| | |]; try discriminate Hval; cbn -[parseInt].
        -- rewrite Hd. now apply IH.
        -- cbn -[parseInt] in Hval.
           destruct (parseInt lit); [|discriminate Hval].
           rewrite Hd. now apply IH.
      * destruct j; try discriminate Hval; cbn; rewrite Hd; now apply IH.
    + rewrite Hd. now apply IH.
Qed.

Lemma decode_ResponseInfo_ok (j : JSON) (v : ResponseInfo) (d : decodeState) :
  infoOK j = true -> abort d = None ->
  exists v', decode_ResponseInfo j v d = (v', d).
Proof.
  intros Hok Hd. destruct j; try discriminate Hok.
  - now exists v.
  - now apply object_ResponseInfo_ok.
Qed.

(** The elements of an array decoded over any slice, when no element can
    fail. *)
Lemma array_ok {T : Type} (zero : T) (elem : Decoder T) (ok : JSON -> bool) :
  (forall j v d, ok j = true -> abort d = None -> exists v', elem j v d = (v', d)) ->
  forall (elems : list JSON) (old : list T) (d : decodeState),
  forallb ok elems = true -> abort d = None ->
  exists l, array zero elem elems old d = (l, d).
Proof.
  intros Helem. induction elems as [|j elems IH]; intros old d Hok Hd.
  - now exists [].
  - simpl in Hok. apply andb_true_iff in Hok. destruct Hok as [Hj Hok].
    cbn [array].
    destruct (Helem j (hd zero old) d Hj Hd) as [x Hx]. rewrite Hx, Hd.
    destruct (IH (tl old) d Hok Hd) as [xs Hxs]. rewrite Hxs.
    now exists (x :: xs).
Qed.

Lemma decode_ResponseInfos_ok (j : JSON) (v : slice ResponseInfo)
  (d : decodeState) :
  sliceOK infoOK j = true -> abort d = None ->
  exists v', decode_ResponseInfos j v d = (v', d).
Proof.
  intros Hok Hd. destruct j; try discriminate Hok.
  - now exists None.
  - unfold decode_ResponseInfos, decodeSlice. cbn [sliceOK] in Hok.
    destruct (array_ok ResponseInfo_zero decode_ResponseInfo infoOK
                decode_ResponseInfo_ok elems
                (match v with Some l => l | None => [] end) d Hok Hd)
      as [l Hl].
    rewrite Hl. now exists (Some l).
Qed.

(** *** Decoding a well-shaped envelope *)

Ltac use_IH :=
  match goal with
  | IH : forall v d, _ -> _ -> _ -> exists e, object _ _ ?ms v d = _,
    Hok : membersOK _ _ ?ms = true, Hd : abort ?d = None,
    Hzero : _ -> Result _ = _
    |- context [object _ _ ?ms ?v' ?d] =>
    destruct (IH v' d Hok Hd Hzero) as [e He]; rewrite He; now exists e
  end.

Lemma object_DetailResponse {R : Type} (decodeResult : Decoder R)
  (resultOK : JSON -> bool) (zero : R) (read : JSON -> R) :
  (forall j d, resultOK j = true -> abort d = None ->
               decodeResult j zero d = (read j, d)) ->
  forall (ms : list (string * JSON)) (v : DetailResponse R) (d : decodeState),
  membersOK fields_DetailResponse (envelopeValueOK resultOK) ms = true ->
  abort d = None ->
  (lookup "result" ms <> None -> Result v = zero) ->
  exists e,
    object fields_DetailResponse (store_DetailResponse decodeResult) ms v d =
    ({| Result := match lookup "result" ms with
                  | Some j => read j
                  | None => Result v
                  end;
        embedded := e |}, d).
Proof.
  intros Hres.
  induction ms as [|[k j] ms IH]; intros v d Hok Hd Hzero.
  - exists (embedded v). now destruct v.
  - apply membersOK_cons in Hok. destruct Hok as (Hfresh & Hkey & Hval & Hok).
    cbn [object].
    destruct (keyOK_cases _ _ Hkey) as [[Hin Hf]|[Hnin Hf]]; rewrite Hf.
    + simpl in Hin. destruct Hin as [<-|[<-|[<-|[<-|[]]]]]; cbn in Hval.
      * cbn [store_DetailResponse String.eqb Ascii.eqb Bool.eqb].
        rewrite Hzero by (cbn; discriminate).
        rewrite (Hres _ _ Hval Hd), Hd.
        destruct (IH {| Result := read j; embedded := embedded v |} d Hok Hd)
          as [e He]; [intros H; now rewrite Hfresh in H|].
        rewrite He. exists e. cbn. now rewrite Hfresh.
      * destruct j; try discriminate Hval; cbn; rewrite Hd; use_IH.
      * cbn [store_DetailResponse store_Response String.eqb Ascii.eqb Bool.eqb].
        destruct (decode_ResponseInfos_ok j (Errors (embedded v)) d Hval Hd)
          as [x Hx]. rewrite Hx, Hd. use_IH.
      * cbn [store_DetailResponse store_Response String.eqb Ascii.eqb Bool.eqb].
        destruct (decode_ResponseInfos_ok j (Messages (embedded v)) d Hval Hd)
          as [x Hx]. rewrite Hx, Hd. use_IH.
    + rewrite Hd.
      destruct (IH v d Hok Hd) as [e He].
      * intros H. apply Hzero. cbn [lookup]. absent_key Hnin. exact H.
      * rewrite He. exists e. cbn [lookup]. absent_key Hnin. reflexivity.
Qed.

Lemma Unmarshal_single (res : string) (j : JSON) :
  parse res = Some j -> singleEnvelopeOK j = true ->
  exists e,
    Unmarshal decode_ArgoTunnelDetailResponse res
      (DetailResponse_zero ArgoTunnel_zero)
    = ({| Result := readTunnel (member "result" (Some j)); embedded := e |}, None).
Proof.
  intros Hp Hok. unfold Unmarshal. rewrite Hp.
  destruct j as [| | | | |ms]; try discriminate Hok.
  - now exists Response_zero.
  - unfold decode_ArgoTunnelDetailResponse, decodeStruct.
    destruct (object_DetailResponse decode_ArgoTunnel tunnelOK ArgoTunnel_zero
                (fun j => readTunnel (Some j)) decode_ArgoTunnel_fresh ms
                (DetailResponse_zero ArgoTunnel_zero) start Hok eq_refl)
      as [e He]; [reflexivity|].
    rewrite He. exists e. cbn [member outcome start abort savedError].
    now destruct (lookup "result" ms).
Qed.

Lemma Unmarshal_multi (res : string) (j : JSON) :
  parse res = Some j -> multiEnvelopeOK j = true ->
  exists e,
    Unmarshal decode_ArgoTunnelsDetailResponse res (DetailResponse_zero None)
    = ({| Result := readTunnels (member "result" (Some j)); embedded := e |}, None).
Proof.
  intros Hp Hok. unfold Unmarshal. rewrite Hp.
  destruct j as [| | | | |ms]; try discriminate Hok.
  - now exists Response_zero.
  - unfold decode_ArgoTunnelsDetailResponse, decodeStruct.
    destruct (object_DetailResponse decode_ArgoTunnels (sliceOK tunnelOK) None
                (fun j => readTunnels (Some j)) decode_ArgoTunnels_fresh ms
                (DetailResponse_zero None) start Hok eq_refl)
      as [e He]; [reflexivity|].
    rewrite He. exists e. cbn [member outcome start abort savedError].
    now destruct (lookup "result" ms).
Qed.

(** *** The requests *)

Lemma Sprintf_item (a t : string) :
  fmt.Sprintf "/accounts/%s/tunnels/%s" [a; t]
  = "/accounts/" ++ a ++ "/tunnels/" ++ t.
Proof. cbn. now rewrite append_empty_r. Qed.

Lemma Sprintf_connections (a t : string) :
  fmt.Sprintf "/accounts/%s/tunnels/%s/connections" [a; t]
  = "/accounts/" ++ a ++ "/tunnels/" ++ t ++ "/connections".
Proof. reflexivity. Qed.

Ltac open_method :=
  unfold perform, ArgoTunnels, API_ArgoTunnel, CreateArgoTunnel,
    DeleteArgoTunnel, CleanupArgoTunnelConnections, makeRequestContext;
  rewrite ?Sprintf_item, ?Sprintf_connections;
  cbn [bind run issued].

(** C1. Each of the five operations issues exactly one request, with the
    method and the path of the table of the HTTP surface: List is GET
    /accounts/{accountID}/tunnels, Get is GET
    /accounts/{accountID}/tunnels/{tunnelID}, Create is POST
    /accounts/{accountID}/tunnels, Delete is DELETE
    /accounts/{accountID}/tunnels/{tunnelID}, CleanupConnections is DELETE
    /accounts/{accountID}/tunnels/{tunnelID}/connections. The account ID and
    the tunnel ID are any strings and stand in the path byte for byte, so
    nothing is encoded or escaped. *)
Theorem operations_issue_the_table_requests :
  forall (api : API) (ctx : Context) (accountID tunnelUUID name secret : string),
  issued api (ArgoTunnels ctx accountID)
  = [{| ctx := ctx; method := "GET";
        uri := "/accounts/" ++ accountID ++ "/tunnels"; params := None |}]
  /\ issued api (API_ArgoTunnel ctx accountID tunnelUUID)
  = [{| ctx := ctx; method := "GET";
        uri := "/accounts/" ++ accountID ++ "/tunnels/" ++ tunnelUUID;
        params := None |}]
  /\ issued api (CreateArgoTunnel ctx accountID name secret)
  = [{| ctx := ctx; method := "POST";
        uri := "/accounts/" ++ accountID ++ "/tunnels";
        params := Some {| ID := ""; Name := name; Secret := secret;
                          CreatedAt := None; DeletedAt := None;
                          Connections := None |} |}]
  /\ issued api (DeleteArgoTunnel ctx accountID tunnelUUID)
  = [{| ctx := ctx; method := "DELETE";
        uri := "/accounts/" ++ accountID ++ "/tunnels/" ++ tunnelUUID;
        params := None |}]
  /\ issued api (CleanupArgoTunnelConnections ctx accountID tunnelUUID)
  = [{| ctx := ctx; method := "DELETE";
        uri := "/accounts/" ++ accountID ++ "/tunnels/" ++ tunnelUUID
               ++ "/connections";
        params := None |}].
Proof.
  intros api ctx accountID tunnelUUID name secret.
  repeat split; open_method;
    match goal with
    | |- context [api ?r] => destruct (api r) as [res [e|]]
    end;
    try reflexivity;
    match goal with
    | |- context [Unmarshal ?dec ?r ?z] =>
      destruct (Unmarshal dec r z) as [v [e|]]
    end;
    reflexivity.
Qed.

(** The request of an operation is the one request it issues. *)
Lemma perform_issues_requestOf (api : API) (ctx : Context) (op : Operation) :
  issued api (perform ctx op) = [requestOf ctx op].
Proof.
  destruct op; open_method; cbn [requestOf];
    match goal with
    | |- context [api ?r] => destruct (api r) as [res [e|]]
    end;
    try reflexivity;
    match goal with
    | |- context [Unmarshal ?dec ?r ?z] =>
      destruct (Unmarshal dec r z) as [v [e|]]
    end;
    reflexivity.
Qed.

(** C2. Whenever [makeRequestContext] reports an error, an operation returns
    its zero value (an empty sequence that is not [nil] for List, the zero
    tunnel for Get and Create, nothing for Delete and CleanupConnections)
    and an error that is not [nil]: the transport error, wrapped with the
    static message of the request stage. *)
Theorem transport_failure_returns_zero_value :
  forall (api : API) (ctx : Context) (op : Operation) (res : string) (e : error),
  api (requestOf ctx op) = (res, Some e) ->
  run api (perform ctx op)
  = (zeroValue op, Some (withMessage e errMakeRequestError)).
Proof.
  intros api ctx op res e H.
  destruct op; cbn [requestOf] in H; open_method; rewrite H; reflexivity.
Qed.

(** C3. Whenever the transport succeeds and the bytes do not unmarshal into
    the envelope type of the operation, the operation returns its zero value
    and an error that is not [nil]: the JSON error, wrapped with the static
    message of the decode stage. And whatever the client answers, a result
    that comes with an error is the zero value: nothing that was decoded
    before the failure is returned. *)
Theorem decode_failure_returns_zero_value :
  forall (api : API) (ctx : Context) (op : Operation) (res : string) (e : error),
  api (requestOf ctx op) = (res, None) ->
  envelopeError op res = Some e ->
  run api (perform ctx op) = (zeroValue op, Some (withMessage e errUnmarshalError))
  /\ (forall (api' : API) (r : Returned) (e' : error),
        run api' (perform ctx op) = (r, Some e') -> r = zeroValue op).
Proof.
  intros api ctx op res e H He. split.
  - destruct op; cbn [requestOf] in H; cbn [envelopeError] in He;
      open_method; rewrite H;
      match goal with
      | |- context [Unmarshal ?dec ?r ?z] =>
        destruct (Unmarshal dec r z) as [v err]
      end;
      cbn [snd] in He; subst err; reflexivity.
  - intros api' r e' Hrun.
    destruct op; open_method; revert Hrun; open_method;
      match goal with
      | |- context [api' ?q] => destruct (api' q) as [res' [e1|]]
      end;
      cbn;
      try (intros Hrun; inversion Hrun; reflexivity);
      match goal with
      | |- context [Unmarshal ?dec ?r' ?z] =>
        destruct (Unmarshal dec r' z) as [v [e2|]]
      end;
      cbn; intros Hrun; inversion Hrun; reflexivity.
Qed.

(** C4. When the transport succeeds and the response decodes into the
    envelope, Delete and CleanupConnections return no error, whatever the
    decoded envelope holds: its success flag and its list of errors are
    never looked at. *)
Theorem delete_ignores_the_envelope_status :
  forall (api : API) (ctx : Context) (accountID tunnelID res : string)
         (envelope : ArgoTunnelDetailResponse),
  Unmarshal decode_ArgoTunnelDetailResponse res
    (DetailResponse_zero ArgoTunnel_zero) = (envelope, None) ->
  (api (requestOf ctx (Delete accountID tunnelID)) = (res, None) ->
   run api (DeleteArgoTunnel ctx accountID tunnelID) = None)
  /\ (api (requestOf ctx (CleanupConnections accountID tunnelID)) = (res, None) ->
      run api (CleanupArgoTunnelConnections ctx accountID tunnelID) = None).
Proof.
  intros api ctx accountID tunnelID res envelope Hdec.
  split; intros H; cbn [requestOf] in H; open_method; rewrite H, Hdec;
    reflexivity.
Qed.

(** C5. Create sends a POST whose body is a partial tunnel: only [Name] and
    [Secret] are set, so the JSON of the body has the members [name] and
    [tunnel_secret] and no other, each left out when its value is the empty
    string. For the name [mytunnel] and the secret [s3cr3t] the body is
    the object with [name] set to [mytunnel] and [tunnel_secret] set to
    [s3cr3t], in this order and with no white space. *)
Theorem create_sends_name_and_secret :
  forall (api : API) (ctx : Context) (accountID name secret : string),
  issued api (CreateArgoTunnel ctx accountID name secret)
  = [{| ctx := ctx; method := "POST";
        uri := "/accounts/" ++ accountID ++ "/tunnels";
        params := Some {| ID := ""; Name := name; Secret := secret;
                          CreatedAt := None; DeletedAt := None;
                          Connections := None |} |}]
  /\ Marshal_ArgoTunnel {| ID := ""; Name := name; Secret := secret;
                           CreatedAt := None; DeletedAt := None;
                           Connections := None |}
     = Some ("{" ++ join ","
               (app (if String.eqb name "" then []
                     else [literal "name" ++ ":" ++ quote name])
                    (if String.eqb secret "" then []
                     else [literal "tunnel_secret" ++ ":" ++ quote secret]))
             ++ "}")
  /\ Marshal_ArgoTunnel {| ID := ""; Name := "mytunnel"; Secret := "s3cr3t";
                           CreatedAt := None; DeletedAt := None;
                           Connections := None |}
     = Some ("{" ++ literal "name" ++ ":" ++ literal "mytunnel" ++ ","
             ++ literal "tunnel_secret" ++ ":" ++ literal "s3cr3t" ++ "}").
Proof.
  intros api ctx accountID name secret. split; [|split].
  - open_method.
    destruct (api _) as [res [e|]]; [reflexivity|].
    destruct (Unmarshal _ res _) as [v [e|]]; reflexivity.
  - unfold Marshal_ArgoTunnel.
    cbn [encodeTime CreatedAt DeletedAt ID Name Secret Connections isEmptySlice].
    destruct (String.eqb name ""), (String.eqb secret ""); reflexivity.
  - reflexivity.
Qed.

(** What [Unmarshal] scans of a JSON text nested within the limit. *)
Lemma Denotes_parses (res : string) (j : JSON) :
  json_text.Denotes res j ->
  (nesting j <=? maxNestingDepth)%N = true ->
  parse res = Some j.
Proof.
  intros Hj Hdepth. now rewrite (json_text.Denotes_parse res j Hj), Hdepth.
Qed.

(** C6. For every response that is a JSON text of the single-result
    envelope shape, Get and Create return, with no error, the tunnel whose
    fields are the members of the [result] object, name by name; every
    field whose member is omitted holds its zero value. A JSON text and
    the value it denotes are those of the grammar of RFC 8259
    ([json_text.Denotes]: white space, numbers, strings with their escapes,
    arrays, objects), not what the scanner makes of the text; the text is
    nested no deeper than the scanner allows. The shape is
    [singleEnvelopeOK]: objects with distinct keys, each the exact name of
    a field or a key that selects no field, and members of the kind of
    their field. *)
Theorem get_and_create_return_the_result_object :
  forall (api : API) (ctx : Context) (accountID tunnelID name secret res : string)
         (j : JSON),
  json_text.Denotes res j ->
  (nesting j <=? maxNestingDepth)%N = true ->
  singleEnvelopeOK j = true ->
  (api (requestOf ctx (Get accountID tunnelID)) = (res, None) ->
   run api (API_ArgoTunnel ctx accountID tunnelID)
   = (readTunnel (member "result" (Some j)), None))
  /\ (api (requestOf ctx (Create accountID name secret)) = (res, None) ->
      run api (CreateArgoTunnel ctx accountID name secret)
      = (readTunnel (member "result" (Some j)), None))
  /\ omittedAreZero (member "result" (Some j))
       (readTunnel (member "result" (Some j))).
Proof.
  intros api ctx accountID tunnelID name secret res j Hj Hdepth Hok.
  pose proof (Denotes_parses res j Hj Hdepth) as Hp.
  destruct (Unmarshal_single res j Hp Hok) as [e He].
  split; [|split].
  - intros H. cbn [requestOf] in H. open_method. now rewrite H, He.
  - intros H. cbn [requestOf] in H. open_method. now rewrite H, He.
  - unfold omittedAreZero, readTunnel.
    cbn [ID Name Secret CreatedAt DeletedAt Connections].
    repeat split; intros ->; reflexivity.
Qed.

(** C7. For every response that is a JSON text of the multi-result
    envelope shape ([multiEnvelopeOK]), List returns, with no error, the
    tunnels of the [result] array: as many as the array has elements, the
    tunnel at each position read from the element at that position. The
    array and its elements are those the text denotes by the grammar of
    RFC 8259 ([json_text.Denotes]), in the order of the text; the text is
    nested no deeper than the scanner allows. *)
Theorem list_keeps_length_and_order :
  forall (api : API) (ctx : Context) (accountID res : string) (j : JSON)
         (elems : list JSON),
  json_text.Denotes res j ->
  (nesting j <=? maxNestingDepth)%N = true ->
  multiEnvelopeOK j = true ->
  member "result" (Some j) = Some (JArray elems) ->
  api (requestOf ctx (List accountID)) = (res, None) ->
  exists l : list ArgoTunnel,
    run api (ArgoTunnels ctx accountID) = (Some l, None)
    /\ length l = length elems
    /\ (forall (i : nat) (x : JSON),
          nth_error elems i = Some x ->
          nth_error l i = Some (readTunnel (Some x))).
Proof.
  intros api ctx accountID res j elems Hj Hdepth Hok Hres H.
  pose proof (Denotes_parses res j Hj Hdepth) as Hp.
  destruct (Unmarshal_multi res j Hp Hok) as [e He].
  exists (map (fun x => readTunnel (Some x)) elems). split; [|split].
  - cbn [requestOf] in H. open_method. rewrite H, He, Hres. reflexivity.
  - apply length_map.
  - intros i x Hx. now rewrite nth_error_map, Hx.
Qed.

(** C8 (as amended). None of the three fields of a connection is required
    when a connection is decoded. A connection object whose members have
    distinct keys, each the exact name of a field or a key that selects no
    field, and values of the kind of their field ([null] allowed) decodes
    with no error whichever of [colo_name], [uuid] and
    [is_pending_reconnect] it has or omits. Each member that is present is
    stored in its field; a field whose member is omitted keeps the value
    the variable decoded into held before, which is the zero value (the
    empty string, [false]) when that variable is fresh. *)
Theorem connection_fields_are_optional_when_decoding :
  forall (ms : list (string * JSON)) (v : ArgoTunnelConnection)
         (d : decodeState),
  membersOK fields_ArgoTunnelConnection connectionValueOK ms = true ->
  abort d = None ->
  decode_ArgoTunnelConnection (JObject ms) v d
  = ({| ColoName := textOr (ColoName v) (lookup "colo_name" ms);
        UUID := textOr (UUID v) (lookup "uuid" ms);
        IsPendingReconnect :=
          flagOr (IsPendingReconnect v) (lookup "is_pending_reconnect" ms) |},
     d)
  /\ (lookup "colo_name" ms = None ->
      textOr (ColoName v) (lookup "colo_name" ms) = ColoName v)
  /\ (lookup "uuid" ms = None ->
      textOr (UUID v) (lookup "uuid" ms) = UUID v)
  /\ (lookup "is_pending_reconnect" ms = None ->
      flagOr (IsPendingReconnect v) (lookup "is_pending_reconnect" ms)
      = IsPendingReconnect v)
  /\ (v = ArgoTunnelConnection_zero ->
      decode_ArgoTunnelConnection (JObject ms) v d
      = (readConnection (Some (JObject ms)), d)).
Proof.
  intros ms v d Hok Hd.
  assert (Hdec : decode_ArgoTunnelConnection (JObject ms) v d
                 = ({| ColoName := textOr (ColoName v) (lookup "colo_name" ms);
                       UUID := textOr (UUID v) (lookup "uuid" ms);
                       IsPendingReconnect :=
                         flagOr (IsPendingReconnect v)
                           (lookup "is_pending_reconnect" ms) |}, d)).
  { unfold decode_ArgoTunnelConnection, decodeStruct.
    exact (object_ArgoTunnelConnection _ _ _ Hok Hd). }
  split; [exact Hdec|]. split; [now intros ->|]. split; [now intros ->|].
  split; [now intros ->|].
  intros ->. rewrite Hdec. reflexivity.
Qed.

(** C9. A response that decodes with no error and has no [result] member,
    or a [null] one, makes List return the [nil] sequence with no error:
    on the success path the result is what was decoded, not a fresh empty
    sequence. *)
Theorem list_returns_nil_without_result :
  forall (api : API) (ctx : Context) (accountID res : string) (j : JSON),
  parse res = Some j ->
  multiEnvelopeOK j = true ->
  member "result" (Some j) = None \/ member "result" (Some j) = Some JNull ->
  api (requestOf ctx (List accountID)) = (res, None) ->
  run api (ArgoTunnels ctx accountID) = (None, None)
  /\ run api (ArgoTunnels ctx accountID) <> (Some [], None).
Proof.
  intros api ctx accountID res j Hp Hok Hres H.
  destruct (Unmarshal_multi res j Hp Hok) as [e He].
  assert (Hrun : run api (ArgoTunnels ctx accountID) = (None, None)).
  { cbn [requestOf] in H. open_method. rewrite H, He.
    destruct Hres as [-> | ->]; reflexivity. }
  split; [exact Hrun | rewrite Hrun; discriminate].
Qed.

(** The three ways an operation ends, by the reply to its request. *)
Lemma run_perform (api : API) (ctx : Context) (op : Operation) (res : string)
  (e : option error) :
  api (requestOf ctx op) = (res, e) ->
  run api (perform ctx op)
  = match e with
    | Some e' => (zeroValue op, Some (withMessage e' errMakeRequestError))
    | None =>
      match envelopeError op res with
      | Some e' => (zeroValue op, Some (withMessage e' errUnmarshalError))
      | None => (decoded op res, None)
      end
    end.
Proof.
  intros H.
  destruct op; cbn [requestOf] in H; cbn [envelopeError decoded];
    open_method; rewrite H; destruct e as [e'|]; try reflexivity;
    match goal with
    | |- context [Unmarshal ?dec ?r ?z] =>
      destruct (Unmarshal dec r z) as [v [e2|]]
    end;
    reflexivity.
Qed.

(** C10. An operation is a function of what the transport answers: for two
    clients whose [makeRequestContext] returns the same bytes and errors
    that are both [nil] or both not, the operation returns the same result
    and errors of the same stage; when the two errors are equal as well,
    all that is returned is equal. *)
Theorem operations_depend_on_the_reply_only :
  forall (api1 api2 : API) (ctx : Context) (op : Operation) (res : string)
         (e1 e2 : option error),
  api1 (requestOf ctx op) = (res, e1) ->
  api2 (requestOf ctx op) = (res, e2) ->
  (e1 = None <-> e2 = None) ->
  fst (run api1 (perform ctx op)) = fst (run api2 (perform ctx op))
  /\ stage (snd (run api1 (perform ctx op)))
     = stage (snd (run api2 (perform ctx op)))
  /\ (e1 = e2 -> run api1 (perform ctx op) = run api2 (perform ctx op)).
Proof.
  intros api1 api2 ctx op res e1 e2 H1 H2 Hsame.
  rewrite (run_perform _ _ _ _ _ H1), (run_perform _ _ _ _ _ H2).
  destruct e1 as [x1|], e2 as [x2|].
  - repeat split. now intros [= ->].
  - destruct Hsame as [_ Hsame]. now specialize (Hsame eq_refl).
  - destruct Hsame as [Hsame _]. now specialize (Hsame eq_refl).
  - now destruct (envelopeError op res).
Qed.

(** ** Further properties of the methods *)

(** *** Paths and identifiers *)

(** A text with no slash in it. *)
Fixpoint noSlash (s : string) : bool :=
  match s with
  | EmptyString => true
  | String c r => negb (Ascii.eqb c "/") && noSlash r
  end.

(** The identifiers of an operation that end up in its path. *)
Definition pathIdentifiers (op : Operation) : list string :=
  match op with
  | List a | Create a _ _ => [a]
  | Get a t | Delete a t | CleanupConnections a t => [a; t]
  end.

Lemma first_slash (a : string) :
  forall a' x y : string,
  noSlash a = true -> noSlash a' = true ->
  a ++ String "/" x = a' ++ String "/" y -> a = a' /\ x = y.
Proof.
  induction a as [|c a IH]; intros [|c' a'] x y Ha Ha' H; simpl in *.
  - injection H as ->. now split.
  - injection H as <- _. discriminate Ha'.
  - injection H as -> _. discriminate Ha.
  - injection H as -> H.
    apply andb_true_iff in Ha. apply andb_true_iff in Ha'.
    destruct (IH a' x y (proj2 Ha) (proj2 Ha') H) as [-> ->]. now split.
Qed.

Lemma noSlash_app (x y : string) : noSlash (x ++ String "/" y) = false.
Proof.
  induction x as [|c x IH]; simpl; [reflexivity|].
  rewrite IH. apply andb_false_r.
Qed.

Lemma String_tail (c c' : ascii) (x y : string) :
  String c x = String c' y -> x = y.
Proof. now intros [= _ ->]. Qed.

Ltac peel H := repeat apply String_tail in H.

(** X1. When no identifier holds a slash, the request tells the operation
    and its arguments: two operations that issue the same request are the
    same operation on the same account, tunnel, name and secret. *)
Theorem request_determines_operation :
  forall (api api' : API) (ctx : Context) (op op' : Operation),
  forallb noSlash (pathIdentifiers op) = true ->
  forallb noSlash (pathIdentifiers op') = true ->
  issued api (perform ctx op) = issued api' (perform ctx op') ->
  op = op'.
Proof.
  intros api api' ctx op op' Hop Hop'.
  rewrite !perform_issues_requestOf. intros H.
  injection H as H. clear api api'.
  destruct op as [a|a t|a n s|a t|a t], op' as [a'|a' t'|a' n' s'|a' t'|a' t'];
    pose proof (f_equal method H) as Hm; pose proof (f_equal uri H) as Hu;
    pose proof (f_equal params H) as Hp; clear H;
    cbn [requestOf method uri params] in Hm, Hu, Hp;
    try discriminate Hm; try discriminate Hp; clear Hm;
    cbn [pathIdentifiers forallb] in Hop, Hop';
    rewrite ?andb_true_r in Hop, Hop';
    try (apply andb_true_iff in Hop; destruct Hop as [Hop Ht]);
    try (apply andb_true_iff in Hop'; destruct Hop' as [Hop' Ht']);
    cbn in Hu; peel Hu;
    apply (first_slash _ _ _ _ Hop Hop') in Hu; destruct Hu as [-> Hu];
    peel Hu; try discriminate Hu.
  - reflexivity.
  - now subst.
  - now injection Hp as -> ->.
  - now subst.
  - subst t. now rewrite noSlash_app in Ht.
  - subst t'. now rewrite noSlash_app in Ht'.
  - apply (first_slash _ _ _ _ Ht Ht') in Hu. now destruct Hu as [-> _].
Qed.

(** X2. Identifiers are not escaped, so a slash in one reaches the path:
    Delete on a tunnel identifier that ends in [/connections] issues the
    request of CleanupConnections on the identifier before it. *)
Theorem delete_reaches_the_connections_path :
  forall (api : API) (ctx : Context) (accountID tunnelID : string),
  issued api (DeleteArgoTunnel ctx accountID (tunnelID ++ "/connections"))
  = issued api (CleanupArgoTunnelConnections ctx accountID tunnelID).
Proof.
  intros api ctx accountID tunnelID. open_method.
  destruct (api _) as [res [e|]]; [reflexivity|].
  destruct (Unmarshal _ res _) as [v [e|]]; reflexivity.
Qed.

(** *** Delete and CleanupConnections check the response as Get does *)

(** X3. Delete and CleanupConnections decode the response into the envelope
    of Get and drop the result: on the same reply they return the very error
    Get returns, and none when Get returns none. *)
Theorem delete_fails_exactly_when_get_fails :
  forall (api : API) (ctx : Context) (accountID tunnelID : string)
         (reply : Reply),
  api (requestOf ctx (Get accountID tunnelID)) = reply ->
  api (requestOf ctx (Delete accountID tunnelID)) = reply ->
  api (requestOf ctx (CleanupConnections accountID tunnelID)) = reply ->
  run api (DeleteArgoTunnel ctx accountID tunnelID)
  = snd (run api (API_ArgoTunnel ctx accountID tunnelID))
  /\ run api (CleanupArgoTunnelConnections ctx accountID tunnelID)
     = snd (run api (API_ArgoTunnel ctx accountID tunnelID)).
Proof.
  intros api ctx accountID tunnelID [res e] Hget Hdelete Hcleanup.
  cbn [requestOf] in Hget, Hdelete, Hcleanup.
  split; open_method; rewrite Hget, ?Hdelete, ?Hcleanup;
    (destruct e as [e|]; [reflexivity|]);
    destruct (Unmarshal _ res _) as [v [e|]]; reflexivity.
Qed.

(** *** Which responses decode

    A JSON value has the type of a struct when it is [null] or an object
    in which every member matched to a field has the type of that field;
    keys may repeat, and are matched to the fields as [json_keys.matchField]
    says: exactly, else without regard to case. A value has the
    type of a slice when it is [null] or an array of values of the element
    type. *)

Definition typedStruct (fields : list string)
  (valueTyped : string -> JSON -> bool) (j : JSON) : bool :=
  match j with
  | JNull => true
  | JObject ms =>
    forallb (fun m => match json_keys.matchField fields (fst m) with
                      | Some f => valueTyped f (snd m)
                      | None => true
                      end) ms
  | _ => false
  end.

Definition connectionTyped : JSON -> bool :=
  typedStruct fields_ArgoTunnelConnection connectionValueOK.

Definition tunnelValueTyped (f : string) (j : JSON) : bool :=
  if String.eqb f "id" then isText j
  else if String.eqb f "name" then isText j
  else if String.eqb f "tunnel_secret" then isText j
  else if String.eqb f "created_at" then isTime j
  else if String.eqb f "deleted_at" then isTime j
  else if String.eqb f "connections" then sliceOK connectionTyped j
  else true.

Definition tunnelTyped : JSON -> bool :=
  typedStruct fields_ArgoTunnel tunnelValueTyped.

Definition infoTyped : JSON -> bool :=
  typedStruct fields_ResponseInfo infoValueOK.

Definition envelopeValueTyped (resultTyped : JSON -> bool) (f : string)
  (j : JSON) : bool :=
  if String.eqb f "result" then resultTyped j
  else if String.eqb f "success" then isFlag j
  else if String.eqb f "errors" then sliceOK infoTyped j
  else if String.eqb f "messages" then sliceOK infoTyped j
  else true.

Definition singleTyped : JSON -> bool :=
  typedStruct fields_DetailResponse (envelopeValueTyped tunnelTyped).

Definition multiTyped : JSON -> bool :=
  typedStruct fields_DetailResponse (envelopeValueTyped (sliceOK tunnelTyped)).

(** The type a response must have for an operation. *)
Definition responseTyped (op : Operation) : JSON -> bool :=
  match op with
  | List _ => multiTyped
  | _ => singleTyped
  end.

(** A decoder agrees with a type: a value of the type leaves the decoding
    state as it was, any other value ends in an error, and an error that
    was recorded before is not lost. *)
Definition Sound {T : Type} (dec : Decoder T) (ty : JSON -> bool) : Prop :=
  forall (j : JSON) (v : T) (d : decodeState),
  abort d = None ->
  (ty j = true -> snd (dec j v d) = d)
  /\ (ty j = false -> outcome (snd (dec j v d)) <> None)
  /\ (savedError d <> None -> outcome (snd (dec j v d)) <> None).

Lemma outcome_saved (d : decodeState) :
  abort d = None -> outcome d = savedError d.
Proof. unfold outcome. now intros ->. Qed.

Lemma outcome_saveError (e : error) (d : decodeState) :
  abort d = None -> outcome (saveError e d) <> None.
Proof.
  intros Hd. unfold saveError.
  destruct (savedError d) as [e'|] eqn:E.
  - rewrite (outcome_saved _ Hd), E. discriminate.
  - unfold outcome. cbn. rewrite Hd. discriminate.
Qed.

Ltac sound_cases :=
  intros j v d Hd;
  destruct j; cbn -[parseInt];
  repeat split; intros H;
  try discriminate H; try reflexivity;
  try (now apply outcome_saveError);
  try (rewrite (outcome_saved _ Hd); exact H).

Lemma decodeString_sound : Sound decodeString isText.
Proof. sound_cases. Qed.

Lemma decodeBool_sound : Sound decodeBool isFlag.
Proof. sound_cases. Qed.

Lemma decodeInt_sound : Sound decodeInt isInt.
Proof.
  sound_cases; destruct (parseInt lit); cbn;
    try discriminate H; try reflexivity;
    try (now apply outcome_saveError);
    try (rewrite (outcome_saved _ Hd); exact H).
Qed.

Lemma decodeTime_sound : Sound decodeTime isTime.
Proof.
  sound_cases; try (cbn; discriminate);
    unfold decodeTime, decodePtrUnmarshaler, Time_UnmarshalJSON;
    cbn in H |- *; destruct (parseRFC3339 raw); cbn;
    try discriminate H; try reflexivity; try discriminate;
    try (rewrite (outcome_saved _ Hd); exact H).
Qed.

Lemma findField_In (fields : list string) (k f : string) :
  findField fields k = Some f -> In f fields.
Proof.
  unfold findField.
  destruct (existsb (String.eqb k) fields) eqn:E.
  - intros [= <-]. apply existsb_exists in E. destruct E as [x [Hin Hx]].
    apply String.eqb_eq in Hx. now subst.
  - intros F. apply find_some in F. exact (proj1 F).
Qed.

Lemma saved_of_outcome (d : decodeState) :
  abort d = None -> outcome d <> None -> savedError d <> None.
Proof. intros Hd. now rewrite (outcome_saved _ Hd). Qed.

Lemma object_sound {T : Type} (fields : list string)
  (store : string -> Decoder T) (valueTyped : string -> JSON -> bool) :
  (forall f, In f fields -> Sound (store f) (valueTyped f)) ->
  forall (ms : list (string * JSON)) (v : T) (d : decodeState),
  abort d = None ->
  (typedStruct fields valueTyped (JObject ms) = true ->
   snd (object fields store ms v d) = d)
  /\ (typedStruct fields valueTyped (JObject ms) = false ->
      outcome (snd (object fields store ms v d)) <> None)
  /\ (savedError d <> None ->
      outcome (snd (object fields store ms v d)) <> None).
Proof.
  intros Hstore. cbn [typedStruct].
  induction ms as [|[k j] ms IH]; intros v d Hd.
  - cbn. repeat split; intros H; try discriminate H.
    now rewrite (outcome_saved _ Hd).
  - cbn [object forallb fst snd].
    rewrite <- json_keys.findField_matchField.
    destruct (findField fields k) as [f|] eqn:Ef.
    + destruct (Hstore f (findField_In _ _ _ Ef) j v d Hd) as (S1 & S2 & S3).
      destruct (store f j v d) as [v1 d1]. cbn [snd] in S1, S2, S3.
      destruct (abort d1) as [e|] eqn:Hd1.
      * cbn [snd].
        assert (Hout : outcome d1 <> None)
          by (unfold outcome; rewrite Hd1; discriminate).
        repeat split; intros H; try exact Hout.
        apply andb_true_iff in H. destruct H as [H _].
        rewrite (S1 H), Hd in Hd1. discriminate Hd1.
      * destruct (IH v1 d1 Hd1) as (I1 & I2 & I3).
        repeat split; intros H.
        -- apply andb_true_iff in H. destruct H as [H1 H2].
           rewrite (I1 H2). exact (S1 H1).
        -- apply andb_false_iff in H. destruct H as [H|H].
           ++ apply I3. apply (saved_of_outcome _ Hd1). exact (S2 H).
           ++ exact (I2 H).
        -- apply I3. apply (saved_of_outcome _ Hd1). exact (S3 H).
    + rewrite Hd. cbn [andb]. exact (IH v d Hd).
Qed.

Lemma decodeStruct_sound {T : Type} (fields : list string)
  (store : string -> Decoder T) (valueTyped : string -> JSON -> bool)
  (tyname : string) :
  (forall f, In f fields -> Sound (store f) (valueTyped f)) ->
  Sound (decodeStruct fields store tyname) (typedStruct fields valueTyped).
Proof.
  intros Hstore j v d Hd.
  destruct j as [| | | | |ms];
    try (cbn; repeat split; intros H; try discriminate H; try reflexivity;
         try (now apply outcome_saveError);
         rewrite (outcome_saved _ Hd); exact H).
  exact (object_sound fields store valueTyped Hstore ms v d Hd).
Qed.

Lemma array_sound {T : Type} (zero : T) (elem : Decoder T) (ty : JSON -> bool) :
  Sound elem ty ->
  forall (elems : list JSON) (old : list T) (d : decodeState),
  abort d = None ->
  (forallb ty elems = true -> snd (array zero elem elems old d) = d)
  /\ (forallb ty elems = false ->
      outcome (snd (array zero elem elems old d)) <> None)
  /\ (savedError d <> None ->
      outcome (snd (array zero elem elems old d)) <> None).
Proof.
  intros Helem.
  induction elems as [|j elems IH]; intros old d Hd.
  - cbn. repeat split; intros H; try discriminate H.
    now rewrite (outcome_saved _ Hd).
  - cbn [array forallb].
    destruct (Helem j (hd zero old) d Hd) as (S1 & S2 & S3).
    destruct (elem j (hd zero old) d) as [x d1]. cbn [snd] in S1, S2, S3.
    destruct (abort d1) as [e|] eqn:Hd1.
    + cbn [snd].
      assert (Hout : outcome d1 <> None)
        by (unfold outcome; rewrite Hd1; discriminate).
      repeat split; intros H; try exact Hout.
      apply andb_true_iff in H. destruct H as [H _].
      rewrite (S1 H), Hd in Hd1. discriminate Hd1.
    + destruct (IH (tl old) d1 Hd1) as (I1 & I2 & I3).
      destruct (array zero elem elems (tl old) d1) as [xs d2].
      cbn [snd] in *.
      repeat split; intros H.
      * apply andb_true_iff in H. destruct H as [H1 H2].
        rewrite (I1 H2). exact (S1 H1).
      * apply andb_false_iff in H. destruct H as [H|H].
        -- apply I3. apply (saved_of_outcome _ Hd1). exact (S2 H).
        -- exact (I2 H).
      * apply I3. apply (saved_of_outcome _ Hd1). exact (S3 H).
Qed.

Lemma decodeSlice_sound {T : Type} (zero : T) (elem : Decoder T)
  (ty : JSON -> bool) (tyname : string) :
  Sound elem ty -> Sound (decodeSlice zero elem tyname) (sliceOK ty).
Proof.
  intros Helem j v d Hd.
  destruct j as [| | | |elems|];
    try (cbn; repeat split; intros H; try discriminate H; try reflexivity;
         try (now apply outcome_saveError);
         rewrite (outcome_saved _ Hd); exact H).
  cbn [decodeSlice sliceOK].
  pose proof (array_sound zero elem ty Helem elems
                (match v with Some l => l | None => [] end) d Hd) as HS.
  destruct (array zero elem elems _ d) as [l d']. exact HS.
Qed.

(** A field decoder inside a store: the state it leaves is the state the
    store leaves. *)
Ltac sound_field L :=
  intros j v d Hd;
  cbn [store_ArgoTunnelConnection store_ArgoTunnel store_ResponseInfo
       store_Response store_DetailResponse String.eqb Ascii.eqb Bool.eqb
       connectionValueOK tunnelValueTyped infoValueOK envelopeValueTyped];
  match goal with
  | |- context [let (_, _) := ?dec j ?a d in _] =>
    pose proof (L j a d Hd) as HS; destruct (dec j a d) as [x d']; exact HS
  end.

Lemma store_ArgoTunnelConnection_sound (f : string) :
  In f fields_ArgoTunnelConnection ->
  Sound (store_ArgoTunnelConnection f) (connectionValueOK f).
Proof.
  intros Hin. simpl in Hin. destruct Hin as [<-|[<-|[<-|[]]]].
  - sound_field decodeString_sound.
  - sound_field decodeString_sound.
  - sound_field decodeBool_sound.
Qed.

Lemma decode_ArgoTunnelConnection_sound :
  Sound decode_ArgoTunnelConnection connectionTyped.
Proof.
  apply decodeStruct_sound. exact store_ArgoTunnelConnection_sound.
Qed.

Lemma store_ArgoTunnel_sound (f : string) :
  In f fields_ArgoTunnel -> Sound (store_ArgoTunnel f) (tunnelValueTyped f).
Proof.
  intros Hin. simpl in Hin.
  destruct Hin as [<-|[<-|[<-|[<-|[<-|[<-|[]]]]]]].
  - sound_field decodeString_sound.
  - sound_field decodeString_sound.
  - sound_field decodeString_sound.
  - sound_field decodeTime_sound.
  - sound_field decodeTime_sound.
  - sound_field (decodeSlice_sound ArgoTunnelConnection_zero
                   decode_ArgoTunnelConnection connectionTyped
                   "[]cloudflare.ArgoTunnelConnection"
                   decode_ArgoTunnelConnection_sound).
Qed.

Lemma decode_ArgoTunnel_sound : Sound decode_ArgoTunnel tunnelTyped.
Proof. apply decodeStruct_sound. exact store_ArgoTunnel_sound. Qed.

Lemma decode_ArgoTunnels_sound : Sound decode_ArgoTunnels (sliceOK tunnelTyped).
Proof. apply decodeSlice_sound. exact decode_ArgoTunnel_sound. Qed.

Lemma store_ResponseInfo_sound (f : string) :
  In f fields_ResponseInfo -> Sound (store_ResponseInfo f) (infoValueOK f).
Proof.
  intros Hin. simpl in Hin. destruct Hin as [<-|[<-|[]]].
  - sound_field decodeInt_sound.
  - sound_field decodeString_sound.
Qed.

Lemma decode_ResponseInfos_sound :
  Sound decode_ResponseInfos (sliceOK infoTyped).
Proof.
  apply decodeSlice_sound. apply decodeStruct_sound.
  exact store_ResponseInfo_sound.
Qed.

Lemma store_DetailResponse_sound {R : Type} (decodeResult : Decoder R)
  (resultTyped : JSON -> bool) (f : string) :
  Sound decodeResult resultTyped ->
  In f fields_DetailResponse ->
  Sound (store_DetailResponse decodeResult f) (envelopeValueTyped resultTyped f).
Proof.
  intros Hres Hin. simpl in Hin. destruct Hin as [<-|[<-|[<-|[<-|[]]]]].
  - sound_field Hres.
  - intros j v d Hd.
    cbn [store_DetailResponse store_Response String.eqb Ascii.eqb Bool.eqb
         envelopeValueTyped].
    pose proof (decodeBool_sound j (Success (embedded v)) d Hd) as HS.
    destruct (decodeBool j (Success (embedded v)) d) as [x d']. exact HS.
  - intros j v d Hd.
    cbn [store_DetailResponse store_Response String.eqb Ascii.eqb Bool.eqb
         envelopeValueTyped].
    pose proof (decode_ResponseInfos_sound j (Errors (embedded v)) d Hd) as HS.
    destruct (decode_ResponseInfos j (Errors (embedded v)) d) as [x d'].
    exact HS.
  - intros j v d Hd.
    cbn [store_DetailResponse store_Response String.eqb Ascii.eqb Bool.eqb
         envelopeValueTyped].
    pose proof (decode_ResponseInfos_sound j (Messages (embedded v)) d Hd) as HS.
    destruct (decode_ResponseInfos j (Messages (embedded v)) d) as [x d'].
    exact HS.
Qed.

(** [Unmarshal] returns no error exactly on the texts that scan to a value
    of the type. *)
Lemma Unmarshal_sound {T : Type} (dec : Decoder T) (ty : JSON -> bool)
  (res : string) (v : T) :
  Sound dec ty ->
  (snd (Unmarshal dec res v) = None
   <-> exists j, parse res = Some j /\ ty j = true).
Proof.
  intros Hdec. unfold Unmarshal.
  destruct (parse res) as [j|].
  - destruct (Hdec j v start eq_refl) as (S1 & S2 & _).
    destruct (dec j v start) as [v' d]. cbn [snd] in *.
    split.
    + intros H. exists j. split; [reflexivity|].
      destruct (ty j); [reflexivity|]. now destruct (S2 eq_refl).
    + intros [j' [[= <-] Hty]]. now rewrite (S1 Hty).
  - cbn. split; [discriminate|]. now intros [j [Hp _]].
Qed.

(** X4. An operation whose transport succeeds on a JSON text returns no
    error exactly when the text is nested no deeper than the scanner allows
    and the value it denotes has the type of the envelope: every member
    matched to a field, at every level, must have the kind of the field.
    The text and its value are those of the grammar of RFC 8259
    ([json_text.Denotes]); a key is matched to a field as
    [json_keys.matchField] says, exactly or else without regard to case. *)
Theorem operation_succeeds_iff_response_typed :
  forall (api : API) (ctx : Context) (op : Operation) (res : string) (j : JSON),
  json_text.Denotes res j ->
  api (requestOf ctx op) = (res, None) ->
  (snd (run api (perform ctx op)) = None
   <-> (nesting j <=? maxNestingDepth)%N = true /\ responseTyped op j = true).
Proof.
  intros api ctx op res j Hj H.
  rewrite (run_perform _ _ _ _ _ H).
  assert (Herr : envelopeError op res = None
                 <-> exists j, parse res = Some j /\ responseTyped op j = true).
  { destruct op; cbn [envelopeError responseTyped];
      apply Unmarshal_sound; apply decodeStruct_sound; intros f Hf;
      apply store_DetailResponse_sound;
      auto using decode_ArgoTunnel_sound, decode_ArgoTunnels_sound. }
  rewrite (json_text.Denotes_parse res j Hj) in Herr.
  assert (Hiff : envelopeError op res = None
                 <-> (nesting j <=? maxNestingDepth)%N = true
                     /\ responseTyped op j = true).
  { rewrite Herr. destruct (nesting j <=? maxNestingDepth)%N; split.
    - intros (j' & [= <-] & Hty). now split.
    - intros [_ Hty]. now exists j.
    - intros (j' & Hp & _). discriminate Hp.
    - intros [Hd _]. discriminate Hd. }
  destruct (envelopeError op res) as [e|]; cbn [snd].
  - split; [discriminate|]. intros Hty. apply Hiff in Hty. discriminate Hty.
  - split; [intros _; now apply Hiff | reflexivity].
Qed.
(** *** What the decoder reads of a response

    The decoder of a struct looks at the members matched to a field
    ([json_keys.matchField]) and at nothing else, and a key counts as the
    name of the field it is matched to. The normal form of a response
    keeps those members, under the names of their fields, at every level. *)

Fixpoint selected (fields : list string) (ms : list (string * JSON))
  : list (string * JSON) :=
  match ms with
  | [] => []
  | (k, j) :: r =>
    match json_keys.matchField fields k with
    | Some f => (f, j) :: selected fields r
    | None => selected fields r
    end
  end.

Definition normalStruct (fields : list string) (sub : string -> JSON -> JSON)
  (j : JSON) : JSON :=
  match j with
  | JObject ms =>
    JObject (map (fun m => (fst m, sub (fst m) (snd m))) (selected fields ms))
  | _ => j
  end.

Definition normalSlice (sub : JSON -> JSON) (j : JSON) : JSON :=
  match j with
  | JArray l => JArray (map sub l)
  | _ => j
  end.

Definition normalConnection : JSON -> JSON :=
  normalStruct fields_ArgoTunnelConnection (fun _ x => x).

Definition normalTunnel : JSON -> JSON :=
  normalStruct fields_ArgoTunnel
    (fun f x => if String.eqb f "connections"
                then normalSlice normalConnection x else x).

Definition normalInfo : JSON -> JSON :=
  normalStruct fields_ResponseInfo (fun _ x => x).

Definition normalEnvelope (normalResult : JSON -> JSON) : JSON -> JSON :=
  normalStruct fields_DetailResponse
    (fun f x => if String.eqb f "result" then normalResult x
                else if String.eqb f "errors" then normalSlice normalInfo x
                else if String.eqb f "messages" then normalSlice normalInfo x
                else x).

(** The normal form of a response to an operation. *)
Definition normalResponse (op : Operation) : JSON -> JSON :=
  match op with
  | List _ => normalEnvelope (normalSlice normalTunnel)
  | _ => normalEnvelope normalTunnel
  end.

(** A decoder does not tell a value from its normal form. *)
Definition Blind {T : Type} (dec : Decoder T) (norm : JSON -> JSON) : Prop :=
  forall (j : JSON) (v : T) (d : decodeState),
  abort d = None -> dec (norm j) v d = dec j v d.

Lemma findField_idem (fields : list string) (k f : string) :
  findField fields k = Some f -> findField fields f = Some f.
Proof.
  intros H. apply findField_In in H. unfold findField.
  assert (E : existsb (String.eqb f) fields = true).
  { apply existsb_exists. exists f. split; [exact H | apply String.eqb_refl]. }
  now rewrite E.
Qed.

Lemma object_blind {T : Type} (fields : list string)
  (store : string -> Decoder T) (sub : string -> JSON -> JSON) :
  (forall f, In f fields -> Blind (store f) (sub f)) ->
  forall (ms : list (string * JSON)) (v : T) (d : decodeState),
  abort d = None ->
  object fields store
    (map (fun m => (fst m, sub (fst m) (snd m))) (selected fields ms)) v d
  = object fields store ms v d.
Proof.
  intros Hstore.
  induction ms as [|[k j] ms IH]; intros v d Hd; [reflexivity|].
  cbn [selected object]. rewrite <- json_keys.findField_matchField.
  destruct (findField fields k) as [f|] eqn:Ef.
  - cbn [map object fst snd]. rewrite (findField_idem _ _ _ Ef).
    rewrite (Hstore f (findField_In _ _ _ Ef) j v d Hd).
    destruct (store f j v d) as [v1 d1].
    destruct (abort d1) eqn:Hd1; [reflexivity|]. now apply IH.
  - rewrite Hd. now apply IH.
Qed.

Lemma decodeStruct_blind {T : Type} (fields : list string)
  (store : string -> Decoder T) (sub : string -> JSON -> JSON)
  (tyname : string) :
  (forall f, In f fields -> Blind (store f) (sub f)) ->
  Blind (decodeStruct fields store tyname) (normalStruct fields sub).
Proof.
  intros Hstore j v d Hd. destruct j as [| | | | |ms]; try reflexivity.
  cbn [normalStruct decodeStruct]. now apply object_blind.
Qed.

Lemma array_blind {T : Type} (zero : T) (elem : Decoder T)
  (sub : JSON -> JSON) :
  Blind elem sub ->
  forall (elems : list JSON) (old : list T) (d : decodeState),
  abort d = None ->
  array zero elem (map sub elems) old d = array zero elem elems old d.
Proof.
  intros Helem.
  induction elems as [|j elems IH]; intros old d Hd; [reflexivity|].
  cbn [map array]. rewrite (Helem j (hd zero old) d Hd).
  destruct (elem j (hd zero old) d) as [x d1].
  destruct (abort d1) eqn:Hd1; [reflexivity|]. now rewrite IH.
Qed.

Lemma decodeSlice_blind {T : Type} (zero : T) (elem : Decoder T)
  (sub : JSON -> JSON) (tyname : string) :
  Blind elem sub -> Blind (decodeSlice zero elem tyname) (normalSlice sub).
Proof.
  intros Helem j v d Hd. destruct j as [| | | |elems|]; try reflexivity.
  cbn [normalSlice decodeSlice]. now rewrite (array_blind zero elem sub Helem).
Qed.

Lemma Blind_id {T : Type} (dec : Decoder T) : Blind dec (fun x => x).
Proof. now intros j v d Hd. Qed.

Ltac blind_field L :=
  intros j v d Hd;
  cbn [store_ArgoTunnelConnection store_ArgoTunnel store_ResponseInfo
       store_Response store_DetailResponse String.eqb Ascii.eqb Bool.eqb];
  rewrite ?(L j _ d Hd); reflexivity.

Lemma decode_ArgoTunnelConnection_blind :
  Blind decode_ArgoTunnelConnection normalConnection.
Proof.
  apply decodeStruct_blind. intros f _. apply Blind_id.
Qed.

Lemma store_ArgoTunnel_blind (f : string) :
  In f fields_ArgoTunnel ->
  Blind (store_ArgoTunnel f)
    (fun x => if String.eqb f "connections"
              then normalSlice normalConnection x else x).
Proof.
  intros Hin. simpl in Hin.
  destruct Hin as [<-|[<-|[<-|[<-|[<-|[<-|[]]]]]]];
    try (now intros j v d Hd).
  blind_field (decodeSlice_blind ArgoTunnelConnection_zero
                 decode_ArgoTunnelConnection normalConnection
                 "[]cloudflare.ArgoTunnelConnection"
                 decode_ArgoTunnelConnection_blind).
Qed.

Lemma decode_ArgoTunnel_blind : Blind decode_ArgoTunnel normalTunnel.
Proof. apply decodeStruct_blind. exact store_ArgoTunnel_blind. Qed.

Lemma decode_ArgoTunnels_blind :
  Blind decode_ArgoTunnels (normalSlice normalTunnel).
Proof. apply decodeSlice_blind. exact decode_ArgoTunnel_blind. Qed.

Lemma decode_ResponseInfos_blind :
  Blind decode_ResponseInfos (normalSlice normalInfo).
Proof.
  apply decodeSlice_blind. apply decodeStruct_blind.
  intros f _. apply Blind_id.
Qed.

Lemma store_DetailResponse_blind {R : Type} (decodeResult : Decoder R)
  (normalResult : JSON -> JSON) (f : string) :
  Blind decodeResult normalResult ->
  In f fields_DetailResponse ->
  Blind (store_DetailResponse decodeResult f)
    (fun x => if String.eqb f "result" then normalResult x
              else if String.eqb f "errors" then normalSlice normalInfo x
              else if String.eqb f "messages" then normalSlice normalInfo x
              else x).
Proof.
  intros Hres Hin. simpl in Hin. destruct Hin as [<-|[<-|[<-|[<-|[]]]]].
  - blind_field Hres.
  - now intros j v d Hd.
  - blind_field decode_ResponseInfos_blind.
  - blind_field decode_ResponseInfos_blind.
Qed.

Lemma Unmarshal_blind {T : Type} (dec : Decoder T) (norm : JSON -> JSON)
  (res res' : string) (j : JSON) (v : T) :
  Blind dec norm ->
  parse res = Some j -> parse res' = Some (norm j) ->
  Unmarshal dec res' v = Unmarshal dec res v.
Proof.
  intros Hdec Hp Hp'. unfold Unmarshal. rewrite Hp, Hp'.
  now rewrite (Hdec j v start eq_refl).
Qed.

Lemma Unmarshal_single_blind (res res' : string) (j : JSON) :
  parse res = Some j ->
  parse res' = Some (normalEnvelope normalTunnel j) ->
  Unmarshal decode_ArgoTunnelDetailResponse res'
    (DetailResponse_zero ArgoTunnel_zero)
  = Unmarshal decode_ArgoTunnelDetailResponse res
      (DetailResponse_zero ArgoTunnel_zero).
Proof.
  apply Unmarshal_blind. apply decodeStruct_blind. intros f Hf.
  apply store_DetailResponse_blind; [exact decode_ArgoTunnel_blind | exact Hf].
Qed.

Lemma Unmarshal_multi_blind (res res' : string) (j : JSON) :
  parse res = Some j ->
  parse res' = Some (normalEnvelope (normalSlice normalTunnel) j) ->
  Unmarshal decode_ArgoTunnelsDetailResponse res' (DetailResponse_zero None)
  = Unmarshal decode_ArgoTunnelsDetailResponse res (DetailResponse_zero None).
Proof.
  apply Unmarshal_blind. apply decodeStruct_blind. intros f Hf.
  apply store_DetailResponse_blind; [exact decode_ArgoTunnels_blind | exact Hf].
Qed.

(** The normal form of a value is nested no deeper than the value. *)
Lemma nesting_selected (fields : list string) (sub : string -> JSON -> JSON) :
  (forall f x, (nesting (sub f x) <= nesting x)%N) ->
  forall ms : list (string * JSON),
  (fold_right (fun m acc => N.max (nesting (snd m)) acc) 0
     (map (fun m => (fst m, sub (fst m) (snd m))) (selected fields ms))
   <= fold_right (fun m acc => N.max (nesting (snd m)) acc) 0 ms)%N.
Proof.
  intros Hsub. induction ms as [|[k j] ms IH]; [cbn; lia|].
  cbn [selected]. destruct (json_keys.matchField fields k) as [f|];
    cbn [map fold_right fst snd]; [pose proof (Hsub f j)|]; lia.
Qed.

Lemma nesting_normalStruct (fields : list string)
  (sub : string -> JSON -> JSON) (j : JSON) :
  (forall f x, (nesting (sub f x) <= nesting x)%N) ->
  (nesting (normalStruct fields sub j) <= nesting j)%N.
Proof.
  intros Hsub. destruct j as [| | | | |ms]; cbn [normalStruct]; try lia.
  cbn [nesting]. pose proof (nesting_selected fields sub Hsub ms). lia.
Qed.

Lemma nesting_normalSlice (sub : JSON -> JSON) (j : JSON) :
  (forall x, (nesting (sub x) <= nesting x)%N) ->
  (nesting (normalSlice sub j) <= nesting j)%N.
Proof.
  intros Hsub. destruct j as [| | | |l|]; cbn [normalSlice]; try lia.
  cbn [nesting].
  assert (H : (fold_right (fun x m => N.max (nesting x) m) 0 (map sub l)
               <= fold_right (fun x m => N.max (nesting x) m) 0 l)%N).
  { induction l as [|x l IH]; cbn [map fold_right]; [lia|].
    pose proof (Hsub x). lia. }
  lia.
Qed.

Lemma nesting_normalTunnel (j : JSON) :
  (nesting (normalTunnel j) <= nesting j)%N.
Proof.
  apply nesting_normalStruct. intros f x.
  destruct (String.eqb f "connections"); [|lia].
  apply nesting_normalSlice. intros y.
  apply nesting_normalStruct. intros; lia.
Qed.

Lemma nesting_normalEnvelope (normalResult : JSON -> JSON) (j : JSON) :
  (forall x, (nesting (normalResult x) <= nesting x)%N) ->
  (nesting (normalEnvelope normalResult j) <= nesting j)%N.
Proof.
  intros Hres. apply nesting_normalStruct. intros f x.
  destruct (String.eqb f "result"); [apply Hres|].
  destruct (String.eqb f "errors");
    [apply nesting_normalSlice; intros y; apply nesting_normalStruct;
     intros; lia|].
  destruct (String.eqb f "messages");
    [apply nesting_normalSlice; intros y; apply nesting_normalStruct;
     intros; lia|].
  lia.
Qed.

Lemma nesting_normalResponse (op : Operation) (j : JSON) :
  (nesting (normalResponse op j) <= nesting j)%N.
Proof.
  destruct op; cbn [normalResponse]; apply nesting_normalEnvelope;
    try exact nesting_normalTunnel.
  intros x. apply nesting_normalSlice. exact nesting_normalTunnel.
Qed.

(** X5. An operation does not tell a response from its normal form: members
    matched to no field are ignored, and a key matched to a field without
    regard to case ([json_keys.matchField]) counts as the name of the
    field, in the envelope, in a tunnel and in a connection alike. The two responses are
    JSON texts by the grammar of RFC 8259 ([json_text.Denotes]), the first
    nested no deeper than the scanner allows. *)
Theorem operation_reads_the_normal_form :
  forall (api api' : API) (ctx : Context) (op : Operation) (res res' : string)
         (j : JSON),
  json_text.Denotes res j ->
  json_text.Denotes res' (normalResponse op j) ->
  (nesting j <=? maxNestingDepth)%N = true ->
  api (requestOf ctx op) = (res, None) ->
  api' (requestOf ctx op) = (res', None) ->
  run api' (perform ctx op) = run api (perform ctx op).
Proof.
  intros api api' ctx op res res' j Hj Hj' Hdepth H H'.
  assert (Hp : parse res = Some j)
    by now rewrite (json_text.Denotes_parse res j Hj), Hdepth.
  assert (Hp' : parse res' = Some (normalResponse op j)).
  { rewrite (json_text.Denotes_parse res' _ Hj').
    replace (nesting (normalResponse op j) <=? maxNestingDepth)%N with true;
      [reflexivity|].
    symmetry. apply N.leb_le. apply N.leb_le in Hdepth.
    pose proof (nesting_normalResponse op j). lia. }
  rewrite (run_perform _ _ _ _ _ H), (run_perform _ _ _ _ _ H').
  destruct op; cbn [envelopeError decoded normalResponse] in *;
    rewrite ?(Unmarshal_single_blind _ _ _ Hp Hp'),
            ?(Unmarshal_multi_blind _ _ _ Hp Hp');
    reflexivity.
Qed.

(** *** What [Marshal] writes, [Unmarshal] reads back

    The struct tags name every field alike for writing and for reading, so
    a tunnel written by [json.Marshal] is read back by [json.Unmarshal].
    Two things do not survive: a byte that is not valid UTF-8 (written as
    U+FFFD), and the difference between no list of connections and an empty
    one ([omitempty] leaves both out). *)

Import json_roundtrip.

Definition textJSON (s : string) : JSON := JString (escaped s) s.

(** The value the text of a connection scans to. *)
Definition connectionJSON (c : ArgoTunnelConnection) : JSON :=
  JObject [("colo_name", textJSON (ColoName c));
           ("uuid", textJSON (UUID c));
           ("is_pending_reconnect", JBool (IsPendingReconnect c))].

Definition validConnection (c : ArgoTunnelConnection) : bool :=
  ValidString (ColoName c) && ValidString (UUID c).

Definition items {T : Type} (l : slice T) : list T :=
  match l with
  | Some x => x
  | None => []
  end.

(** The texts of a tunnel are valid UTF-8. *)
Definition validTunnel (t : ArgoTunnel) : bool :=
  ValidString (ID t) && ValidString (Name t) && ValidString (Secret t)
  && forallb validConnection (items (Connections t)).

(** The timestamp, when there is one, is written as a plain text that the
    reader of RFC 3339 reads as the same timestamp. *)
Definition readsBack (o : option Time) : Prop :=
  match o with
  | None => True
  | Some t =>
    exists text,
      formatRFC3339 t = Some text /\ plain text = true
      /\ parseRFC3339 text = Some t
  end.

(** A slice as it is after a round trip: an empty one is [nil]. *)
Definition emptyAsNil {T : Type} (l : slice T) : slice T :=
  match l with
  | Some (_ :: _) => l
  | _ => None
  end.

Definition asRead (t : ArgoTunnel) : ArgoTunnel :=
  {| ID := ID t; Name := Name t; Secret := Secret t; CreatedAt := CreatedAt t;
     DeletedAt := DeletedAt t; Connections := emptyAsNil (Connections t) |}.

Definition omit {A : Type} (empty : bool) (name : string) (x : A)
  : list (string * A) :=
  if empty then [] else [(name, x)].

Definition timeMember (name : string) (o : option Time)
  : list (string * JSON) :=
  match o with
  | None => []
  | Some t =>
    match formatRFC3339 t with
    | Some text => [(name, textJSON text)]
    | None => []
    end
  end.

Definition connectionsJSON (l : slice ArgoTunnelConnection) : JSON :=
  match l with
  | None => JNull
  | Some cs => JArray (map connectionJSON cs)
  end.

(** The value the text of a tunnel scans to. *)
Definition tunnelJSON (t : ArgoTunnel) : JSON :=
  JObject
    (omit (String.eqb (ID t) "") "id" (textJSON (ID t))
     ++ omit (String.eqb (Name t) "") "name" (textJSON (Name t))
     ++ omit (String.eqb (Secret t) "") "tunnel_secret" (textJSON (Secret t))
     ++ timeMember "created_at" (CreatedAt t)
     ++ timeMember "deleted_at" (DeletedAt t)
     ++ omit (isEmptySlice (Connections t)) "connections"
          (connectionsJSON (Connections t)))%list.

Lemma Marshal_ArgoTunnelConnection_scans (c : ArgoTunnelConnection) :
  validConnection c = true ->
  Scans 5 (Marshal_ArgoTunnelConnection c) (connectionJSON c).
Proof.
  intros H. apply andb_true_iff in H. destruct H as [Hc Hu].
  unfold Marshal_ArgoTunnelConnection, connectionJSON.
  cbn [field andb app].
  apply (encodeObject_scans 1 [_; _; _]).
  repeat first [apply Forall2_cons | apply Forall2_nil];
    (split; [reflexivity | split; [reflexivity|]]); cbn [fst snd].
  - now apply quote_scans.
  - now apply quote_scans.
  - apply flag_scans.
Qed.

Lemma decode_connectionJSON (c v : ArgoTunnelConnection) (d : decodeState) :
  abort d = None ->
  decode_ArgoTunnelConnection (connectionJSON c) v d = (c, d).
Proof.
  intros Hd. destruct c, d as [saved aborted]. cbn in Hd. subst aborted.
  reflexivity.
Qed.

(** X6. A connection written by [Marshal] is read back as it was, whatever
    the variable held before, when its two texts are valid UTF-8. *)
Theorem connection_survives_marshal_and_unmarshal :
  forall c v : ArgoTunnelConnection,
  ValidString (ColoName c) = true ->
  ValidString (UUID c) = true ->
  Unmarshal decode_ArgoTunnelConnection (Marshal_ArgoTunnelConnection c) v
  = (c, None).
Proof.
  intros c v Hc Hu. unfold Unmarshal.
  rewrite (Scans_parse 5 _ (connectionJSON c)).
  - now rewrite decode_connectionJSON.
  - apply Marshal_ArgoTunnelConnection_scans. unfold validConnection.
    now rewrite Hc, Hu.
  - reflexivity.
Qed.

Lemma field_scans (d : nat) (name text : string) (empty : bool) (j : JSON) :
  ValidString name = true -> Scans d text j ->
  Forall2 (MemberScans d) (field name true empty text) (omit empty name j).
Proof.
  intros Hn Hs. unfold field, omit. cbn [andb].
  destruct empty; constructor; [|constructor].
  repeat split; assumption.
Qed.

Lemma encodeTime_scans (d : nat) (name : string) (o : option Time) :
  ValidString name = true -> readsBack o -> 1 <= d ->
  exists ms,
    encodeTime name o = Some ms
    /\ Forall2 (MemberScans d) ms (timeMember name o).
Proof.
  intros Hn Hr Hd. destruct o as [t|]; cbn [encodeTime timeMember].
  - destruct Hr as (text & Hf & Hp & _). rewrite Hf.
    eexists; split; [reflexivity|]. constructor; [|constructor].
    repeat split; [exact Hn|]. cbn [snd].
    apply (Scans_more 1); [exact Hd|]. apply quote_scans, plain_valid, Hp.
  - eexists; split; [reflexivity | constructor].
Qed.

Lemma connections_scan (cs : list ArgoTunnelConnection) :
  forallb validConnection cs = true ->
  Forall2 (Scans 5) (map Marshal_ArgoTunnelConnection cs)
    (map connectionJSON cs).
Proof.
  induction cs as [|c cs IH]; intros H; cbn [map]; constructor;
    cbn [forallb] in H; apply andb_true_iff in H; destruct H as [Hc Hcs].
  - now apply Marshal_ArgoTunnelConnection_scans.
  - now apply IH.
Qed.

Lemma encodeConnections_scans (l : slice ArgoTunnelConnection) :
  forallb validConnection (items l) = true ->
  Scans (S (5 + length (items l))) (encodeConnections l) (connectionsJSON l).
Proof.
  intros H. destruct l as [cs|]; cbn [encodeConnections connectionsJSON items] in *.
  - pose proof (array_scans 5 _ _ (connections_scan cs H)) as Hs.
    now rewrite length_map in Hs.
  - apply (Scans_more 1); [lia | apply null_scans].
Qed.

Lemma Marshal_ArgoTunnel_scans (t : ArgoTunnel) :
  validTunnel t = true ->
  readsBack (CreatedAt t) -> readsBack (DeletedAt t) ->
  exists text d,
    Marshal_ArgoTunnel t = Some text /\ Scans d text (tunnelJSON t).
Proof.
  intros Hv Hc Hd. unfold validTunnel in Hv.
  apply andb_true_iff in Hv. destruct Hv as [Hv Hconns].
  apply andb_true_iff in Hv. destruct Hv as [Hv Hsecret].
  apply andb_true_iff in Hv. destruct Hv as [Hid Hname].
  set (d := S (5 + length (items (Connections t)))).
  destruct (encodeTime_scans d "created_at" _ eq_refl Hc ltac:(subst d; lia))
    as (created & Ecreated & Screated).
  destruct (encodeTime_scans d "deleted_at" _ eq_refl Hd ltac:(subst d; lia))
    as (deleted & Edeleted & Sdeleted).
  unfold Marshal_ArgoTunnel. rewrite Ecreated, Edeleted.
  eexists. eexists. split; [reflexivity|].
  unfold tunnelJSON. apply encodeObject_scans with (d := d).
  repeat apply Forall2_app; try assumption.
  - apply field_scans; [reflexivity|].
    apply (Scans_more 1); [subst d; lia | now apply quote_scans].
  - apply field_scans; [reflexivity|].
    apply (Scans_more 1); [subst d; lia | now apply quote_scans].
  - apply field_scans; [reflexivity|].
    apply (Scans_more 1); [subst d; lia | now apply quote_scans].
  - apply field_scans; [reflexivity|].
    now apply encodeConnections_scans.
Qed.

Lemma connectionOK_connectionJSON (c : ArgoTunnelConnection) :
  connectionOK (connectionJSON c) = true.
Proof. reflexivity. Qed.

Lemma connectionsOK_map (cs : list ArgoTunnelConnection) :
  forallb connectionOK (map connectionJSON cs) = true.
Proof.
  induction cs as [|c cs IH]; [reflexivity|].
  cbn [map forallb]. now rewrite connectionOK_connectionJSON, IH.
Qed.

Lemma readConnection_connectionJSON (c : ArgoTunnelConnection) :
  readConnection (Some (connectionJSON c)) = c.
Proof. now destruct c. Qed.

Lemma readConnections_map (cs : list ArgoTunnelConnection) :
  map (fun j => readConnection (Some j)) (map connectionJSON cs) = cs.
Proof.
  induction cs as [|c cs IH]; [reflexivity|].
  cbn [map]. now rewrite readConnection_connectionJSON, IH.
Qed.

Lemma nesting_connections (cs : list ArgoTunnelConnection) :
  (fold_right (fun x m => N.max (nesting x) m) 0 (map connectionJSON cs)
   <= 1)%N.
Proof.
  induction cs as [|c cs IH]; [cbn; lia|].
  cbn [map fold_right].
  change (nesting (connectionJSON c)) with 1%N. lia.
Qed.

(** A tunnel is written three levels deep at most: the tunnel, its list of
    connections, a connection. *)
Lemma nesting_tunnelJSON (t : ArgoTunnel) :
  (nesting (tunnelJSON t) <=? maxNestingDepth)%N = true.
Proof.
  apply N.leb_le. destruct t as [id name secret created deleted conns].
  unfold tunnelJSON, timeMember.
  cbn [ID Name Secret CreatedAt DeletedAt Connections].
  assert (Hconns : (nesting (connectionsJSON conns) <= 2)%N).
  { destruct conns as [cs|]; cbn [connectionsJSON nesting]; [|lia].
    pose proof (nesting_connections cs). lia. }
  set (k := nesting (connectionsJSON conns)) in *.
  destruct (String.eqb id ""), (String.eqb name ""), (String.eqb secret ""),
    created as [c|], deleted as [d|], (isEmptySlice conns);
    try destruct (formatRFC3339 c); try destruct (formatRFC3339 d);
    cbn [omit app fold_right nesting snd textJSON];
    fold k; unfold maxNestingDepth; lia.
Qed.

Lemma readsBack_cases (o : option Time) :
  readsBack o ->
  o = None
  \/ exists t text,
       o = Some t /\ formatRFC3339 t = Some text
       /\ parseRFC3339 (escaped text) = Some t.
Proof.
  destruct o as [t|]; [|now left]. intros (text & Hf & Hp & Hr). right.
  exists t, text. now rewrite (plain_escaped text Hp).
Qed.

Lemma eqb_empty (s : string) :
  (String.eqb s "" = true /\ s = "") \/ String.eqb s "" = false.
Proof. destruct s; [left | right]; auto. Qed.

(** The value scanned from the text of a tunnel has the shape of a tunnel,
    and reads as the tunnel. *)
Lemma tunnelJSON_reads (t : ArgoTunnel) :
  readsBack (CreatedAt t) -> readsBack (DeletedAt t) ->
  tunnelOK (tunnelJSON t) = true
  /\ readTunnel (Some (tunnelJSON t)) = asRead t.
Proof.
  intros Hc Hd. destruct t as [id name secret created deleted conns].
  cbn [CreatedAt DeletedAt] in Hc, Hd.
  unfold tunnelJSON, asRead. cbn [ID Name Secret CreatedAt DeletedAt Connections].
  apply readsBack_cases in Hc, Hd.
  destruct Hc as [-> | (c & ctext & -> & Hcf & Hcp)],
           Hd as [-> | (d & dtext & -> & Hdf & Hdp)];
    cbn [timeMember]; rewrite ?Hcf, ?Hdf;
    destruct (eqb_empty id) as [[-> ->] | ->],
             (eqb_empty name) as [[-> ->] | ->],
             (eqb_empty secret) as [[-> ->] | ->];
    destruct conns as [[|c0 cs]|]; cbn [isEmptySlice omit app emptyAsNil];
    try remember (c0 :: cs) as l;
    (split;
     [ unfold tunnelOK, structOK, membersOK, textJSON;
       cbn -[escaped connectionJSON connectionOK];
       rewrite ?Hcp, ?Hdp, ?connectionsOK_map; reflexivity
     | unfold readTunnel, textJSON;
       cbn -[escaped connectionJSON readConnection];
       rewrite ?Hcp, ?Hdp, ?readConnections_map; reflexivity ]).
Qed.

(** X7. A tunnel written by [Marshal] is read back by [Unmarshal] into a
    fresh variable as it was, an empty list of connections as [nil], when
    its texts are valid UTF-8 and its timestamps are read back as written. *)
Theorem tunnel_survives_marshal_and_unmarshal :
  forall t : ArgoTunnel,
  validTunnel t = true ->
  readsBack (CreatedAt t) ->
  readsBack (DeletedAt t) ->
  exists text : string,
    Marshal_ArgoTunnel t = Some text
    /\ Unmarshal decode_ArgoTunnel text ArgoTunnel_zero = (asRead t, None).
Proof.
  intros t Hv Hc Hd.
  destruct (Marshal_ArgoTunnel_scans t Hv Hc Hd) as (text & depth & Htext & Hs).
  destruct (tunnelJSON_reads t Hc Hd) as [Hok Hread].
  exists text. split; [exact Htext|].
  unfold Unmarshal. rewrite (Scans_parse _ _ _ Hs (nesting_tunnelJSON t)).
  now rewrite (decode_ArgoTunnel_fresh _ start Hok eq_refl), Hread.
Qed.

Lemma Marshal_ArgoTunnel_parses (t : ArgoTunnel) (text : string) :
  validTunnel t = true ->
  readsBack (CreatedAt t) -> readsBack (DeletedAt t) ->
  Marshal_ArgoTunnel t = Some text ->
  parse text = Some (tunnelJSON t).
Proof.
  intros Hv Hc Hd Htext.
  destruct (Marshal_ArgoTunnel_scans t Hv Hc Hd) as (text' & depth & Htext' & Hs).
  rewrite Htext in Htext'. injection Htext' as <-.
  exact (Scans_parse _ _ _ Hs (nesting_tunnelJSON t)).
Qed.

(** X8. Get and Create return a tunnel as the server wrote it: when the
    [result] of a well-shaped response is the text [Marshal] writes for the
    tunnel [t], they return [t], an empty list of connections as [nil]. *)
Theorem get_and_create_read_what_marshal_writes :
  forall (api : API) (ctx : Context) (accountID tunnelID name secret res : string)
         (j : JSON) (t : ArgoTunnel) (text : string),
  validTunnel t = true ->
  readsBack (CreatedAt t) ->
  readsBack (DeletedAt t) ->
  Marshal_ArgoTunnel t = Some text ->
  parse res = Some j ->
  singleEnvelopeOK j = true ->
  member "result" (Some j) = parse text ->
  (api (requestOf ctx (Get accountID tunnelID)) = (res, None) ->
   run api (API_ArgoTunnel ctx accountID tunnelID) = (asRead t, None))
  /\ (api (requestOf ctx (Create accountID name secret)) = (res, None) ->
      run api (CreateArgoTunnel ctx accountID name secret) = (asRead t, None)).
Proof.
  intros api ctx accountID tunnelID name secret res j t text Hv Hc Hd Htext
         Hp Hok Hresult.
  rewrite (Marshal_ArgoTunnel_parses t text Hv Hc Hd Htext) in Hresult.
  destruct (Unmarshal_single res j Hp Hok) as [e He].
  rewrite Hresult, (proj2 (tunnelJSON_reads t Hc Hd)) in He.
  split; intros H; cbn [requestOf] in H; open_method; now rewrite H, He.
Qed.

(** What the server wrote for each tunnel of a list. *)
Definition written (t : ArgoTunnel) (r : JSON) : Prop :=
  exists text, Marshal_ArgoTunnel t = Some text /\ parse text = Some r.

Definition survives (t : ArgoTunnel) : Prop :=
  validTunnel t = true /\ readsBack (CreatedAt t) /\ readsBack (DeletedAt t).

Lemma readTunnels_written (ts : list ArgoTunnel) (rs : list JSON) :
  Forall survives ts -> Forall2 written ts rs ->
  map (fun r => readTunnel (Some r)) rs = map asRead ts.
Proof.
  intros Hts H. induction H as [|t r ts rs (text & Htext & Hr) Hrest IH];
    [reflexivity|].
  inversion Hts as [|? ? (Hv & Hc & Hd) Hts']; subst.
  rewrite (Marshal_ArgoTunnel_parses t text Hv Hc Hd Htext) in Hr.
  injection Hr as <-. cbn [map].
  now rewrite (proj2 (tunnelJSON_reads t Hc Hd)), (IH Hts').
Qed.

(** X9. List returns the tunnels as the server wrote them: when the
    [result] of a well-shaped response is an array whose elements are the
    texts [Marshal] writes for the tunnels [ts], List returns [ts] in that
    order, each with an empty list of connections as [nil]. *)
Theorem list_reads_what_marshal_writes :
  forall (api : API) (ctx : Context) (accountID res : string) (j : JSON)
         (ts : list ArgoTunnel) (rs : list JSON),
  Forall survives ts ->
  Forall2 written ts rs ->
  parse res = Some j ->
  multiEnvelopeOK j = true ->
  member "result" (Some j) = Some (JArray rs) ->
  api (requestOf ctx (List accountID)) = (res, None) ->
  run api (ArgoTunnels ctx accountID) = (Some (map asRead ts), None).
Proof.
  intros api ctx accountID res j ts rs Hts Hw Hp Hok Hresult H.
  destruct (Unmarshal_multi res j Hp Hok) as [e He].
  rewrite Hresult in He. cbn [readTunnels] in He.
  rewrite (readTunnels_written ts rs Hts Hw) in He.
  cbn [requestOf] in H. open_method. now rewrite H, He.
Qed.

(** *** The order of the members of a response

    A JSON object is a set of members to a reader that looks a member up
    by its name. The decoder stores the members one after the other, so the
    order counts when two members select the same field; in a well-shaped
    response none do, and the order of the members, in the envelope, in a
    tunnel and in a connection, changes nothing. *)

Definition all2 {A B : Type} (f : A -> B -> bool) : list A -> list B -> bool :=
  fix go (l : list A) (l' : list B) : bool :=
    match l, l' with
    | [], [] => true
    | x :: r, x' :: r' => f x x' && go r r'
    | _, _ => false
    end.

(** The same JSON value but for the order of the members of its objects:
    every member of one object has a member of that name in the other,
    with the same value but for the order. *)
Fixpoint sameUpToOrder (j j' : JSON) : bool :=
  match j, j' with
  | JNull, JNull => true
  | JBool b, JBool b' => Bool.eqb b b'
  | JNumber lit, JNumber lit' => String.eqb lit lit'
  | JString raw s, JString raw' s' => String.eqb raw raw' && String.eqb s s'
  | JArray l, JArray l' => all2 sameUpToOrder l l'
  | JObject ms, JObject ms' =>
    forallb (fun m => match lookup (fst m) ms' with
                      | Some v' => sameUpToOrder (snd m) v'
                      | None => false
                      end) ms
    && forallb (fun m' => match lookup (fst m') ms with
                          | Some _ => true
                          | None => false
                          end) ms'
  | _, _ => false
  end.

(** Two members looked up by one name in values that are the same but for
    the order. *)
Definition sameMember (o o' : option JSON) : Prop :=
  match o, o' with
  | Some v, Some v' => sameUpToOrder v v' = true
  | None, None => True
  | _, _ => False
  end.

Lemma lookup_found (k : string) (ms : list (string * JSON)) (v : JSON) :
  lookup k ms = Some v -> In (k, v) ms.
Proof.
  induction ms as [|[k0 v0] ms IH]; [discriminate|]. cbn [lookup].
  destruct (String.eqb k0 k) eqn:E.
  - apply String.eqb_eq in E. subst k0. intros [= ->]. now left.
  - intros H. right. now apply IH.
Qed.

Lemma sameUpToOrder_lookup (ms ms' : list (string * JSON)) (k : string) :
  sameUpToOrder (JObject ms) (JObject ms') = true ->
  sameMember (lookup k ms) (lookup k ms').
Proof.
  cbn [sameUpToOrder]. intros H.
  apply andb_true_iff in H. destruct H as [Hfwd Hback].
  rewrite forallb_forall in Hfwd, Hback. unfold sameMember.
  destruct (lookup k ms) as [v|] eqn:E.
  - specialize (Hfwd _ (lookup_found _ _ _ E)). cbn [fst snd] in Hfwd.
    destruct (lookup k ms') as [v'|]; [exact Hfwd | discriminate Hfwd].
  - destruct (lookup k ms') as [v'|] eqn:E'; [|exact I].
    specialize (Hback _ (lookup_found _ _ _ E')). cbn [fst] in Hback.
    rewrite E in Hback. discriminate Hback.
Qed.

Lemma sameUpToOrder_member (j j' : JSON) (k : string) :
  sameUpToOrder j j' = true ->
  sameMember (member k (Some j)) (member k (Some j')).
Proof.
  destruct j as [| | | | |ms], j' as [| | | | |ms']; try discriminate;
    try (intros _; exact I).
  apply sameUpToOrder_lookup.
Qed.

Lemma sameMember_text (o o' : option JSON) :
  sameMember o o' -> readText o = readText o'.
Proof.
  destruct o as [v|], o' as [v'|]; try contradiction; [|reflexivity].
  destruct v, v'; try discriminate; try reflexivity.
  cbn [sameMember sameUpToOrder readText]. intros H.
  apply andb_true_iff in H. destruct H as [_ H]. now apply String.eqb_eq in H.
Qed.

Lemma sameMember_flag (o o' : option JSON) :
  sameMember o o' -> readFlag o = readFlag o'.
Proof.
  destruct o as [v|], o' as [v'|]; try contradiction; [|reflexivity].
  destruct v, v'; try discriminate; try reflexivity.
  cbn [sameMember sameUpToOrder readFlag]. intros H.
  now apply Bool.eqb_prop in H.
Qed.

Lemma sameMember_time (o o' : option JSON) :
  sameMember o o' -> readTime o = readTime o'.
Proof.
  destruct o as [v|], o' as [v'|]; try contradiction; [|reflexivity].
  destruct v, v'; try discriminate; try reflexivity.
  cbn [sameMember sameUpToOrder readTime]. intros H.
  apply andb_true_iff in H. destruct H as [H _].
  apply String.eqb_eq in H. now subst.
Qed.

Lemma sameUpToOrder_connection (j j' : JSON) :
  sameUpToOrder j j' = true ->
  readConnection (Some j) = readConnection (Some j').
Proof.
  intros H. unfold readConnection.
  now rewrite (sameMember_text _ _ (sameUpToOrder_member j j' "colo_name" H)),
    (sameMember_text _ _ (sameUpToOrder_member j j' "uuid" H)),
    (sameMember_flag _ _
       (sameUpToOrder_member j j' "is_pending_reconnect" H)).
Qed.

Lemma all2_map {T : Type} (read : JSON -> T) :
  (forall j j', sameUpToOrder j j' = true -> read j = read j') ->
  forall l l' : list JSON,
  all2 sameUpToOrder l l' = true -> map read l = map read l'.
Proof.
  intros Hread. induction l as [|x l IH]; intros [|x' l'] H;
    try discriminate H; [reflexivity|].
  cbn [all2] in H. apply andb_true_iff in H. destruct H as [Hx Hl].
  cbn [map]. now rewrite (Hread _ _ Hx), (IH _ Hl).
Qed.

Lemma sameMember_connections (o o' : option JSON) :
  sameMember o o' -> readConnections o = readConnections o'.
Proof.
  destruct o as [v|], o' as [v'|]; try contradiction; [|reflexivity].
  destruct v as [| | | |l|], v' as [| | | |l'|]; try discriminate;
    try reflexivity.
  cbn [sameMember sameUpToOrder readConnections]. intros H.
  now rewrite (all2_map (fun j => readConnection (Some j))
                 sameUpToOrder_connection l l' H).
Qed.

Lemma sameUpToOrder_tunnel (j j' : JSON) :
  sameUpToOrder j j' = true -> readTunnel (Some j) = readTunnel (Some j').
Proof.
  intros H. unfold readTunnel.
  now rewrite (sameMember_text _ _ (sameUpToOrder_member j j' "id" H)),
    (sameMember_text _ _ (sameUpToOrder_member j j' "name" H)),
    (sameMember_text _ _ (sameUpToOrder_member j j' "tunnel_secret" H)),
    (sameMember_time _ _ (sameUpToOrder_member j j' "created_at" H)),
    (sameMember_time _ _ (sameUpToOrder_member j j' "deleted_at" H)),
    (sameMember_connections _ _
       (sameUpToOrder_member j j' "connections" H)).
Qed.

Lemma sameMember_tunnel (o o' : option JSON) :
  sameMember o o' -> readTunnel o = readTunnel o'.
Proof.
  destruct o as [v|], o' as [v'|]; try contradiction; [|reflexivity].
  apply sameUpToOrder_tunnel.
Qed.

Lemma sameMember_tunnels (o o' : option JSON) :
  sameMember o o' -> readTunnels o = readTunnels o'.
Proof.
  destruct o as [v|], o' as [v'|]; try contradiction; [|reflexivity].
  destruct v as [| | | |l|], v' as [| | | |l'|]; try discriminate;
    try reflexivity.
  cbn [sameMember sameUpToOrder readTunnels]. intros H.
  now rewrite (all2_map (fun j => readTunnel (Some j))
                 sameUpToOrder_tunnel l l' H).
Qed.

(** The shape of the response to an operation. *)
Definition responseOK (op : Operation) : JSON -> bool :=
  match op with
  | List _ => multiEnvelopeOK
  | _ => singleEnvelopeOK
  end.

Lemma Unmarshal_single_result (res : string) (j : JSON) :
  parse res = Some j -> singleEnvelopeOK j = true ->
  envelopeError (Get "" "") res = None
  /\ Result (fst (Unmarshal decode_ArgoTunnelDetailResponse res
                    (DetailResponse_zero ArgoTunnel_zero)))
     = readTunnel (member "result" (Some j)).
Proof.
  intros Hp Hok. destruct (Unmarshal_single res j Hp Hok) as [e He].
  cbn [envelopeError]. now rewrite He.
Qed.

Lemma Unmarshal_multi_result (res : string) (j : JSON) :
  parse res = Some j -> multiEnvelopeOK j = true ->
  envelopeError (List "") res = None
  /\ Result (fst (Unmarshal decode_ArgoTunnelsDetailResponse res
                    (DetailResponse_zero None)))
     = readTunnels (member "result" (Some j)).
Proof.
  intros Hp Hok. destruct (Unmarshal_multi res j Hp Hok) as [e He].
  cbn [envelopeError]. now rewrite He.
Qed.

(** X10. Two well-shaped responses that are the same but for the order of the
    members of their objects give the same result, for every operation. *)
Theorem operations_ignore_member_order :
  forall (api api' : API) (ctx : Context) (op : Operation) (res res' : string)
         (j j' : JSON),
  parse res = Some j ->
  parse res' = Some j' ->
  responseOK op j = true ->
  responseOK op j' = true ->
  sameUpToOrder j j' = true ->
  api (requestOf ctx op) = (res, None) ->
  api' (requestOf ctx op) = (res', None) ->
  run api' (perform ctx op) = run api (perform ctx op).
Proof.
  intros api api' ctx op res res' j j' Hp Hp' Hok Hok' Hsame H H'.
  rewrite (run_perform _ _ _ _ _ H), (run_perform _ _ _ _ _ H').
  pose proof (sameUpToOrder_member j j' "result" Hsame) as Hresult.
  destruct op; cbn [responseOK] in Hok, Hok';
    try (destruct (Unmarshal_multi_result _ _ Hp Hok) as [He Hr],
                  (Unmarshal_multi_result _ _ Hp' Hok') as [He' Hr']);
    try (destruct (Unmarshal_single_result _ _ Hp Hok) as [He Hr],
                  (Unmarshal_single_result _ _ Hp' Hok') as [He' Hr']);
    cbn [envelopeError decoded] in *; rewrite He, He';
    rewrite ?Hr, ?Hr', ?(sameMember_tunnel _ _ Hresult),
            ?(sameMember_tunnels _ _ Hresult);
    reflexivity.
Qed.

(** *** Which decode error a response gives

    [Unmarshal] reports a syntax error before it stores anything, and the
    decoders of the fields report errors of their own kinds: the error of
    an operation tells a text that is not JSON from a JSON text of the
    wrong type. *)

(** No syntax error is recorded in the state. *)
Definition semantic (d : decodeState) : Prop :=
  savedError d <> Some SyntaxError /\ abort d <> Some SyntaxError.

(** A decoder records no syntax error. *)
Definition Keeps {T : Type} (dec : Decoder T) : Prop :=
  forall (j : JSON) (v : T) (d : decodeState),
  semantic d -> semantic (snd (dec j v d)).

Lemma saveError_semantic (e : error) (d : decodeState) :
  e <> SyntaxError -> semantic d -> semantic (saveError e d).
Proof.
  intros He [Hs Ha]. unfold saveError.
  destruct (savedError d) as [e'|] eqn:E; split; cbn; try assumption.
  - now rewrite E.
  - intros [= H]. now apply He.
Qed.

Ltac keeps_cases :=
  intros j v d Hd; destruct j; cbn -[parseInt]; try exact Hd;
  try (apply saveError_semantic; [discriminate | exact Hd]).

Lemma decodeString_keeps : Keeps decodeString.
Proof. keeps_cases. Qed.

Lemma decodeBool_keeps : Keeps decodeBool.
Proof. keeps_cases. Qed.

Lemma decodeInt_keeps : Keeps decodeInt.
Proof.
  keeps_cases. destruct (parseInt lit); cbn; [exact Hd|].
  apply saveError_semantic; [discriminate | exact Hd].
Qed.

Lemma decodeTime_keeps : Keeps decodeTime.
Proof.
  intros j v d [Hs Ha].
  destruct j; cbn; try (split; [assumption | discriminate]);
    try (split; assumption).
  destruct (parseRFC3339 raw); cbn; split; try assumption; discriminate.
Qed.

Lemma object_keeps {T : Type} (fields : list string)
  (store : string -> Decoder T) :
  (forall f, Keeps (store f)) ->
  forall (ms : list (string * JSON)) (v : T) (d : decodeState),
  semantic d -> semantic (snd (object fields store ms v d)).
Proof.
  intros Hstore. induction ms as [|[k j] ms IH]; intros v d Hd; [exact Hd|].
  cbn [object].
  destruct (findField fields k) as [f|].
  - pose proof (Hstore f j v d Hd) as H1.
    destruct (store f j v d) as [v1 d1]. cbn [snd] in H1.
    destruct (abort d1); [exact H1 | now apply IH].
  - destruct (abort d); [exact Hd | now apply IH].
Qed.

Lemma decodeStruct_keeps {T : Type} (fields : list string)
  (store : string -> Decoder T) (tyname : string) :
  (forall f, Keeps (store f)) -> Keeps (decodeStruct fields store tyname).
Proof.
  intros Hstore j v d Hd. destruct j as [| | | | |ms]; cbn; try exact Hd;
    try (apply saveError_semantic; [discriminate | exact Hd]).
  now apply object_keeps.
Qed.

Lemma array_keeps {T : Type} (zero : T) (elem : Decoder T) :
  Keeps elem ->
  forall (elems : list JSON) (old : list T) (d : decodeState),
  semantic d -> semantic (snd (array zero elem elems old d)).
Proof.
  intros Helem. induction elems as [|j elems IH]; intros old d Hd;
    [exact Hd|].
  cbn [array]. pose proof (Helem j (hd zero old) d Hd) as H1.
  destruct (elem j (hd zero old) d) as [x d1]. cbn [snd] in H1.
  destruct (abort d1); [exact H1|].
  pose proof (IH (tl old) d1 H1) as H2.
  destruct (array zero elem elems (tl old) d1) as [xs d2]. exact H2.
Qed.

Lemma decodeSlice_keeps {T : Type} (zero : T) (elem : Decoder T)
  (tyname : string) :
  Keeps elem -> Keeps (decodeSlice zero elem tyname).
Proof.
  intros Helem j v d Hd. destruct j as [| | | |elems|]; cbn; try exact Hd;
    try (apply saveError_semantic; [discriminate | exact Hd]).
  pose proof (array_keeps zero elem Helem elems
                (match v with Some l => l | None => [] end) d Hd) as H.
  destruct (array zero elem elems _ d) as [l d']. exact H.
Qed.

(** A store keeps what the decoders of its fields keep. *)
Ltac keeps_store :=
  intros j v d Hd;
  repeat match goal with
  | |- context [if String.eqb ?f ?s then _ else _] =>
    destruct (String.eqb f s)
  end;
  try exact Hd;
  match goal with
  | H : Keeps ?dec |- context [let (_, _) := ?dec j ?a d in _] =>
    let HS := fresh "HS" in
    pose proof (H j a d Hd) as HS; destruct (dec j a d); exact HS
  end.

Lemma store_ArgoTunnelConnection_keeps (f : string) :
  Keeps (store_ArgoTunnelConnection f).
Proof.
  pose proof decodeString_keeps. pose proof decodeBool_keeps.
  unfold store_ArgoTunnelConnection. keeps_store.
Qed.

Lemma decode_ArgoTunnelConnection_keeps : Keeps decode_ArgoTunnelConnection.
Proof.
  apply decodeStruct_keeps. exact store_ArgoTunnelConnection_keeps.
Qed.

Lemma store_ArgoTunnel_keeps (f : string) : Keeps (store_ArgoTunnel f).
Proof.
  pose proof decodeString_keeps. pose proof decodeTime_keeps.
  pose proof (decodeSlice_keeps ArgoTunnelConnection_zero
                decode_ArgoTunnelConnection
                "[]cloudflare.ArgoTunnelConnection"
                decode_ArgoTunnelConnection_keeps).
  unfold store_ArgoTunnel. keeps_store.
Qed.

Lemma decode_ArgoTunnel_keeps : Keeps decode_ArgoTunnel.
Proof. apply decodeStruct_keeps. exact store_ArgoTunnel_keeps. Qed.

Lemma decode_ArgoTunnels_keeps : Keeps decode_ArgoTunnels.
Proof. apply decodeSlice_keeps. exact decode_ArgoTunnel_keeps. Qed.

Lemma store_ResponseInfo_keeps (f : string) : Keeps (store_ResponseInfo f).
Proof.
  pose proof decodeString_keeps. pose proof decodeInt_keeps.
  unfold store_ResponseInfo. keeps_store.
Qed.

Lemma decode_ResponseInfos_keeps : Keeps decode_ResponseInfos.
Proof.
  apply decodeSlice_keeps, decodeStruct_keeps. exact store_ResponseInfo_keeps.
Qed.

Lemma store_Response_keeps (f : string) : Keeps (store_Response f).
Proof.
  pose proof decodeBool_keeps. pose proof decode_ResponseInfos_keeps.
  unfold store_Response. keeps_store.
Qed.

Lemma store_DetailResponse_keeps {R : Type} (decodeResult : Decoder R)
  (f : string) :
  Keeps decodeResult -> Keeps (store_DetailResponse decodeResult f).
Proof.
  intros Hres. pose proof (store_Response_keeps f).
  unfold store_DetailResponse. keeps_store.
Qed.

(** [Unmarshal] returns a syntax error exactly on the texts that are not
    JSON. *)
Lemma Unmarshal_syntax {T : Type} (dec : Decoder T) (res : string) (v : T) :
  Keeps dec ->
  (snd (Unmarshal dec res v) = Some SyntaxError <-> parse res = None).
Proof.
  intros Hdec. unfold Unmarshal.
  destruct (parse res) as [j|]; [|split; reflexivity].
  assert (Hstart : semantic start) by (split; discriminate).
  pose proof (Hdec j v start Hstart) as [Hs Ha].
  destruct (dec j v start) as [v' d]. cbn [snd] in *.
  split; [|discriminate]. unfold outcome.
  destruct (abort d) as [e|]; intros H; exfalso; auto.
Qed.

(** X11. An operation whose transport succeeds on a JSON text returns the
    syntax error, wrapped as a decode failure, exactly when the text is
    nested deeper than the scanner allows: a JSON text within the limit
    gives no error or an error of another kind, whatever the type of the
    value it denotes. The text and its value are those of the grammar of
    RFC 8259 ([json_text.Denotes]). *)
Theorem json_text_is_a_syntax_error_iff_too_deep :
  forall (api : API) (ctx : Context) (op : Operation) (res : string) (j : JSON),
  json_text.Denotes res j ->
  api (requestOf ctx op) = (res, None) ->
  (snd (run api (perform ctx op))
   = Some (withMessage SyntaxError errUnmarshalError)
   <-> (nesting j <=? maxNestingDepth)%N = false).
Proof.
  intros api ctx op res j Hj H.
  rewrite (run_perform _ _ _ _ _ H).
  assert (Herr : envelopeError op res = Some SyntaxError <-> parse res = None).
  { destruct op; cbn [envelopeError];
      apply Unmarshal_syntax; apply decodeStruct_keeps; intros f;
      apply store_DetailResponse_keeps;
      auto using decode_ArgoTunnel_keeps, decode_ArgoTunnels_keeps. }
  rewrite (json_text.Denotes_parse res j Hj) in Herr.
  assert (Hiff : envelopeError op res = Some SyntaxError
                 <-> (nesting j <=? maxNestingDepth)%N = false).
  { rewrite Herr. destruct (nesting j <=? maxNestingDepth)%N; split;
      try discriminate; reflexivity. }
  destruct (envelopeError op res) as [e|]; cbn [snd].
  - split.
    + intros [= ->]. now apply Hiff.
    + intros Hp. apply Hiff in Hp. now injection Hp as ->.
  - split; [discriminate|]. intros Hp. apply Hiff in Hp. discriminate Hp.
Qed.
End Client.

Arguments run {Context Time A} api p.
Arguments issued {Context Time A} api p.
Arguments Tunnels {Time} l.
Arguments Tunnel {Time} t.
Arguments NoValue {Time}.
Arguments ID {Time} a.
Arguments Name {Time} a.
Arguments Secret {Time} a.
Arguments CreatedAt {Time} a.
Arguments DeletedAt {Time} a.
Arguments Connections {Time} a.
Arguments Result {R} d.
Arguments embedded {R} d.

(** ** Scenarios

    The collaborators made concrete, to run the methods on responses. A
    timestamp is kept as its text and is accepted when it has the layout of
    RFC 3339 (the range of its fields is not checked); the context carries
    nothing; the two messages are those of the package. *)

Definition Timestamp : Type := string.

Definition isZone (s : string) : bool :=
  match s with
  | String "Z" EmptyString => true
  | String sign (String h1 (String h2 (String ":" (String m1 (String m2 EmptyString))))) =>
    (Ascii.eqb sign "+" || Ascii.eqb sign "-")
    && forallb isDigit [h1; h2; m1; m2]
  | _ => false
  end.

Definition hasLayoutRFC3339 (s : string) : bool :=
  match s with
  | String y1 (String y2 (String y3 (String y4 (String "-"
      (String m1 (String m2 (String "-" (String d1 (String d2 (String "T"
        (String h1 (String h2 (String ":" (String n1 (String n2 (String ":"
          (String s1 (String s2 rest)))))))))))))))))) =>
    forallb isDigit [y1; y2; y3; y4; m1; m2; d1; d2; h1; h2; n1; n2; s1; s2]
    && match rest with
       | String "." r =>
         match digits1 r with
         | Some (_, zone) => isZone zone
         | None => false
         end
       | _ => isZone rest
       end
  | _ => false
  end.

Definition readTimestamp (s : string) : option Timestamp :=
  if hasLayoutRFC3339 s then Some s else None.

Definition writeTimestamp (t : Timestamp) : option string := Some t.

Definition errMakeRequestError : string := "error from makeRequest".
Definition errUnmarshalError : string := "error unmarshalling the JSON response".

(** A JSON text written with apostrophes for its double quotes. *)
Fixpoint text (s : string) : string :=
  match s with
  | EmptyString => ""
  | String c r => String (if Ascii.eqb c "'" then dquote else c) (text r)
  end.

(** The client that answers every request with [reply]. *)
Definition answering (reply : Reply) : API unit Timestamp :=
  fun _ => reply.

Definition listTunnels :=
  ArgoTunnels unit Timestamp "" readTimestamp errMakeRequestError
    errUnmarshalError tt.

Definition getTunnel :=
  API_ArgoTunnel unit Timestamp "" readTimestamp errMakeRequestError
    errUnmarshalError tt.

Definition createTunnel :=
  CreateArgoTunnel unit Timestamp "" readTimestamp errMakeRequestError
    errUnmarshalError tt.

Definition deleteTunnel :=
  DeleteArgoTunnel unit Timestamp "" readTimestamp errMakeRequestError
    errUnmarshalError tt.

Definition cleanupConnections :=
  CleanupArgoTunnelConnections unit Timestamp "" readTimestamp
    errMakeRequestError errUnmarshalError tt.

Definition performOp :=
  perform unit Timestamp "" readTimestamp errMakeRequestError
    errUnmarshalError tt.


(** Documents for the scenarios: a string and the name of a member in
    unescaped ASCII, an object and an array written without white
    space. *)
Definition str (s : string) : json_text.Doc :=
  json_text.DString (json_text.plainChars s).

Definition key (s : string) : json_text.Key :=
  {| json_text.lead := ""; json_text.name := json_text.plainChars s;
     json_text.trail := "" |}.

Definition obj (ms : list (json_text.Key * json_text.Doc)) : json_text.Doc :=
  json_text.DObject "" ms.

Definition arr (l : list json_text.Doc) : json_text.Doc :=
  json_text.DArray "" l.

(** The response of the Create scenario, written with white space and with
    the [t] of [mytunnel] as the escape of U+0074. *)
Definition createResponse : json_text.Doc :=
  json_text.DObject " "
    [({| json_text.lead := ""; json_text.name := json_text.plainChars "result";
         json_text.trail := " " |},
      json_text.DPad " "
        (obj [(key "id", str "t1");
              (key "name",
               json_text.DString
                 (json_text.plainChars "my"
                  ++ [json_text.Unicode "0" "0" "7" "4"]
                  ++ json_text.plainChars "unnel")%list)]) "");
     (key "success", json_text.DPad "" (json_text.DBool true) " ")].

(** A response to Get with timestamps and a connection. *)
Definition getResponse : json_text.Doc :=
  obj [(key "result",
        obj [(key "id", str "t1");
             (key "name", str "mytunnel");
             (key "created_at", str "2020-05-01T10:00:00Z");
             (key "deleted_at", json_text.DNull);
             (key "connections",
              arr [obj [(key "colo_name", str "DFW");
                        (key "uuid", str "c1");
                        (key "is_pending_reconnect", json_text.DBool true)]])]);
       (key "success", json_text.DBool true);
       (key "errors", arr []);
       (key "messages", arr [])].

(** A response to List with two tunnels, on two lines. *)
Definition listResponse : json_text.Doc :=
  obj [(key "result",
        json_text.DArray (String "010" " ")
          [obj [(key "id", str "t1"); (key "name", str "a")];
           json_text.DPad (String "010" " ")
             (obj [(key "id", str "t2"); (key "name", str "b")])
             (String "010" "")]);
       (key "success", json_text.DBool true)].

Example createResponse_text :
  json_text.render createResponse
  = text ("{ 'result' : {'id':'t1','name':'my"
          ++ String backslash "u0074unnel'},'success':true }").
Proof. reflexivity. Qed.

Example getResponse_text :
  json_text.render getResponse
  = text "{'result':{'id':'t1','name':'mytunnel','created_at':'2020-05-01T10:00:00Z','deleted_at':null,'connections':[{'colo_name':'DFW','uuid':'c1','is_pending_reconnect':true}]},'success':true,'errors':[],'messages':[]}".
Proof. reflexivity. Qed.

Example listResponse_text :
  json_text.render listResponse
  = text ("{'result':[" ++ String "010" " {'id':'t1','name':'a'},"
          ++ String "010" " {'id':'t2','name':'b'}"
          ++ String "010" "],'success':true}").
Proof. reflexivity. Qed.

(** A response to Get with keys in upper case and a member no field
    takes, and its normal form. *)
Definition foldedResponse : json_text.Doc :=
  obj [(key "RESULT",
        obj [(key "Name", str "n");
             (key "extra",
              arr [json_text.DNumber
                     {| json_text.minus := false; json_text.int := "1";
                        json_text.frac := None; json_text.exp := None |}])]);
       (key "success", json_text.DBool false)].

Definition normalFormResponse : json_text.Doc :=
  obj [(key "result", obj [(key "name", str "n")]);
       (key "success", json_text.DBool false)].

Example foldedResponse_text :
  json_text.render foldedResponse
  = text "{'RESULT':{'Name':'n','extra':[1]},'success':false}"
  /\ json_text.render normalFormResponse
     = text "{'result':{'name':'n'},'success':false}".
Proof. split; reflexivity. Qed.

(** [null] inside [n] pairs of brackets. *)
Fixpoint deep (n : nat) : json_text.Doc :=
  match n with
  | O => json_text.DNull
  | S k => arr [deep k]
  end.

Example deep_text : json_text.render (deep 3) = "[[[null]]]".
Proof. reflexivity. Qed.

(** One pair of brackets more than the scanner allows. *)
Definition tooDeep : json_text.Doc := deep (N.to_nat 10001).
Example scenario_parse :
  parse (text "{'result':{'id':'t1','name':'mytunnel'},'success':true}")
  = Some (JObject [("result", JObject [("id", JString "t1" "t1");
                                        ("name", JString "mytunnel" "mytunnel")]);
                   ("success", JBool true)]).
Proof. reflexivity. Qed.

(** Identifiers with bytes that a URL would escape stand in the path as
    they are. *)
Example identifiers_not_escaped :
  issued (answering ("", None)) (getTunnel "a b/%s" "t?1#")
  = [{| ctx := tt; method := "GET"; uri := "/accounts/a b/%s/tunnels/t?1#";
        params := None |}].
Proof. reflexivity. Qed.

(** The request of the Create scenario and the body [json.Marshal] writes
    for its parameters. *)
Example create_scenario_request :
  issued (answering ("", None)) (createTunnel "acct1" "mytunnel" "s3cr3t")
  = [{| ctx := tt; method := "POST"; uri := "/accounts/acct1/tunnels";
        params := Some {| ID := ""; Name := "mytunnel"; Secret := "s3cr3t";
                          CreatedAt := None; DeletedAt := None;
                          Connections := None |} |}]
  /\ Marshal_ArgoTunnel Timestamp writeTimestamp
       {| ID := ""; Name := "mytunnel"; Secret := "s3cr3t"; CreatedAt := None;
          DeletedAt := None; Connections := None |}
     = Some (text "{'name':'mytunnel','tunnel_secret':'s3cr3t'}").
Proof. split; reflexivity. Qed.

(** List against a transport error returns the empty sequence and the
    wrapped transport error. *)
Lemma transport_failure_witness :
  run (answering ("", Some (errorString "connection refused")))
    (performOp (List "acct1"))
  = (Tunnels (Some []),
     Some (withMessage (errorString "connection refused")
             "error from makeRequest")).
Proof.
  unfold performOp.
  apply transport_failure_returns_zero_value with (res := "").
  reflexivity.
Defined.

(** Get on a response whose [name] is a number: the decoder has stored the
    [id] when it meets the error, and the method returns the zero tunnel. *)
Lemma decode_failure_witness :
  ID
    (Result
       (fst (Unmarshal
               (decode_ArgoTunnelDetailResponse Timestamp "" readTimestamp)
               (text "{'result':{'id':'t1','name':5}}")
               (DetailResponse_zero (ArgoTunnel_zero Timestamp))))) = "t1"
  /\ run (answering (text "{'result':{'id':'t1','name':5}}", None))
       (performOp (Get "acct1" "t1"))
     = (Tunnel (ArgoTunnel_zero Timestamp),
        Some (withMessage (UnmarshalTypeError "number" "string")
                "error unmarshalling the JSON response")).
Proof.
  split; [reflexivity|].
  unfold performOp.
  apply decode_failure_returns_zero_value
    with (res := text "{'result':{'id':'t1','name':5}}").
  - reflexivity.
  - reflexivity.
Defined.

(** Delete and CleanupConnections on an envelope that reports a failure. *)
Lemma delete_ignores_status_witness :
  Success
    (embedded
       (fst (Unmarshal
               (decode_ArgoTunnelDetailResponse Timestamp "" readTimestamp)
               (text "{'success':false,'errors':[{'code':1003,'message':'Invalid tunnel'}],'messages':[],'result':null}")
               (DetailResponse_zero (ArgoTunnel_zero Timestamp))))) = false
  /\ run (answering (text "{'success':false,'errors':[{'code':1003,'message':'Invalid tunnel'}],'messages':[],'result':null}", None))
       (deleteTunnel "acct1" "t1") = None
  /\ run (answering (text "{'success':false,'errors':[{'code':1003,'message':'Invalid tunnel'}],'messages':[],'result':null}", None))
       (cleanupConnections "acct1" "t1") = None.
Proof.
  split; [reflexivity|].
  unfold deleteTunnel, cleanupConnections.
  split;
    eapply delete_ignores_the_envelope_status
      with (res := text "{'success':false,'errors':[{'code':1003,'message':'Invalid tunnel'}],'messages':[],'result':null}");
    reflexivity.
Defined.

(** Create on the response of the scenario, written with white space and
    an escape, and Get on a response with timestamps and a connection. *)
Lemma get_and_create_witness :
  run (answering (text ("{ 'result' : {'id':'t1','name':'my"
                        ++ String backslash "u0074unnel'},'success':true }"),
                  None))
    (createTunnel "acct1" "mytunnel" "s3cr3t")
  = ({| ID := "t1"; Name := "mytunnel"; Secret := ""; CreatedAt := None;
        DeletedAt := None; Connections := None |}, None)
  /\ run (answering (text "{'result':{'id':'t1','name':'mytunnel','created_at':'2020-05-01T10:00:00Z','deleted_at':null,'connections':[{'colo_name':'DFW','uuid':'c1','is_pending_reconnect':true}]},'success':true,'errors':[],'messages':[]}", None))
       (getTunnel "acct1" "t1")
     = ({| ID := "t1"; Name := "mytunnel"; Secret := "";
           CreatedAt := Some "2020-05-01T10:00:00Z"; DeletedAt := None;
           Connections := Some [{| ColoName := "DFW"; UUID := "c1";
                                   IsPendingReconnect := true |}] |}, None).
Proof.
  split.
  - pose proof (get_and_create_return_the_result_object unit Timestamp ""
                  readTimestamp errMakeRequestError errUnmarshalError
                  (answering (json_text.render createResponse, None))
                  tt "acct1" "t1" "mytunnel" "s3cr3t"
                  (json_text.render createResponse)
                  (json_text.valueOf createResponse)
                  (ex_intro _ createResponse
                     (conj eq_refl (conj eq_refl eq_refl)))
                  eq_refl eq_refl) as (_ & Hcreate & _).
    exact (Hcreate eq_refl).
  - pose proof (get_and_create_return_the_result_object unit Timestamp ""
                  readTimestamp errMakeRequestError errUnmarshalError
                  (answering (json_text.render getResponse, None))
                  tt "acct1" "t1" "" ""
                  (json_text.render getResponse)
                  (json_text.valueOf getResponse)
                  (ex_intro _ getResponse
                     (conj eq_refl (conj eq_refl eq_refl)))
                  eq_refl eq_refl) as (Hget & _ & _).
    exact (Hget eq_refl).
Defined.

(** List on a response with two tunnels, written on two lines. *)
Lemma list_keeps_order_witness :
  exists l : list (ArgoTunnel Timestamp),
    run (answering (text ("{'result':[" ++ String "010" " {'id':'t1','name':'a'},"
                          ++ String "010" " {'id':'t2','name':'b'}"
                          ++ String "010" "],'success':true}"), None))
      (listTunnels "acct1") = (Some l, None)
    /\ length l = 2
    /\ nth_error l 0
       = Some {| ID := "t1"; Name := "a"; Secret := ""; CreatedAt := None;
                 DeletedAt := None; Connections := None |}
    /\ nth_error l 1
       = Some {| ID := "t2"; Name := "b"; Secret := ""; CreatedAt := None;
                 DeletedAt := None; Connections := None |}.
Proof.
  destruct (list_keeps_length_and_order unit Timestamp "" readTimestamp
              errMakeRequestError errUnmarshalError
              (answering (json_text.render listResponse, None))
              tt "acct1"
              (json_text.render listResponse)
              (json_text.valueOf listResponse) _
              (ex_intro _ listResponse (conj eq_refl (conj eq_refl eq_refl)))
              eq_refl eq_refl eq_refl eq_refl) as [l (Hrun & Hlen & Hnth)].
  exists l. split; [exact Hrun|]. split; [exact Hlen|]. split.
  - exact (Hnth 0 _ eq_refl).
  - exact (Hnth 1 _ eq_refl).
Defined.

(** A connection object with its [uuid] only, decoded into a variable that
    holds a connection: the [uuid] is stored, the two other fields are as
    they were. *)
Lemma connection_fields_optional_witness :
  decode_ArgoTunnelConnection (JObject [("uuid", JString "c1" "c1")])
    {| ColoName := "DFW"; UUID := "c0"; IsPendingReconnect := true |} start
  = ({| ColoName := "DFW"; UUID := "c1"; IsPendingReconnect := true |}, start).
Proof.
  exact (proj1 (connection_fields_are_optional_when_decoding
                  [("uuid", JString "c1" "c1")]
                  {| ColoName := "DFW"; UUID := "c0";
                     IsPendingReconnect := true |}
                  start eq_refl eq_refl)).
Defined.

(** Get accepts a tunnel whose connections lack fields: the first has its
    [uuid] only, the second no field at all; the response decodes with no
    error and the missing fields are zero. *)
Lemma connection_fields_required_counterexample :
  run (answering (text "{'result':{'id':'t1','connections':[{'uuid':'c1'},{}]}}", None))
    (getTunnel "acct1" "t1")
  = ({| ID := "t1"; Name := ""; Secret := ""; CreatedAt := None;
        DeletedAt := None;
        Connections := Some [{| ColoName := ""; UUID := "c1";
                                IsPendingReconnect := false |};
                             {| ColoName := ""; UUID := "";
                                IsPendingReconnect := false |}] |}, None).
Proof. vm_compute. reflexivity. Qed.

(** A [connections] member that comes twice: the connection of the second
    array is decoded into the element the first one left, and the fields
    it omits keep what the first one stored. *)
Example repeated_connections_keep_earlier_fields :
  run (answering (text "{'result':{'connections':[{'uuid':'a','is_pending_reconnect':true}],'connections':[{'colo_name':'DFW'}]}}", None))
    (getTunnel "acct1" "t1")
  = ({| ID := ""; Name := ""; Secret := ""; CreatedAt := None;
        DeletedAt := None;
        Connections := Some [{| ColoName := "DFW"; UUID := "a";
                                IsPendingReconnect := true |}] |}, None).
Proof. vm_compute. reflexivity. Qed.

(** List on a response with no [result] member, and on one whose [result]
    is [null]. *)
Lemma list_returns_nil_witness :
  run (answering (text "{'success':true,'errors':[],'messages':[]}", None))
    (listTunnels "acct1") = (None, None)
  /\ run (answering (text "{'result':null,'success':true}", None))
       (listTunnels "acct1") = (None, None).
Proof.
  split.
  - exact (proj1 (list_returns_nil_without_result unit Timestamp ""
                    readTimestamp errMakeRequestError errUnmarshalError
                    (answering (text "{'success':true,'errors':[],'messages':[]}", None))
                    tt "acct1"
                    (text "{'success':true,'errors':[],'messages':[]}")
                    _ eq_refl eq_refl (or_introl eq_refl) eq_refl)).
  - exact (proj1 (list_returns_nil_without_result unit Timestamp ""
                    readTimestamp errMakeRequestError errUnmarshalError
                    (answering (text "{'result':null,'success':true}", None))
                    tt "acct1"
                    (text "{'result':null,'success':true}")
                    _ eq_refl eq_refl (or_intror eq_refl) eq_refl)).
Defined.

(** Two clients that fail with different errors. *)
Lemma operations_depend_on_reply_witness :
  fst (run (answering ("", Some (errorString "timeout")))
         (performOp (List "acct1")))
  = fst (run (answering ("", Some (errorString "connection refused")))
           (performOp (List "acct1")))
  /\ stage (snd (run (answering ("", Some (errorString "timeout")))
                   (performOp (List "acct1"))))
     = stage (snd (run (answering ("", Some (errorString "connection refused")))
                     (performOp (List "acct1")))).
Proof.
  assert (Hboth : Some (errorString "timeout") = None
                  <-> Some (errorString "connection refused") = None)
    by (split; discriminate).
  pose proof (operations_depend_on_the_reply_only unit Timestamp ""
                readTimestamp errMakeRequestError errUnmarshalError
                (answering ("", Some (errorString "timeout")))
                (answering ("", Some (errorString "connection refused")))
                tt (List "acct1") ""
                (Some (errorString "timeout"))
                (Some (errorString "connection refused"))
                eq_refl eq_refl Hboth)
    as (Hfst & Hstage & _).
  exact (conj Hfst Hstage).
Defined.


(** Outside the shape: a key that differs from a field name in case only
    selects the field, and of a repeated key the last member stays. *)
Example key_matching_ignores_case :
  run (answering (text "{'result':{'ID':'x','Tunnel_Secret':'y'}}", None))
    (getTunnel "acct1" "t1")
  = ({| ID := "x"; Name := ""; Secret := "y"; CreatedAt := None;
        DeletedAt := None; Connections := None |}, None).
Proof. vm_compute. reflexivity. Qed.

Example repeated_key_last_wins :
  run (answering (text "{'result':{'id':'a','id':'b'}}", None))
    (getTunnel "acct1" "t1")
  = ({| ID := "b"; Name := ""; Secret := ""; CreatedAt := None;
        DeletedAt := None; Connections := None |}, None).
Proof. vm_compute. reflexivity. Qed.

(** A timestamp that is no RFC 3339 text stops decoding: Get returns the
    zero tunnel and the wrapped error of the decode stage. *)
Example bad_timestamp_is_a_decode_failure :
  run (answering (text "{'result':{'id':'t1','created_at':'yesterday'}}", None))
    (getTunnel "acct1" "t1")
  = (ArgoTunnel_zero Timestamp,
     Some (withMessage (TimeParseError "yesterday")
             "error unmarshalling the JSON response")).
Proof. vm_compute. reflexivity. Qed.

(** A response that is no JSON text. *)
Example malformed_response_is_a_decode_failure :
  run (answering ("<html>502 Bad Gateway</html>", None)) (listTunnels "acct1")
  = (Some [],
     Some (withMessage SyntaxError "error unmarshalling the JSON response")).
Proof. vm_compute. reflexivity. Qed.

(** Two clients, one request: the operation is the same. *)
Lemma request_determines_operation_witness :
  issued (answering ("", None)) (performOp (Delete "acct1" "t1"))
  = issued (answering ("{}", None)) (performOp (Delete "acct1" "t1"))
  /\ Delete "acct1" "t1" = Delete "acct1" "t1".
Proof.
  split; [reflexivity|].
  apply (request_determines_operation unit Timestamp "" readTimestamp
           errMakeRequestError errUnmarshalError
           (answering ("", None)) (answering ("{}", None)) tt);
    reflexivity.
Defined.

(** A reply whose [result] has a number for its [name]: Delete and
    CleanupConnections fail with the error of Get. *)
Lemma delete_fails_as_get_witness :
  run (answering (text "{'success':true,'result':{'id':'t1','name':5}}", None))
    (deleteTunnel "acct1" "t1")
  = Some (withMessage (UnmarshalTypeError "number" "string")
            "error unmarshalling the JSON response")
  /\ run (answering (text "{'success':true,'result':{'id':'t1','name':5}}", None))
       (deleteTunnel "acct1" "t1")
     = snd (run (answering (text "{'success':true,'result':{'id':'t1','name':5}}", None))
              (getTunnel "acct1" "t1"))
  /\ run (answering (text "{'success':true,'result':{'id':'t1','name':5}}", None))
       (cleanupConnections "acct1" "t1")
     = snd (run (answering (text "{'success':true,'result':{'id':'t1','name':5}}", None))
              (getTunnel "acct1" "t1")).
Proof.
  split; [reflexivity|].
  unfold deleteTunnel, cleanupConnections, getTunnel.
  apply delete_fails_exactly_when_get_fails
    with (reply := (text "{'success':true,'result':{'id':'t1','name':5}}", None));
    reflexivity.
Defined.

(** Get on a response with keys in upper case and a member no field
    takes: no error. *)
Lemma operation_succeeds_witness :
  snd (run (answering (text "{'RESULT':{'Name':'n','extra':[1]},'success':false}", None))
         (performOp (Get "acct1" "t1"))) = None.
Proof.
  unfold performOp.
  apply (proj2 (operation_succeeds_iff_response_typed unit Timestamp ""
                  readTimestamp errMakeRequestError errUnmarshalError
                  (answering (json_text.render foldedResponse, None)) tt
                  (Get "acct1" "t1") (json_text.render foldedResponse)
                  (json_text.valueOf foldedResponse)
                  (ex_intro _ foldedResponse
                     (conj eq_refl (conj eq_refl eq_refl)))
                  eq_refl)).
  split; reflexivity.
Defined.

(** The same response and its normal form. *)
Lemma operation_reads_normal_form_witness :
  run (answering (text "{'result':{'name':'n'},'success':false}", None))
    (performOp (Get "acct1" "t1"))
  = run (answering (text "{'RESULT':{'Name':'n','extra':[1]},'success':false}", None))
      (performOp (Get "acct1" "t1")).
Proof.
  unfold performOp.
  apply (operation_reads_the_normal_form unit Timestamp "" readTimestamp
           errMakeRequestError errUnmarshalError
           (answering (json_text.render foldedResponse, None))
           (answering (json_text.render normalFormResponse, None)) tt
           (Get "acct1" "t1") (json_text.render foldedResponse)
           (json_text.render normalFormResponse)
           (json_text.valueOf foldedResponse)
           (ex_intro _ foldedResponse (conj eq_refl (conj eq_refl eq_refl)))
           (ex_intro _ normalFormResponse
              (conj eq_refl (conj eq_refl eq_refl)))
           eq_refl eq_refl eq_refl).
Defined.

(** A connection whose colo name has a quote, a line feed and a letter of
    two bytes. *)
Lemma connection_survives_witness :
  Unmarshal decode_ArgoTunnelConnection
    (Marshal_ArgoTunnelConnection
       {| ColoName := String "D" (String dquote (String "010" (String "195" (String "169" "W"))));
          UUID := "c1"; IsPendingReconnect := true |})
    ArgoTunnelConnection_zero
  = ({| ColoName := String "D" (String dquote (String "010" (String "195" (String "169" "W"))));
        UUID := "c1"; IsPendingReconnect := true |}, None).
Proof.
  apply connection_survives_marshal_and_unmarshal; reflexivity.
Defined.

(** A tunnel with a timestamp, a connection and no secret. *)
Lemma tunnel_survives_witness :
  exists body : string,
    Marshal_ArgoTunnel Timestamp writeTimestamp
      {| ID := "t1"; Name := "my<tunnel>"; Secret := "";
         CreatedAt := Some "2020-05-01T10:00:00Z"; DeletedAt := None;
         Connections := Some [{| ColoName := "DFW"; UUID := "c1";
                                 IsPendingReconnect := true |}] |}
    = Some body
    /\ Unmarshal (decode_ArgoTunnel Timestamp "" readTimestamp) body
         (ArgoTunnel_zero Timestamp)
       = ({| ID := "t1"; Name := "my<tunnel>"; Secret := "";
             CreatedAt := Some "2020-05-01T10:00:00Z"; DeletedAt := None;
             Connections := Some [{| ColoName := "DFW"; UUID := "c1";
                                     IsPendingReconnect := true |}] |}, None).
Proof.
  apply (tunnel_survives_marshal_and_unmarshal Timestamp "" readTimestamp
           writeTimestamp
           {| ID := "t1"; Name := "my<tunnel>"; Secret := "";
              CreatedAt := Some "2020-05-01T10:00:00Z"; DeletedAt := None;
              Connections := Some [{| ColoName := "DFW"; UUID := "c1";
                                      IsPendingReconnect := true |}] |}).
  - reflexivity.
  - exists "2020-05-01T10:00:00Z". repeat split; reflexivity.
  - exact I.
Defined.

(** Get on a response whose [result] is the text written for a tunnel with
    an empty list of connections. *)
Lemma get_reads_what_marshal_writes_witness :
  Marshal_ArgoTunnel Timestamp writeTimestamp
    {| ID := "t1"; Name := "mytunnel"; Secret := "";
       CreatedAt := Some "2020-05-01T10:00:00Z"; DeletedAt := None;
       Connections := Some [] |}
  = Some (text "{'id':'t1','name':'mytunnel','created_at':'2020-05-01T10:00:00Z'}")
  /\ run (answering (text "{'success':true,'errors':[],'messages':[],'result':{'id':'t1','name':'mytunnel','created_at':'2020-05-01T10:00:00Z'}}", None))
       (getTunnel "acct1" "t1")
     = ({| ID := "t1"; Name := "mytunnel"; Secret := "";
           CreatedAt := Some "2020-05-01T10:00:00Z"; DeletedAt := None;
           Connections := None |}, None).
Proof.
  split; [reflexivity|].
  pose proof (get_and_create_read_what_marshal_writes unit Timestamp ""
                readTimestamp writeTimestamp errMakeRequestError
                errUnmarshalError
                (answering (text "{'success':true,'errors':[],'messages':[],'result':{'id':'t1','name':'mytunnel','created_at':'2020-05-01T10:00:00Z'}}", None))
                tt "acct1" "t1" "" ""
                (text "{'success':true,'errors':[],'messages':[],'result':{'id':'t1','name':'mytunnel','created_at':'2020-05-01T10:00:00Z'}}")
                _
                {| ID := "t1"; Name := "mytunnel"; Secret := "";
                   CreatedAt := Some "2020-05-01T10:00:00Z"; DeletedAt := None;
                   Connections := Some [] |}
                (text "{'id':'t1','name':'mytunnel','created_at':'2020-05-01T10:00:00Z'}")
                eq_refl
                (ex_intro _ "2020-05-01T10:00:00Z" (conj eq_refl (conj eq_refl eq_refl)))
                I eq_refl eq_refl eq_refl eq_refl) as [Hget _].
  exact (Hget eq_refl).
Defined.

(** List on a response with the texts written for two tunnels. *)
Lemma list_reads_what_marshal_writes_witness :
  run (answering (text "{'success':true,'result':[{'id':'t1','name':'a'},{'id':'t2','tunnel_secret':'s'}]}", None))
    (listTunnels "acct1")
  = (Some [{| ID := "t1"; Name := "a"; Secret := ""; CreatedAt := None;
              DeletedAt := None; Connections := None |};
           {| ID := "t2"; Name := ""; Secret := "s"; CreatedAt := None;
              DeletedAt := None; Connections := None |}], None).
Proof.
  unfold listTunnels.
  apply (list_reads_what_marshal_writes unit Timestamp "" readTimestamp
           writeTimestamp errMakeRequestError errUnmarshalError
           (answering (text "{'success':true,'result':[{'id':'t1','name':'a'},{'id':'t2','tunnel_secret':'s'}]}", None))
           tt "acct1"
           (text "{'success':true,'result':[{'id':'t1','name':'a'},{'id':'t2','tunnel_secret':'s'}]}")
           (JObject
              [("success", JBool true);
               ("result",
                JArray
                  [JObject [("id", JString "t1" "t1"); ("name", JString "a" "a")];
                   JObject [("id", JString "t2" "t2");
                            ("tunnel_secret", JString "s" "s")]])])
           [{| ID := "t1"; Name := "a"; Secret := ""; CreatedAt := None;
               DeletedAt := None; Connections := None |};
            {| ID := "t2"; Name := ""; Secret := "s"; CreatedAt := None;
               DeletedAt := None; Connections := None |}]
           [JObject [("id", JString "t1" "t1"); ("name", JString "a" "a")];
            JObject [("id", JString "t2" "t2");
                     ("tunnel_secret", JString "s" "s")]]).
  - repeat constructor.
  - repeat constructor.
    + exists (text "{'id':'t1','name':'a'}"). split; reflexivity.
    + exists (text "{'id':'t2','tunnel_secret':'s'}"). split; reflexivity.
  - reflexivity.
  - reflexivity.
  - reflexivity.
  - reflexivity.
Defined.

(** Get on a response and on the same response with the members of the
    envelope and of the tunnel in another order. *)
Lemma operations_ignore_member_order_witness :
  run (answering (text "{'success':true,'result':{'name':'n','connections':[{'uuid':'c1','colo_name':'DFW'}],'id':'t1'}}", None))
    (performOp (Get "acct1" "t1"))
  = run (answering (text "{'result':{'id':'t1','name':'n','connections':[{'colo_name':'DFW','uuid':'c1'}]},'success':true}", None))
      (performOp (Get "acct1" "t1")).
Proof.
  unfold performOp.
  eapply operations_ignore_member_order
    with (res := text "{'result':{'id':'t1','name':'n','connections':[{'colo_name':'DFW','uuid':'c1'}]},'success':true}")
         (res' := text "{'success':true,'result':{'name':'n','connections':[{'uuid':'c1','colo_name':'DFW'}],'id':'t1'}}");
    reflexivity.
Defined.

(** With two members for one field the order counts: the later one is
    kept. *)
Example duplicate_members_depend_on_order :
  fst (run (answering (text "{'result':{'name':'a','name':'b'}}", None))
         (getTunnel "acct1" "t1"))
  = {| ID := ""; Name := "b"; Secret := ""; CreatedAt := None;
       DeletedAt := None; Connections := None |}
  /\ fst (run (answering (text "{'result':{'name':'b','name':'a'}}", None))
            (getTunnel "acct1" "t1"))
     = {| ID := ""; Name := "a"; Secret := ""; CreatedAt := None;
          DeletedAt := None; Connections := None |}.
Proof. split; reflexivity. Qed.

(** A byte that is not valid UTF-8 does not survive: it is written as the
    escape of U+FFFD and read back as that character. *)
Example invalid_utf8_does_not_survive :
  Marshal_ArgoTunnel Timestamp writeTimestamp
    {| ID := ""; Name := String "255" "x"; Secret := ""; CreatedAt := None;
       DeletedAt := None; Connections := None |}
  = Some (text "{'name':'" ++ String backslash "ufffdx" ++ text "'}")
  /\ fst (Unmarshal (decode_ArgoTunnel Timestamp "" readTimestamp)
            (text "{'name':'" ++ String backslash "ufffdx" ++ text "'}")
            (ArgoTunnel_zero Timestamp))
     = {| ID := ""; Name := String "239" (String "191" (String "189" "x"));
          Secret := ""; CreatedAt := None; DeletedAt := None;
          Connections := None |}.
Proof. split; reflexivity. Qed.

(** List on a response of 10001 brackets inside one another. *)
Lemma syntax_error_witness :
  snd (run (answering (json_text.render (tooDeep), None))
         (performOp (List "acct1")))
  = Some (withMessage SyntaxError "error unmarshalling the JSON response").
Proof.
  assert (Hwf : json_text.wellFormed (tooDeep) = true)
    by (vm_compute; reflexivity).
  assert (Hdeep : (nesting (json_text.valueOf (tooDeep))
                   <=? maxNestingDepth)%N = false)
    by (vm_compute; reflexivity).
  unfold performOp.
  exact (proj2 (json_text_is_a_syntax_error_iff_too_deep unit Timestamp ""
                  readTimestamp errMakeRequestError errUnmarshalError
                  (answering (json_text.render (tooDeep), None)) tt
                  (List "acct1") (json_text.render (tooDeep))
                  (json_text.valueOf (tooDeep))
                  (ex_intro _ (tooDeep)
                     (conj Hwf (conj eq_refl eq_refl)))
                  eq_refl) Hdeep).
Defined.
End cloudflare.
